(** * The growable ring buffer of [src/ringbuffer.c]

    A shallow embedding of the ring buffer that backs the JSON array
    implementation, together with the properties stated for it.

    Conventions of the embedding:
    - [size_t] is the 64-bit unsigned type: a [Z] in [0, 2^64), every
      arithmetic operation that can leave that range written with [wrap];
    - [json_t *] is an address, a [Z], with [NULL = 0];
    - the storage [json_t **buffer] is [option (list ptr)]: [None] is the
      null pointer, [Some mem] an allocated block of [length mem] slots;
    - a pointer into the storage ([posRead], [posWrite], [endOfBuffer]) is
      the index of the slot it points to;
    - every function threads the structure and the collaborators' state
      ([world]) explicitly and returns an [outcome]: [Done] with the C
      return value, [Undefined] where C leaves the behaviour undefined
      (access outside the block, null dereference, [% 0]), or [OutOfFuel]
      when a loop did not finish within the given number of iterations. *)

From stdpp Require Import base option list gmap.
From Stdlib Require Import ZArith Lia.

Local Open Scope Z_scope.

(** ** Machine integers and pointers *)

Definition ptr := Z.
Definition NULL : ptr := 0.

Definition SIZE_MODULUS : Z := 2 ^ 64.

(** Reduction of a mathematical integer to a [size_t]. *)
Definition wrap (x : Z) : Z := x mod SIZE_MODULUS.

(** [sizeof(json_t * )]. *)
Definition PTR_BYTES : Z := 8.

Definition RINGBUFFER_MIN_BUFFER_SIZE : Z := 8.

(** ** Outcomes *)

Inductive outcome (A : Type) : Type :=
| Done (a : A)
| Undefined
| OutOfFuel.
Arguments Done {A} a.
Arguments Undefined {A}.
Arguments OutOfFuel {A}.

Definition outcome_bind {A B : Type} (f : A → outcome B) (m : outcome A) : outcome B :=
  match m with
  | Done a => f a
  | Undefined => Undefined
  | OutOfFuel => OutOfFuel
  end.

#[global] Instance outcome_mbind : MBind outcome := @outcome_bind.
#[global] Instance outcome_mret : MRet outcome := @Done.

(** An access that C leaves undefined when the option is [None]. *)
Definition must {A : Type} (o : option A) : outcome A :=
  match o with
  | Some a => Done a
  | None => Undefined
  end.

(** ** The structure (ringbuffer.h) *)

Record ringbuffer_t : Type := mk_ringbuffer {
  buffer_size : Z;              (* allocated memory size, in slots *)
  start : Z;                    (* points on first element in buffer *)
  elementCount : Z;             (* elements in ringbuffer *)
  buffer : option (list ptr)
}.

Definition set_buffer (rb : ringbuffer_t) (b : option (list ptr)) : ringbuffer_t :=
  mk_ringbuffer (buffer_size rb) (start rb) (elementCount rb) b.
Definition set_start (rb : ringbuffer_t) (s : Z) : ringbuffer_t :=
  mk_ringbuffer (buffer_size rb) s (elementCount rb) (buffer rb).
Definition set_buffer_size (rb : ringbuffer_t) (n : Z) : ringbuffer_t :=
  mk_ringbuffer n (start rb) (elementCount rb) (buffer rb).
Definition set_elementCount (rb : ringbuffer_t) (n : Z) : ringbuffer_t :=
  mk_ringbuffer (buffer_size rb) (start rb) n (buffer rb).

(** ** The collaborators: allocator and reference counting *)

(** The allocator is an oracle: its [k]-th request either fails ([None]) or
    succeeds, and then [Some junk] gives the indeterminate content [junk i]
    that slot [i] of the block has when the call does not define it.
    [released] logs the calls of [json_decref] and [freed] the calls of
    [jsonp_free], each with its argument, most recent first. *)
Record world : Type := mk_world {
  allocator : nat → option (nat → ptr);
  alloc_calls : nat;
  released : list ptr;
  freed : list (option (list ptr))
}.

Definition tick (w : world) : world :=
  mk_world (allocator w) (S (alloc_calls w)) (released w) (freed w).

(** Modelled from the spec: [json_decref], the element type's single
    operation "release one reference to this element"; the embedding
    records which reference was released. *)
Definition json_decref (p : ptr) (w : world) : world :=
  mk_world (allocator w) (alloc_calls w) (p :: released w) (freed w).

Definition fresh_slots (junk : nat → ptr) (from n : nat) : list ptr :=
  junk <$> seq from n.

(** Modelled from the spec: [jsonp_malloc], the allocator's
    "allocate(n bytes)", which may fail. A block of [bytes / 8] slots of
    indeterminate content. *)
Definition jsonp_malloc (bytes : Z) (w : world) : option (list ptr) * world :=
  match allocator w (alloc_calls w) with
  | None => (None, tick w)
  | Some junk => (Some (fresh_slots junk 0 (Z.to_nat (bytes / PTR_BYTES))), tick w)
  end.

(** Modelled from the spec: [jsonp_realloc], the allocator's
    "reallocate(ptr, old bytes, new bytes)", which may fail and then leaves
    the old block as it is. The content is kept up to the lesser of the old
    and the new size; slots beyond the old block are indeterminate. *)
Definition jsonp_realloc (mem : list ptr) (old_bytes new_bytes : Z) (w : world)
  : option (list ptr) * world :=
  match allocator w (alloc_calls w) with
  | None => (None, tick w)
  | Some junk =>
      let n := Z.to_nat (new_bytes / PTR_BYTES) in
      (Some (take n mem ++ fresh_slots junk (length mem) (n - length mem)), tick w)
  end.

(** Modelled from the spec: [jsonp_free], the allocator's "free(ptr)". The
    block handed over is gone for the caller; the embedding records the
    call with the storage it was given, the null pointer included. *)
Definition jsonp_free (b : option (list ptr)) (w : world) : world :=
  mk_world (allocator w) (alloc_calls w) (released w) (b :: freed w).

(** ** Memory access *)

(** The slot at index [i] of a block, if the block has one. *)
Definition slot (mem : list ptr) (i : Z) : option ptr :=
  if i <? 0 then None else mem !! Z.to_nat i.

(** [mem[i]] read; undefined outside the block. *)
Definition load (mem : list ptr) (i : Z) : outcome ptr := must (slot mem i).

(** [mem[i] = v]; undefined outside the block. *)
Definition store (mem : list ptr) (i : Z) (v : ptr) : outcome (list ptr) :=
  if (0 <=? i) && (i <? Z.of_nat (length mem))
  then Done (<[Z.to_nat i := v]> mem)
  else Undefined.

(** [memmove(mem + dst, mem + src, bytes)]: the [bytes / 8] slots from
    [src] on are copied to [dst] on as if through a temporary; undefined
    when either range leaves the block. *)
Definition memmove (mem : list ptr) (dst src bytes : Z) : outcome (list ptr) :=
  let n := bytes / PTR_BYTES in
  let len := Z.of_nat (length mem) in
  if (0 <=? dst) && (0 <=? src) && (0 <=? n) && (dst + n <=? len) && (src + n <=? len)
  then Done (take (Z.to_nat dst) mem
               ++ take (Z.to_nat n) (drop (Z.to_nat src) mem)
               ++ drop (Z.to_nat (dst + n)) mem)
  else Undefined.

(** [x % buffer_size]; undefined for a zero divisor. *)
Definition umod (x size : Z) : outcome Z :=
  if size =? 0 then Undefined else Done (x mod size).

(** The physical slot of virtual index [index]:
    [(start + index) % buffer_size]. *)
Definition slot_of (rb : ringbuffer_t) (index : Z) : outcome Z :=
  umod (wrap (start rb + index)) (buffer_size rb).

(** ** ringbuffer_init, ringbuffer_get, ringbuffer_set *)

Definition ringbuffer_init : ringbuffer_t := mk_ringbuffer 0 0 0 None.

Definition ringbuffer_get (rb : ringbuffer_t) (index : Z) : outcome ptr :=
  if index >=? elementCount rb then Done NULL
  else
    mem ← must (buffer rb);
    p ← slot_of rb index;
    load mem p.

Definition ringbuffer_set (rb : ringbuffer_t) (index : Z) (value : ptr) (w : world)
  : outcome (Z * ringbuffer_t * world) :=
  if index >=? elementCount rb then Done (-1, rb, w)
  else
    mem ← must (buffer rb);
    j ← slot_of rb index;
    old ← load mem j;
    mem' ← store mem j value;
    Done (0, set_buffer rb (Some mem'), json_decref old w).

(** ** ringbuffer_move *)

(** The [do ... while (count)] loop of the branch [dest < src]. *)
Fixpoint move_up (fuel : nat) (rb : ringbuffer_t) (mem : list ptr)
    (posRead posWrite count : Z) : outcome (list ptr) :=
  match fuel with
  | O => OutOfFuel
  | S fuel' =>
      let endOfBuffer := buffer_size rb in
      let read_count := endOfBuffer - posRead in
      let write_count := endOfBuffer - posWrite in
      let resulting_count := Z.min (Z.min read_count write_count) count in
      mem' ← memmove mem posWrite posRead (wrap (resulting_count * PTR_BYTES));
      let posWrite1 := posWrite + resulting_count in
      let posRead1 := posRead + resulting_count in
      posWrite2 ← (if posWrite1 =? endOfBuffer
                   then umod (start rb) (buffer_size rb) else Done posWrite1);
      posRead2 ← (if posRead1 =? endOfBuffer
                  then umod (start rb) (buffer_size rb) else Done posRead1);
      let count' := wrap (count - resulting_count) in
      if count' =? 0 then Done mem'
      else move_up fuel' rb mem' posRead2 posWrite2 count'
  end.

(** The [do ... while (count)] loop of the branch [dest >= src]. *)
Fixpoint move_down (fuel : nat) (rb : ringbuffer_t) (mem : list ptr)
    (posRead posWrite count : Z) : outcome (list ptr) :=
  match fuel with
  | O => OutOfFuel
  | S fuel' =>
      let startOfBuffer := 0 in
      let read_count := posRead - startOfBuffer in
      let write_count := posWrite - startOfBuffer in
      let resulting_count := Z.min (Z.min read_count write_count) count in
      mem' ← memmove mem posWrite posRead (wrap (resulting_count * PTR_BYTES));
      let posWrite1 := posWrite - resulting_count in
      let posRead1 := posRead - resulting_count in
      posWrite2 ← (if posWrite1 =? startOfBuffer
                   then umod (wrap (wrap (start rb + buffer_size rb) - 1)) (buffer_size rb)
                   else Done posWrite1);
      posRead2 ← (if posRead1 =? startOfBuffer
                  then umod (wrap (wrap (start rb + buffer_size rb) - 1)) (buffer_size rb)
                  else Done posRead1);
      let count' := wrap (count - resulting_count) in
      if count' =? 0 then Done mem'
      else move_down fuel' rb mem' posRead2 posWrite2 count'
  end.

Definition ringbuffer_move (fuel : nat) (rb : ringbuffer_t) (dest src count : Z)
  : outcome ringbuffer_t :=
  mem ← must (buffer rb);
  if dest <? src then
    posRead ← slot_of rb src;
    posWrite ← slot_of rb dest;
    mem' ← move_up fuel rb mem posRead posWrite count;
    Done (set_buffer rb (Some mem'))
  else
    let dest := wrap (dest + wrap (count - 1)) in
    let src := wrap (src + wrap (count - 1)) in
    posRead ← slot_of rb src;
    posWrite ← slot_of rb dest;
    mem' ← move_down fuel rb mem posRead posWrite count;
    Done (set_buffer rb (Some mem')).

(** ** ringbuffer_resize *)

Definition ringbuffer_resize (rb : ringbuffer_t) (newSize : Z) (w : world)
  : outcome (Z * ringbuffer_t * world) :=
  let newSize := if newSize <? RINGBUFFER_MIN_BUFFER_SIZE
                 then RINGBUFFER_MIN_BUFFER_SIZE else newSize in
  match buffer rb with
  | None => (* optimize the initial case *)
      match jsonp_malloc (wrap (newSize * PTR_BYTES)) w with
      | (None, w') => Done (-1, rb, w')
      | (Some mem, w') => Done (0, set_buffer_size (set_buffer rb (Some mem)) newSize, w')
      end
  | Some mem =>
      if newSize <? elementCount rb then Done (-1, rb, w)
      else
        match jsonp_realloc mem (wrap (buffer_size rb * PTR_BYTES))
                (wrap (newSize * PTR_BYTES)) w with
        | (None, w') => Done (-1, rb, w')
        | (Some newBuffer, w') =>
            if start rb >? wrap (buffer_size rb - elementCount rb) then
              (* data is wrapping over *)
              let upperBlockSize := wrap (buffer_size rb - start rb) in
              lowerBlockSize ← umod (wrap (start rb + elementCount rb)) (buffer_size rb);
              if upperBlockSize <? lowerBlockSize then
                (* less to move when moving start and up *)
                mem1 ← memmove newBuffer (newSize - upperBlockSize)
                         (buffer_size rb - upperBlockSize)
                         (wrap (upperBlockSize * PTR_BYTES));
                Done (0, mk_ringbuffer newSize (wrap (newSize - upperBlockSize))
                           (elementCount rb) (Some mem1), w')
              else
                (* less to move when moving end and down *)
                let newSpaceGrowth := wrap (newSize - buffer_size rb) in
                if lowerBlockSize >? newSpaceGrowth then
                  (* to little space at the end of array *)
                  mem1 ← memmove newBuffer (buffer_size rb) 0
                           (wrap (newSpaceGrowth * PTR_BYTES));
                  mem2 ← memmove mem1 0 newSpaceGrowth
                           (wrap (wrap (lowerBlockSize - newSpaceGrowth) * PTR_BYTES));
                  Done (0, mk_ringbuffer newSize (start rb) (elementCount rb) (Some mem2), w')
                else
                  mem1 ← memmove newBuffer (buffer_size rb) 0
                           (wrap (lowerBlockSize * PTR_BYTES));
                  Done (0, mk_ringbuffer newSize (start rb) (elementCount rb) (Some mem1), w')
            else
              Done (0, mk_ringbuffer newSize (start rb) (elementCount rb) (Some newBuffer), w')
        end
  end.

(** ** ringbuffer_insert, ringbuffer_append *)

(** [ringbuffer->buffer[slot] = value]. *)
Definition put (rb : ringbuffer_t) (slot : Z) (value : ptr) : outcome ringbuffer_t :=
  mem ← must (buffer rb);
  mem' ← store mem slot value;
  Done (set_buffer rb (Some mem')).

(** The placement of the new value, the [if ... else if ...] chain of
    [ringbuffer_insert]. *)
Definition insert_place (fuel : nat) (rb : ringbuffer_t) (index : Z) (value : ptr)
  : outcome ringbuffer_t :=
  if index =? elementCount rb then
    p ← slot_of rb (elementCount rb);
    put rb p value
  else if index =? 0 then
    s ← umod (wrap (wrap (start rb + buffer_size rb) - 1)) (buffer_size rb);
    let rb := set_start rb s in
    put rb (start rb) value
  else if index <=? elementCount rb / 2 then
    s ← umod (wrap (wrap (start rb + buffer_size rb) - 1)) (buffer_size rb);
    let rb := set_start rb s in
    rb ← ringbuffer_move fuel rb 0 1 index;
    p ← slot_of rb index;
    put rb p value
  else
    rb ← ringbuffer_move fuel rb (wrap (index + 1)) index
           (wrap (elementCount rb - index));
    p ← slot_of rb index;
    put rb p value.

Definition ringbuffer_insert (fuel : nat) (rb : ringbuffer_t) (index : Z) (value : ptr)
    (w : world) : outcome (Z * ringbuffer_t * world) :=
  if index >? elementCount rb then Done (-1, rb, w)
  else
    '(failed, rb, w) ←
        (if elementCount rb =? buffer_size rb
         then ringbuffer_resize rb (wrap (buffer_size rb * 2)) w
         else Done (0, rb, w));
    if negb (failed =? 0) then Done (-1, rb, w)
    else
      rb ← insert_place fuel rb index value;
      Done (0, set_elementCount rb (wrap (elementCount rb + 1)), w).

Definition ringbuffer_append (fuel : nat) (rb : ringbuffer_t) (value : ptr) (w : world)
  : outcome (Z * ringbuffer_t * world) :=
  ringbuffer_insert fuel rb (elementCount rb) value w.

(** ** ringbuffer_del *)

(** The closing of the gap, the [if ... else if ...] chain of
    [ringbuffer_del]. *)
Definition del_shift (fuel : nat) (rb : ringbuffer_t) (index : Z) : outcome ringbuffer_t :=
  if index =? wrap (elementCount rb - 1) then Done rb
  else if index =? 0 then
    s ← umod (wrap (start rb + 1)) (buffer_size rb);
    Done (set_start rb s)
  else if index <? elementCount rb / 2 then
    rb ← ringbuffer_move fuel rb 1 0 index;
    s ← umod (wrap (start rb + 1)) (buffer_size rb);
    Done (set_start rb s)
  else
    ringbuffer_move fuel rb index (wrap (index + 1)) (wrap (elementCount rb - index)).

Definition ringbuffer_del (fuel : nat) (rb : ringbuffer_t) (index : Z) (w : world)
  : outcome (Z * ringbuffer_t * world) :=
  if index >=? elementCount rb then Done (-1, rb, w)
  else
    mem ← must (buffer rb);
    p ← slot_of rb index;
    victim ← load mem p;
    let w := json_decref victim w in
    rb ← del_shift fuel rb index;
    let rb := set_elementCount rb (wrap (elementCount rb - 1)) in
    if elementCount rb <? buffer_size rb / 8 then
      '(_, rb, w) ← ringbuffer_resize rb (buffer_size rb / 2) w;
      Done (0, rb, w)
    else Done (0, rb, w).

(** ** ringbuffer_clear, ringbuffer_close *)

(** [for (i = 0; i < elementCount; i++) json_decref(ringbuffer_get(rb, i))]:
    the bound is not changed by the body, so the loop is a recursion on the
    number of iterations left. *)
Fixpoint clear_loop (todo : nat) (rb : ringbuffer_t) (i : Z) (w : world) : outcome world :=
  match todo with
  | O => Done w
  | S todo' =>
      v ← ringbuffer_get rb i;
      clear_loop todo' rb (wrap (i + 1)) (json_decref v w)
  end.

Definition ringbuffer_clear (rb : ringbuffer_t) (w : world) : outcome (ringbuffer_t * world) :=
  w ← clear_loop (Z.to_nat (elementCount rb)) rb 0 w;
  let w := jsonp_free (buffer rb) w in
  Done (mk_ringbuffer 0 0 0 None, w).

Definition ringbuffer_close (rb : ringbuffer_t) (w : world) : outcome (ringbuffer_t * world) :=
  ringbuffer_clear rb w.

(** ** ringbuffer_append_ringbuffer *)

(** The two arguments of [ringbuffer_append_ringbuffer] are pointers and
    may name the same structure, so this function works on a store of
    structures addressed by location: what it appends to [ringbuffer] is
    seen through [other] when both are the same location. *)
Definition loc := nat.

(** The first loop:
    [for (i = 0; i < other->elementCount && !error; i++)]. The bound is
    read from the store at every test. *)
Fixpoint append_all (fuel : nat) (h : gmap loc ringbuffer_t) (w : world)
    (ringbuffer other : loc) (i countAdded error : Z)
  : outcome (Z * Z * gmap loc ringbuffer_t * world) :=
  match fuel with
  | O => OutOfFuel
  | S fuel' =>
      src ← must (h !! other);
      if (i <? elementCount src) && (error =? 0) then
        v ← ringbuffer_get src i;
        dst ← must (h !! ringbuffer);
        '(r, dst', w') ← ringbuffer_append fuel' dst v w;
        append_all fuel' (<[ringbuffer := dst']> h) w' ringbuffer other
          (wrap (i + 1)) (wrap (countAdded + 1)) (Z.lor error r)
      else Done (countAdded, error, h, w)
  end.

(** The second loop: [for (i = 0; i < countAdded; i++)], whose bound is a
    local variable that the body does not change. *)
Fixpoint roll_back (todo fuel : nat) (h : gmap loc ringbuffer_t) (w : world)
    (ringbuffer : loc) : outcome (gmap loc ringbuffer_t * world) :=
  match todo with
  | O => Done (h, w)
  | S todo' =>
      dst ← must (h !! ringbuffer);
      '(_, dst', w') ← ringbuffer_del fuel dst (wrap (elementCount dst - 1)) w;
      roll_back todo' fuel (<[ringbuffer := dst']> h) w' ringbuffer
  end.

Definition ringbuffer_append_ringbuffer (fuel : nat) (h : gmap loc ringbuffer_t)
    (w : world) (ringbuffer other : loc)
  : outcome (Z * gmap loc ringbuffer_t * world) :=
  '(countAdded, error, h, w) ← append_all fuel h w ringbuffer other 0 0 0;
  if negb (error =? 0) then
    '(h, w) ← roll_back (Z.to_nat countAdded) fuel h w ringbuffer;
    Done (error, h, w)
  else Done (error, h, w).

(** ** Observations and well-formedness *)

(** The logical contents: [get(0), ..., get(count - 1)]. *)
Definition contents (rb : ringbuffer_t) : list (outcome ptr) :=
  (λ i : nat, ringbuffer_get rb (Z.of_nat i)) <$> seq 0 (Z.to_nat (elementCount rb)).

(** The largest number of slots whose size in bytes is a [size_t]. *)
Definition MAX_SLOTS : Z := 2 ^ 61.

(** The states the structure is meant to be in: either the state of
    [ringbuffer_init], or a block of [buffer_size] slots with the fields in
    range. *)
Definition wf (rb : ringbuffer_t) : Prop :=
  match buffer rb with
  | None => buffer_size rb = 0 ∧ start rb = 0 ∧ elementCount rb = 0
  | Some mem =>
      Z.of_nat (length mem) = buffer_size rb ∧
      RINGBUFFER_MIN_BUFFER_SIZE ≤ buffer_size rb < MAX_SLOTS ∧
      0 ≤ start rb < buffer_size rb ∧
      0 ≤ elementCount rb ≤ buffer_size rb
  end.

(** The invariant of the data model as the specification words it, on the
    three integer fields. *)
Definition data_model_invariant (rb : ringbuffer_t) : Prop :=
  (0 < buffer_size rb → 0 ≤ start rb < buffer_size rb) ∧
  (buffer_size rb = 0 → start rb = 0) ∧
  0 ≤ elementCount rb ≤ buffer_size rb ∧
  (buffer_size rb = 0 ∨ RINGBUFFER_MIN_BUFFER_SIZE ≤ buffer_size rb).

(** The live range crosses the physical end of the storage. *)
Definition wraps (rb : ringbuffer_t) : Prop :=
  buffer_size rb < start rb + elementCount rb.

(** The naive insertion and deletion of the specification: everything
    after the index is shifted by one position. *)
Definition naive_insert {A : Type} (l : list A) (index : nat) (v : A) : list A :=
  take index l ++ v :: drop index l.
Definition naive_del {A : Type} (l : list A) (index : nat) : list A :=
  take index l ++ drop (S index) l.

(** Appending the values of a list one after the other. *)
Fixpoint append_each (fuel : nat) (vs : list ptr) (rb : ringbuffer_t) (w : world)
  : outcome (ringbuffer_t * world) :=
  match vs with
  | [] => Done (rb, w)
  | v :: vs' =>
      '(_, rb', w') ← ringbuffer_append fuel rb v w;
      append_each fuel vs' rb' w'
  end.

(** Deleting the first element [n] times. *)
Fixpoint del_front (fuel n : nat) (rb : ringbuffer_t) (w : world)
  : outcome (ringbuffer_t * world) :=
  match n with
  | O => Done (rb, w)
  | S n' =>
      '(_, rb', w') ← ringbuffer_del fuel rb 0 w;
      del_front fuel n' rb' w'
  end.

(** A queue: every value is appended and the first element deleted. *)
Fixpoint fifo_each (fuel : nat) (vs : list ptr) (rb : ringbuffer_t) (w : world)
  : outcome (ringbuffer_t * world) :=
  match vs with
  | [] => Done (rb, w)
  | v :: vs' =>
      '(_, rb1, w1) ← ringbuffer_append fuel rb v w;
      '(_, rb2, w2) ← ringbuffer_del fuel rb1 0 w1;
      fifo_each fuel vs' rb2 w2
  end.

(** ** Predicates on runs and on the allocator *)

(** The call ran to an end within its fuel. *)
Definition finishes {A : Type} (o : outcome A) : Prop := o ≠ OutOfFuel.

(** The allocator grants every request. *)
Definition grants_all (w : world) : Prop := ∀ k, is_Some (allocator w k).

(** ** Concrete allocators and buffers *)

(** An allocator that grants every request, with null pointers in the
    slots it does not define. *)
Definition granting_world : world := mk_world (λ _, Some (λ _, NULL)) 0 [] [].

(** An allocator that refuses every request. *)
Definition refusing_world : world := mk_world (λ _, None) 0 [] [].

(** An allocator that grants every request and leaves the address
    [1000 + i] in slot [i] where the content is indeterminate. *)
Definition marking_world : world :=
  mk_world (λ _, Some (λ i, 1000 + Z.of_nat i)) 0 [] [].

(** A buffer that holds the single element 7. *)
Definition single : ringbuffer_t :=
  mk_ringbuffer 8 0 1 (Some [7; NULL; NULL; NULL; NULL; NULL; NULL; NULL]).

(** A full buffer of eight elements. *)
Definition full8 : ringbuffer_t := mk_ringbuffer 8 0 8 (Some [1; 2; 3; 4; 5; 6; 7; 8]).

(** Nine appends and seven deletions at the front: capacity 16, the two
    live elements in slots 7 and 8. *)
Definition two_left : ringbuffer_t :=
  mk_ringbuffer 16 7 2
    (Some [1; 2; 3; 4; 5; 6; 7; 8; 9; 1009; 1010; 1011; 1012; 1013; 1014; 1015]).

(** Eight appends and one deletion at the front: capacity 8, the seven
    live elements in slots 1 to 7. *)
Definition seven_from_1 : ringbuffer_t :=
  mk_ringbuffer 8 1 7 (Some [1; 2; 3; 4; 5; 6; 7; 8]).

(** Five and four appends to a fresh buffer. *)
Definition five : ringbuffer_t :=
  mk_ringbuffer 8 0 5 (Some [1; 2; 3; 4; 5; 1005; 1006; 1007]).
Definition four : ringbuffer_t :=
  mk_ringbuffer 8 0 4 (Some [1; 2; 3; 4; 1004; 1005; 1006; 1007]).

(** The buffer of scenario A, whose live range wraps: slots 7, 0, 1, 2. *)
Definition wrapped4 : ringbuffer_t :=
  mk_ringbuffer 8 7 4 (Some [99; 2; 3; 1003; 1004; 1005; 1006; 1]).

(** Nine appends, two deletions at the front and five at the back:
    capacity 16, the two live elements in slots 2 and 3. *)
Definition sparse16 : ringbuffer_t :=
  mk_ringbuffer 16 2 2
    (Some [1; 2; 3; 4; 5; 6; 7; 8; 9; 1009; 1010; 1011; 1012; 1013; 1014; 1015]).

(** Ten appends, ten deletions at the front and eight appends: capacity
    8, [start] 9, the eight live elements in slots 1 to 7 and 0. *)
Definition start9 : ringbuffer_t :=
  mk_ringbuffer 8 9 8 (Some [28; 21; 22; 23; 24; 25; 26; 27]).

(** Seventeen appends, thirteen deletions at the front and eighteen turns
    of a queue: capacity 32, the four live elements in slots 31, 0, 1, 2. *)
Definition queue32 : ringbuffer_t :=
  mk_ringbuffer 32 31 4
    (Some [33; 34; 35; 4; 5; 6; 7; 8; 9; 10; 11; 12; 13; 14; 15; 16;
           17; 18; 19; 20; 21; 22; 23; 24; 25; 26; 27; 28; 29; 30; 31; 32]).

(** ** Arithmetic of [size_t] *)

Lemma wrap_small (x : Z) : 0 ≤ x < SIZE_MODULUS → wrap x = x.
Proof. intros H. unfold wrap. by apply Z.mod_small. Qed.

Lemma SIZE_MODULUS_eq : SIZE_MODULUS = 18446744073709551616.
Proof. reflexivity. Qed.

Lemma MAX_SLOTS_eq : MAX_SLOTS = 2305843009213693952.
Proof. reflexivity. Qed.

(** A value below twice the divisor is reduced by one subtraction. *)
Lemma mod_once (x n : Z) :
  0 < n → 0 ≤ x < 2 * n → x mod n = if x <? n then x else x - n.
Proof.
  intros Hn Hx. destruct (Z.ltb_spec x n).
  - apply Z.mod_small. lia.
  - symmetry. apply (Z.mod_unique x n 1); lia.
Qed.

Lemma bytes_slots (n : Z) :
  0 ≤ n < MAX_SLOTS → wrap (n * PTR_BYTES) / PTR_BYTES = n.
Proof.
  intros H. rewrite wrap_small.
  - unfold PTR_BYTES. by rewrite Z.div_mul.
  - rewrite SIZE_MODULUS_eq. rewrite MAX_SLOTS_eq in H. unfold PTR_BYTES. lia.
Qed.

(** ** The outcome monad *)

Lemma bind_Done {A B : Type} (a : A) (f : A → outcome B) : (Done a ≫= f) = f a.
Proof. reflexivity. Qed.

Lemma bind_Undefined {A B : Type} (f : A → outcome B) : (Undefined ≫= f) = Undefined.
Proof. reflexivity. Qed.

(** ** Blocks of memory *)

Lemma slot_lookup (mem : list ptr) (i : Z) :
  0 ≤ i → slot mem i = mem !! Z.to_nat i.
Proof. intros H. unfold slot. destruct (Z.ltb_spec i 0); [lia | done]. Qed.

Lemma slot_is_Some (mem : list ptr) (i : Z) :
  0 ≤ i < Z.of_nat (length mem) → is_Some (slot mem i).
Proof.
  intros H. rewrite slot_lookup by lia. apply lookup_lt_is_Some. lia.
Qed.

Lemma slot_app_l (mem ext : list ptr) (i : Z) :
  i < Z.of_nat (length mem) → slot (mem ++ ext) i = slot mem i.
Proof.
  intros H. unfold slot. destruct (Z.ltb_spec i 0); [done |].
  apply lookup_app_l. lia.
Qed.

Lemma store_Done (mem : list ptr) (i : Z) (v : ptr) :
  0 ≤ i < Z.of_nat (length mem) → store mem i v = Done (<[Z.to_nat i := v]> mem).
Proof.
  intros H. unfold store.
  destruct (Z.leb_spec 0 i); [| lia]. destruct (Z.ltb_spec i (Z.of_nat (length mem))); [done | lia].
Qed.

Lemma slot_insert (mem : list ptr) (i k : Z) (v : ptr) :
  0 ≤ i < Z.of_nat (length mem) →
  slot (<[Z.to_nat i := v]> mem) k = if k =? i then Some v else slot mem k.
Proof.
  intros H. unfold slot. destruct (Z.ltb_spec k 0).
  - destruct (Z.eqb_spec k i); [lia | done].
  - destruct (Z.eqb_spec k i) as [-> | Hne].
    + apply list_lookup_insert_eq. lia.
    + apply list_lookup_insert_ne. lia.
Qed.

(** What [memmove] leaves in every slot. *)
Lemma memmove_spec (mem : list ptr) (dst src n : Z) :
  0 ≤ dst → 0 ≤ src → 0 ≤ n < MAX_SLOTS →
  dst + n ≤ Z.of_nat (length mem) → src + n ≤ Z.of_nat (length mem) →
  ∃ mem', memmove mem dst src (wrap (n * PTR_BYTES)) = Done mem' ∧
          length mem' = length mem ∧
          ∀ k, slot mem' k =
               if (dst <=? k) && (k <? dst + n) then slot mem (src + (k - dst))
               else slot mem k.
Proof.
  intros Hd Hs Hn Hdn Hsn. unfold memmove. rewrite bytes_slots by done.
  repeat match goal with
         | |- context [?a <=? ?b] =>
             lazymatch goal with
             | |- context [if (a <=? b) && _ then _ else _] => fail
             | _ => idtac
             end;
             destruct (Z.leb_spec a b); [| lia]
         end.
  eexists. split; [reflexivity |].
  assert (Hlen : length (take (Z.to_nat dst) mem
                   ++ take (Z.to_nat n) (drop (Z.to_nat src) mem)
                   ++ drop (Z.to_nat (dst + n)) mem) = length mem).
  { rewrite !length_app, !length_take, !length_drop. lia. }
  split; [exact Hlen |].
  intros k. unfold slot. destruct (Z.ltb_spec k 0).
  { destruct (Z.leb_spec dst k); [lia |]. simpl. done. }
  destruct (Z.leb_spec dst k); simpl.
  - destruct (Z.ltb_spec k (dst + n)).
    + destruct (Z.ltb_spec (src + (k - dst)) 0); [lia |].
      rewrite lookup_app_r by (rewrite length_take; lia).
      rewrite length_take.
      rewrite lookup_app_l by (rewrite length_take, length_drop; lia).
      rewrite lookup_take_lt by lia. rewrite lookup_drop. f_equal. lia.
    + rewrite lookup_app_r by (rewrite length_take; lia).
      rewrite length_take.
      rewrite lookup_app_r by (rewrite length_take, length_drop; lia).
      rewrite length_take, length_drop. rewrite lookup_drop. f_equal. lia.
  - rewrite lookup_app_l by (rewrite length_take; lia).
    rewrite lookup_take_lt by lia. done.
Qed.

(** ** Well-formed buffers *)

Lemma wf_Some (rb : ringbuffer_t) (mem : list ptr) :
  wf rb → buffer rb = Some mem →
  Z.of_nat (length mem) = buffer_size rb ∧
  8 ≤ buffer_size rb < MAX_SLOTS ∧
  0 ≤ start rb < buffer_size rb ∧
  0 ≤ elementCount rb ≤ buffer_size rb.
Proof. unfold wf. intros H E. rewrite E in H. exact H. Qed.

Lemma umod_Done (x size : Z) : size ≠ 0 → umod x size = Done (x mod size).
Proof. intros H. unfold umod. destruct (Z.eqb_spec size 0); [done | done]. Qed.

Lemma slot_of_Done (rb : ringbuffer_t) (i : Z) :
  0 < buffer_size rb → 0 ≤ start rb + i < SIZE_MODULUS →
  slot_of rb i = Done ((start rb + i) mod buffer_size rb).
Proof.
  intros Hs Hr. unfold slot_of. rewrite wrap_small by done. apply umod_Done. lia.
Qed.

Lemma get_wf (rb : ringbuffer_t) (mem : list ptr) (i : Z) :
  wf rb → buffer rb = Some mem → 0 ≤ i < elementCount rb →
  ringbuffer_get rb i = load mem ((start rb + i) mod buffer_size rb).
Proof.
  intros Hwf Hb Hi. destruct (wf_Some _ _ Hwf Hb) as (Hlen & Hsz & Hst & Hc).
  unfold ringbuffer_get. destruct (Z.geb_spec i (elementCount rb)); [lia |].
  rewrite Hb. simpl. rewrite slot_of_Done.
  - done.
  - lia.
  - rewrite SIZE_MODULUS_eq. rewrite MAX_SLOTS_eq in Hsz. lia.
Qed.

(** ** Growing *)

Lemma length_fresh_slots junk from n : length (fresh_slots junk from n) = n.
Proof. unfold fresh_slots. by rewrite length_fmap, length_seq. Qed.

Lemma realloc_grow (mem : list ptr) (old n : Z) (w : world) (junk : nat → ptr) :
  allocator w (alloc_calls w) = Some junk →
  Z.of_nat (length mem) ≤ n < MAX_SLOTS →
  ∃ ext, jsonp_realloc mem old (wrap (n * PTR_BYTES)) w = (Some (mem ++ ext), tick w) ∧
         Z.of_nat (length (mem ++ ext)) = n.
Proof.
  intros Ha Hn. unfold jsonp_realloc. rewrite Ha, bytes_slots by lia.
  rewrite take_ge by lia. eexists. split; [reflexivity |].
  rewrite length_app, length_fresh_slots. lia.
Qed.

Ltac zcases :=
  repeat match goal with
         | |- context [?a <? ?b] => destruct (Z.ltb_spec a b)
         | |- context [?a <=? ?b] => destruct (Z.leb_spec a b)
         | |- context [?a >? ?b] => rewrite (Z.gtb_ltb a b)
         | |- context [?a >=? ?b] => rewrite (Z.geb_leb a b)
         | |- context [?a =? ?b] => destruct (Z.eqb_spec a b)
         end.

Lemma resize_grow (rb : ringbuffer_t) (mem : list ptr) (newSize : Z) (w : world)
    (junk : nat → ptr) :
  wf rb → buffer rb = Some mem → buffer_size rb ≤ newSize < MAX_SLOTS →
  allocator w (alloc_calls w) = Some junk →
  ∃ rb', ringbuffer_resize rb newSize w = Done (0, rb', tick w) ∧
         wf rb' ∧ buffer_size rb' = newSize ∧ elementCount rb' = elementCount rb ∧
         (¬ wraps rb → start rb' = start rb) ∧
         (∀ i, 0 ≤ i < elementCount rb → ringbuffer_get rb' i = ringbuffer_get rb i).
Proof.
  intros Hwf Hb Hnew Ha.
  destruct (wf_Some _ _ Hwf Hb) as (Hlen & Hsz & Hst & Hc).
  pose proof SIZE_MODULUS_eq as HM. pose proof MAX_SLOTS_eq as HS.
  unfold RINGBUFFER_MIN_BUFFER_SIZE in *.
  destruct (realloc_grow mem (wrap (buffer_size rb * PTR_BYTES)) newSize w junk Ha)
    as (ext & Hre & Hlen'); [lia |].
  unfold ringbuffer_resize, RINGBUFFER_MIN_BUFFER_SIZE.
  destruct (Z.ltb_spec newSize 8); [lia |].
  rewrite Hb. destruct (Z.ltb_spec newSize (elementCount rb)); [lia |].
  rewrite Hre. rewrite (wrap_small (buffer_size rb - elementCount rb)) by lia.
  rewrite Z.gtb_ltb.
  destruct (Z.ltb_spec (buffer_size rb - elementCount rb) (start rb)) as [Hw | Hw].
  - (* data is wrapping over *)
    rewrite (wrap_small (buffer_size rb - start rb)) by lia.
    rewrite (wrap_small (start rb + elementCount rb)) by lia.
    rewrite umod_Done by lia. rewrite bind_Done.
    rewrite (mod_once (start rb + elementCount rb)) by lia.
    destruct (Z.ltb_spec (start rb + elementCount rb) (buffer_size rb)); [lia |].
    destruct (Z.ltb_spec (buffer_size rb - start rb)
                (start rb + elementCount rb - buffer_size rb)) as [Hul | Hul].
    + (* the upper block moves to the end of the new block *)
      destruct (memmove_spec (mem ++ ext) (newSize - (buffer_size rb - start rb))
                  (buffer_size rb - (buffer_size rb - start rb)) (buffer_size rb - start rb))
        as (mem1 & Hmv & Hl1 & Hslots); try lia.
      rewrite Hmv, bind_Done. rewrite (wrap_small (newSize - _)) by lia.
      eexists. split; [reflexivity |].
      split; [| split; [done | split; [done | split]]].
      * unfold wf. simpl. unfold RINGBUFFER_MIN_BUFFER_SIZE. lia.
      * unfold wraps. lia.
      * intros i Hi. rewrite (get_wf rb mem) by done.
        erewrite get_wf; [| | simpl; reflexivity | simpl; lia].
        2:{ unfold wf. simpl. unfold RINGBUFFER_MIN_BUFFER_SIZE. lia. }
        simpl. unfold load. f_equal. rewrite Hslots.
        rewrite !mod_once by lia.
        zcases; simpl; try lia; rewrite slot_app_l by lia; f_equal; lia.
    + (* the lower block moves behind the old end *)
      rewrite (wrap_small (newSize - buffer_size rb)) by lia.
      rewrite Z.gtb_ltb.
      destruct (Z.ltb_spec (newSize - buffer_size rb)
                  (start rb + elementCount rb - buffer_size rb)) as [Hg | Hg].
      * destruct (memmove_spec (mem ++ ext) (buffer_size rb) 0 (newSize - buffer_size rb))
          as (mem1 & Hmv & Hl1 & Hslots1); try lia.
        rewrite Hmv, bind_Done.
        rewrite (wrap_small (_ - (newSize - buffer_size rb))) by lia.
        destruct (memmove_spec mem1 0 (newSize - buffer_size rb)
                    (start rb + elementCount rb - buffer_size rb - (newSize - buffer_size rb)))
          as (mem2 & Hmv2 & Hl2 & Hslots2); try lia.
        rewrite Hmv2, bind_Done.
        eexists. split; [reflexivity |].
        split; [| split; [done | split; [done | split; [done |]]]].
        { unfold wf. simpl. unfold RINGBUFFER_MIN_BUFFER_SIZE. lia. }
        intros i Hi. rewrite (get_wf rb mem) by done.
        erewrite get_wf; [| | simpl; reflexivity | simpl; lia].
        2:{ unfold wf. simpl. unfold RINGBUFFER_MIN_BUFFER_SIZE. lia. }
        simpl. unfold load. f_equal. rewrite Hslots2, !Hslots1.
        rewrite !mod_once by lia.
        zcases; simpl; try lia; rewrite slot_app_l by lia; f_equal; lia.
      * destruct (memmove_spec (mem ++ ext) (buffer_size rb) 0
                    (start rb + elementCount rb - buffer_size rb))
          as (mem1 & Hmv & Hl1 & Hslots1); try lia.
        rewrite Hmv, bind_Done.
        eexists. split; [reflexivity |].
        split; [| split; [done | split; [done | split; [done |]]]].
        { unfold wf. simpl. unfold RINGBUFFER_MIN_BUFFER_SIZE. lia. }
        intros i Hi. rewrite (get_wf rb mem) by done.
        erewrite get_wf; [| | simpl; reflexivity | simpl; lia].
        2:{ unfold wf. simpl. unfold RINGBUFFER_MIN_BUFFER_SIZE. lia. }
        simpl. unfold load. f_equal. rewrite Hslots1.
        rewrite !mod_once by lia.
        zcases; simpl; try lia; rewrite slot_app_l by lia; f_equal; lia.
  - (* the live range is in one piece *)
    eexists. split; [reflexivity |].
    split; [| split; [done | split; [done | split; [done |]]]].
    { unfold wf. simpl. unfold RINGBUFFER_MIN_BUFFER_SIZE. lia. }
    intros i Hi. rewrite (get_wf rb mem) by done.
    erewrite get_wf; [| | simpl; reflexivity | simpl; lia].
    2:{ unfold wf. simpl. unfold RINGBUFFER_MIN_BUFFER_SIZE. lia. }
    simpl. unfold load. f_equal.
    rewrite !mod_once by lia.
    zcases; simpl; try lia; rewrite slot_app_l by lia; f_equal; lia.
Qed.

(** ** Appending *)

(** Placing a value behind the last element of a buffer that has room. *)
Lemma insert_place_tail (fuel : nat) (rb : ringbuffer_t) (mem : list ptr) (v : ptr) :
  wf rb → buffer rb = Some mem → elementCount rb < buffer_size rb →
  ∃ rb', insert_place fuel rb (elementCount rb) v = Done rb' ∧
         wf (set_elementCount rb' (elementCount rb' + 1)) ∧
         buffer_size rb' = buffer_size rb ∧ start rb' = start rb ∧
         elementCount rb' = elementCount rb ∧
         ringbuffer_get (set_elementCount rb' (elementCount rb' + 1)) (elementCount rb) = Done v ∧
         (∀ i, 0 ≤ i < elementCount rb →
               ringbuffer_get (set_elementCount rb' (elementCount rb' + 1)) i
               = ringbuffer_get rb i).
Proof.
  intros Hwf Hb Hroom.
  destruct (wf_Some _ _ Hwf Hb) as (Hlen & Hsz & Hst & Hc).
  pose proof SIZE_MODULUS_eq as HM. pose proof MAX_SLOTS_eq as HS.
  unfold RINGBUFFER_MIN_BUFFER_SIZE in *.
  unfold insert_place. rewrite Z.eqb_refl.
  rewrite slot_of_Done by lia. rewrite bind_Done.
  unfold put. rewrite Hb. simpl.
  assert (Hp : 0 ≤ (start rb + elementCount rb) mod buffer_size rb < Z.of_nat (length mem)).
  { rewrite Hlen. apply Z.mod_pos_bound. lia. }
  rewrite store_Done by done. rewrite bind_Done.
  eexists. split; [reflexivity |].
  assert (Hwf' : wf (set_elementCount (set_buffer rb
             (Some (<[Z.to_nat ((start rb + elementCount rb) mod buffer_size rb):=v]> mem)))
             (elementCount rb + 1))).
  { unfold wf. simpl. rewrite length_insert. unfold RINGBUFFER_MIN_BUFFER_SIZE. lia. }
  split; [exact Hwf' |]. simpl.
  split; [done | split; [done | split; [done | split]]].
  - erewrite get_wf; [| exact Hwf' | simpl; reflexivity | simpl; lia].
    simpl. unfold load. rewrite slot_insert by done. by rewrite Z.eqb_refl.
  - intros i Hi.
    erewrite get_wf; [| exact Hwf' | simpl; reflexivity | simpl; lia].
    rewrite (get_wf rb mem) by done.
    simpl. unfold load. rewrite slot_insert by done.
    destruct (Z.eqb_spec ((start rb + i) mod buffer_size rb)
                ((start rb + elementCount rb) mod buffer_size rb)) as [E | E]; [| done].
    exfalso. revert E. rewrite !mod_once by lia. zcases; lia.
Qed.

(** Appending to a well-formed buffer succeeds whenever the allocator
    grants the growth that a full buffer needs. *)
Lemma append_ok (fuel : nat) (rb : ringbuffer_t) (v : ptr) (w : world) :
  wf rb → 2 * elementCount rb < MAX_SLOTS →
  (elementCount rb = buffer_size rb → is_Some (allocator w (alloc_calls w))) →
  ∃ rb' w', ringbuffer_append fuel rb v w = Done (0, rb', w') ∧
            wf rb' ∧ is_Some (buffer rb') ∧
            elementCount rb' = elementCount rb + 1 ∧
            buffer_size rb' =
              (if elementCount rb =? buffer_size rb
               then Z.max RINGBUFFER_MIN_BUFFER_SIZE (2 * buffer_size rb)
               else buffer_size rb) ∧
            (¬ wraps rb → start rb' = start rb) ∧
            allocator w' = allocator w ∧ released w' = released w ∧
            ringbuffer_get rb' (elementCount rb) = Done v ∧
            (∀ i, 0 ≤ i < elementCount rb → ringbuffer_get rb' i = ringbuffer_get rb i).
Proof.
  intros Hwf Hcount Halloc.
  pose proof SIZE_MODULUS_eq as HM. pose proof MAX_SLOTS_eq as HS.
  unfold ringbuffer_append, ringbuffer_insert.
  rewrite Z.gtb_ltb, Z.ltb_irrefl.
  destruct (Z.eqb_spec (elementCount rb) (buffer_size rb)) as [Hfull | Hroom].
  - destruct (Halloc Hfull) as [junk Hjunk].
    destruct (buffer rb) as [mem |] eqn:Hb.
    + (* a full block doubles *)
      destruct (wf_Some _ _ Hwf Hb) as (Hlen & Hsz & Hst & Hc).
      unfold RINGBUFFER_MIN_BUFFER_SIZE in *.
      rewrite (wrap_small (buffer_size rb * 2)) by lia.
      destruct (resize_grow rb mem (buffer_size rb * 2) w junk Hwf Hb)
        as (rb1 & Hre & Hwf1 & Hsz1 & Hc1 & Hst1 & Hget1); [lia | done |].
      rewrite Hre, bind_Done. simpl.
      assert (is_Some (buffer rb1)) as [mem1 Hb1].
      { revert Hwf1. unfold wf. destruct (buffer rb1); [eauto | lia]. }
      rewrite <- Hc1.
      destruct (insert_place_tail fuel rb1 mem1 v Hwf1 Hb1)
        as (rb2 & Hpl & Hwf2 & Hsz2 & Hst2 & Hc2 & Hgv & Hgo); [lia |].
      rewrite Hpl, bind_Done.
      rewrite (wrap_small (elementCount rb2 + 1)) by lia.
      eexists _, _. split; [reflexivity |].
      split; [exact Hwf2 |]. simpl.
      split. { revert Hpl. unfold insert_place. rewrite Z.eqb_refl.
               rewrite slot_of_Done by (destruct (wf_Some _ _ Hwf1 Hb1); lia).
               rewrite bind_Done. unfold put. rewrite Hb1. simpl.
               destruct (store _ _ _); simpl; [| done | done].
               intros [= <-]. simpl. eauto. }
      split; [lia |]. split; [lia |]. split; [intros; rewrite Hst2; auto |].
      split; [done |]. split; [done |]. split; [done |].
      intros i Hi. rewrite Hgo by lia. apply Hget1. lia.
    + (* the first allocation *)
      unfold wf in Hwf. rewrite Hb in Hwf. destruct Hwf as (Hsz & Hst & Hc).
      rewrite Hsz. simpl (wrap (0 * 2)).
      unfold ringbuffer_resize. rewrite Hb. simpl (if _ <? _ then _ else _).
      unfold jsonp_malloc. rewrite Hjunk. rewrite bind_Done. simpl negb. cbv iota.
      set (mem1 := fresh_slots junk 0 _).
      set (rb1 := set_buffer_size (set_buffer rb (Some mem1)) _).
      assert (Hwf1 : wf rb1).
      { unfold wf, rb1. simpl. rewrite Hst, Hc. vm_compute. intuition congruence. }
      assert (Hc1 : elementCount rb1 = elementCount rb) by done.
      rewrite <- Hc1.
      destruct (insert_place_tail fuel rb1 mem1 v Hwf1)
        as (rb2 & Hpl & Hwf2 & Hsz2 & Hst2 & Hc2 & Hgv & Hgo); [reflexivity | |].
      { unfold rb1. simpl. rewrite Hc. unfold RINGBUFFER_MIN_BUFFER_SIZE. lia. }
      rewrite Hpl, bind_Done.
      rewrite (wrap_small (elementCount rb2 + 1)) by (rewrite Hc2, Hc1; lia).
      eexists _, _. split; [reflexivity |].
      split; [exact Hwf2 |]. simpl.
      split. { revert Hpl. unfold insert_place. rewrite Z.eqb_refl.
               unfold slot_of, umod, put. simpl.
               destruct (store _ _ _); simpl; [| done | done].
               intros [= <-]. simpl. eauto. }
      split; [lia |]. split. { rewrite Hsz2. unfold rb1. simpl. done. }
      split; [intros; rewrite Hst2; done |].
      split; [done |]. split; [done |]. split; [by rewrite <- Hc1 |].
      intros i Hi. lia.
  - (* there is room *)
    rewrite bind_Done. simpl negb. cbv iota.
    destruct (buffer rb) as [mem |] eqn:Hb.
    2:{ unfold wf in Hwf. rewrite Hb in Hwf. lia. }
    destruct (wf_Some _ _ Hwf Hb) as (Hlen & Hsz & Hst & Hc).
    destruct (insert_place_tail fuel rb mem v Hwf Hb)
      as (rb2 & Hpl & Hwf2 & Hsz2 & Hst2 & Hc2 & Hgv & Hgo); [lia |].
    rewrite Hpl, bind_Done.
    rewrite (wrap_small (elementCount rb2 + 1)) by lia.
    eexists _, _. split; [reflexivity |].
    split; [exact Hwf2 |]. simpl.
    split. { revert Hpl. unfold insert_place. rewrite Z.eqb_refl.
             rewrite slot_of_Done by lia.
             rewrite bind_Done. unfold put. rewrite Hb. simpl.
             destruct (store _ _ _); simpl; [| done | done].
             intros [= <-]. simpl. eauto. }
    split; [lia |]. split; [done |]. split; [done |].
    split; [done |]. split; [done |]. split; [done |]. done.
Qed.

(** ** Inversion of runs *)

Lemma bind_Done_inv {A B : Type} (m : outcome A) (f : A → outcome B) (b : B) :
  (m ≫= f) = Done b → ∃ a, m = Done a ∧ f a = Done b.
Proof. destruct m; simpl; intros H; [eauto | done | done]. Qed.

Lemma must_Done_inv {A : Type} (o : option A) (a : A) : must o = Done a → o = Some a.
Proof. destruct o; simpl; congruence. Qed.

(** ** The fields that the helpers leave alone *)

Lemma move_fields (fuel : nat) (rb rb' : ringbuffer_t) (dest src count : Z) :
  ringbuffer_move fuel rb dest src count = Done rb' →
  ∃ mem', rb' = set_buffer rb (Some mem').
Proof.
  unfold ringbuffer_move. intros H.
  apply bind_Done_inv in H as (mem & _ & H).
  destruct (dest <? src);
    apply bind_Done_inv in H as (pr & _ & H);
    apply bind_Done_inv in H as (pw & _ & H);
    apply bind_Done_inv in H as (mem' & _ & H);
    injection H as <-; eauto.
Qed.

Lemma put_fields (rb rb' : ringbuffer_t) (p : Z) (v : ptr) :
  put rb p v = Done rb' → ∃ mem', rb' = set_buffer rb (Some mem').
Proof.
  unfold put. intros H.
  apply bind_Done_inv in H as (mem & _ & H).
  apply bind_Done_inv in H as (mem' & _ & H).
  injection H as <-; eauto.
Qed.

Lemma insert_place_fields (fuel : nat) (rb rb' : ringbuffer_t) (index : Z) (v : ptr) :
  insert_place fuel rb index v = Done rb' →
  buffer_size rb' = buffer_size rb ∧ elementCount rb' = elementCount rb.
Proof.
  unfold insert_place. intros H.
  destruct (index =? elementCount rb).
  { apply bind_Done_inv in H as (p & _ & H).
    apply put_fields in H as (m & ->). done. }
  destruct (index =? 0).
  { apply bind_Done_inv in H as (s & _ & H).
    apply put_fields in H as (m & ->). done. }
  destruct (index <=? elementCount rb / 2).
  { apply bind_Done_inv in H as (s & _ & H).
    apply bind_Done_inv in H as (rb1 & Hmv & H).
    apply move_fields in Hmv as (m1 & ->).
    apply bind_Done_inv in H as (p & _ & H).
    apply put_fields in H as (m & ->). done. }
  apply bind_Done_inv in H as (rb1 & Hmv & H).
  apply move_fields in Hmv as (m1 & ->).
  apply bind_Done_inv in H as (p & _ & H).
  apply put_fields in H as (m & ->). done.
Qed.

Lemma del_shift_fields (fuel : nat) (rb rb' : ringbuffer_t) (index : Z) :
  del_shift fuel rb index = Done rb' →
  buffer_size rb' = buffer_size rb ∧ elementCount rb' = elementCount rb ∧
  (is_Some (buffer rb) → is_Some (buffer rb')).
Proof.
  unfold del_shift. intros H.
  destruct (index =? wrap (elementCount rb - 1)).
  { injection H as <-. done. }
  destruct (index =? 0).
  { apply bind_Done_inv in H as (s & _ & H). injection H as <-. done. }
  destruct (index <? elementCount rb / 2).
  { apply bind_Done_inv in H as (rb1 & Hmv & H).
    apply move_fields in Hmv as (m1 & ->).
    apply bind_Done_inv in H as (s & _ & H). injection H as <-. simpl. eauto. }
  apply move_fields in H as (m1 & ->). simpl. eauto.
Qed.

(** A resize either fails and leaves the structure as it is, or sets the
    capacity to the requested one, clamped to the minimum. *)
Lemma resize_fields (rb rb' : ringbuffer_t) (newSize r : Z) (w w' : world) :
  ringbuffer_resize rb newSize w = Done (r, rb', w') →
  (r = -1 ∧ rb' = rb) ∨
  (r = 0 ∧ buffer_size rb' = Z.max RINGBUFFER_MIN_BUFFER_SIZE newSize ∧
   elementCount rb' = elementCount rb ∧ is_Some (buffer rb')).
Proof.
  unfold ringbuffer_resize.
  assert (Hclamp : (if newSize <? RINGBUFFER_MIN_BUFFER_SIZE
                    then RINGBUFFER_MIN_BUFFER_SIZE else newSize)
                   = Z.max RINGBUFFER_MIN_BUFFER_SIZE newSize).
  { destruct (Z.ltb_spec newSize RINGBUFFER_MIN_BUFFER_SIZE); lia. }
  rewrite Hclamp. clear Hclamp. set (n := Z.max _ _).
  intros H. destruct (buffer rb) as [mem |] eqn:Hb.
  - destruct (n <? elementCount rb).
    { injection H as <- <- <-. by left. }
    destruct (jsonp_realloc _ _ _ _) as [[newBuffer |] w1].
    2:{ injection H as <- <- <-. by left. }
    right.
    destruct (start rb >? _).
    2:{ injection H as <- <- <-. simpl. eauto. }
    apply bind_Done_inv in H as (lower & _ & H).
    destruct (_ <? lower).
    { apply bind_Done_inv in H as (m1 & _ & H). injection H as <- <- <-. simpl. eauto. }
    destruct (lower >? _).
    + apply bind_Done_inv in H as (m1 & _ & H).
      apply bind_Done_inv in H as (m2 & _ & H). injection H as <- <- <-. simpl. eauto.
    + apply bind_Done_inv in H as (m1 & _ & H). injection H as <- <- <-. simpl. eauto.
  - destruct (jsonp_malloc _ _) as [[mem |] w1].
    + injection H as <- <- <-. right. simpl. eauto.
    + injection H as <- <- <-. by left.
Qed.

(** With a granted allocation and a capacity that holds the live elements a
    resize of an allocated buffer does not report failure. *)
Lemma resize_granted (rb rb' : ringbuffer_t) (newSize r : Z) (w w' : world) :
  is_Some (buffer rb) → is_Some (allocator w (alloc_calls w)) →
  elementCount rb ≤ Z.max RINGBUFFER_MIN_BUFFER_SIZE newSize →
  ringbuffer_resize rb newSize w = Done (r, rb', w') → r = 0.
Proof.
  intros [mem Hb] [junk Hj] Hfit H.
  destruct (resize_fields _ _ _ _ _ _ H) as [[-> ->] | [-> _]]; [| done].
  exfalso. revert H. unfold ringbuffer_resize. rewrite Hb.
  assert (Hclamp : (if newSize <? RINGBUFFER_MIN_BUFFER_SIZE
                    then RINGBUFFER_MIN_BUFFER_SIZE else newSize)
                   = Z.max RINGBUFFER_MIN_BUFFER_SIZE newSize).
  { destruct (Z.ltb_spec newSize RINGBUFFER_MIN_BUFFER_SIZE); lia. }
  rewrite Hclamp. clear Hclamp.
  destruct (Z.ltb_spec (Z.max RINGBUFFER_MIN_BUFFER_SIZE newSize) (elementCount rb)); [lia |].
  unfold jsonp_realloc. rewrite Hj.
  destruct (start rb >? _).
  2:{ intros [=]. }
  destruct (umod _ _); simpl; [| done | done].
  destruct (_ <? a).
  { destruct (memmove _ _ _ _); simpl; [intros [=] | done | done]. }
  destruct (a >? _).
  - destruct (memmove _ _ _ _); simpl; [| done | done].
    destruct (memmove _ _ _ _); simpl; [intros [=] | done | done].
  - destruct (memmove _ _ _ _); simpl; [intros [=] | done | done].
Qed.

Lemma wf_capacity (rb : ringbuffer_t) :
  wf rb →
  (buffer rb = None ∧ buffer_size rb = 0 ∧ elementCount rb = 0) ∨
  (is_Some (buffer rb) ∧ RINGBUFFER_MIN_BUFFER_SIZE ≤ buffer_size rb < MAX_SLOTS ∧
   0 ≤ start rb < buffer_size rb ∧ 0 ≤ elementCount rb ≤ buffer_size rb).
Proof.
  unfold wf. destruct (buffer rb); intros H; [right | left]; intuition eauto.
Qed.

(** What a deletion that is not refused does, step by step. *)
Lemma del_Done_inv (fuel : nat) (rb rb' : ringbuffer_t) (index r : Z) (w w' : world) :
  index < elementCount rb →
  ringbuffer_del fuel rb index w = Done (r, rb', w') →
  ∃ victim rb1,
    is_Some (buffer rb) ∧
    del_shift fuel rb index = Done rb1 ∧
    r = 0 ∧
    let rb2 := set_elementCount rb1 (wrap (elementCount rb1 - 1)) in
    let w2 := json_decref victim w in
    if elementCount rb2 <? buffer_size rb2 / 8
    then ∃ r', ringbuffer_resize rb2 (buffer_size rb2 / 2) w2 = Done (r', rb', w')
    else rb' = rb2 ∧ w' = w2.
Proof.
  intros Hlt. unfold ringbuffer_del.
  destruct (Z.geb_spec index (elementCount rb)) as [Hx | Hx]; [lia |]. intros H.
  apply bind_Done_inv in H as (mem & Hmem & H). apply must_Done_inv in Hmem.
  apply bind_Done_inv in H as (p & _ & H).
  apply bind_Done_inv in H as (victim & _ & H).
  apply bind_Done_inv in H as (rb1 & Hshift & H).
  exists victim, rb1. split; [eauto |]. split; [done |].
  cbv zeta in *.
  destruct (_ <? _).
  - apply bind_Done_inv in H as ([[r' rb3] w3] & Hre & H).
    injection H as <- <- <-. eauto.
  - injection H as <- <- <-. done.
Qed.

Lemma get_Done (rb : ringbuffer_t) (i : Z) :
  wf rb → 0 ≤ i < elementCount rb → ∃ v, ringbuffer_get rb i = Done v.
Proof.
  intros Hwf Hi.
  destruct (buffer rb) as [mem |] eqn:Hb.
  2:{ unfold wf in Hwf. rewrite Hb in Hwf. lia. }
  destruct (wf_Some _ _ Hwf Hb) as (Hlen & Hsz & Hst & Hc).
  unfold RINGBUFFER_MIN_BUFFER_SIZE in *.
  rewrite (get_wf rb mem) by done. unfold load.
  destruct (slot_is_Some mem ((start rb + i) mod buffer_size rb)) as [v Hv].
  - rewrite Hlen. apply Z.mod_pos_bound. lia.
  - rewrite Hv. eauto.
Qed.

(** One turn of the first loop when both arguments name the same
    structure: the append succeeds and the bound moves with the counter. *)
Lemma append_all_self_step (fuel : nat) (h : gmap loc ringbuffer_t) (w : world)
    (p : loc) (rb : ringbuffer_t) (i countAdded : Z) :
  h !! p = Some rb → wf rb → grants_all w →
  0 ≤ i < elementCount rb → 2 * elementCount rb < MAX_SLOTS →
  ∃ rb' w',
    append_all (S fuel) h w p p i countAdded 0
    = append_all fuel (<[p := rb']> h) w' p p (i + 1) (wrap (countAdded + 1)) 0 ∧
    wf rb' ∧ grants_all w' ∧ elementCount rb' = elementCount rb + 1 ∧
    buffer_size rb' = (if elementCount rb =? buffer_size rb
                       then Z.max RINGBUFFER_MIN_BUFFER_SIZE (2 * buffer_size rb)
                       else buffer_size rb) ∧
    (¬ wraps rb → start rb' = start rb).
Proof.
  intros Hp Hwf Hall Hi Hmax.
  pose proof SIZE_MODULUS_eq as HM. pose proof MAX_SLOTS_eq as HS.
  destruct (get_Done rb i Hwf Hi) as [v Hv].
  destruct (append_ok fuel rb v w Hwf Hmax) as
    (rb' & w' & Happ & Hwf' & _ & Hc' & Hsz' & Hst' & Ha' & _); [intros; apply Hall |].
  exists rb', w'. split; [| split; [done | split; [| done]]].
  - simpl. rewrite Hp. simpl.
    destruct (Z.ltb_spec i (elementCount rb)); [| lia]. simpl.
    rewrite Hv. simpl. rewrite Happ. simpl.
    rewrite (wrap_small (i + 1)) by lia. done.
  - intros k. rewrite Ha'. apply Hall.
Qed.

(** With the same structure as both arguments the loop is still running
    after any number of turns that the arithmetic can count. *)
Lemma append_all_self_runs (n : nat) :
  ∀ (h : gmap loc ringbuffer_t) (w : world) (p : loc) (rb : ringbuffer_t) (i countAdded : Z),
    h !! p = Some rb → wf rb → grants_all w →
    0 ≤ i < elementCount rb → 2 * (elementCount rb + Z.of_nat n) ≤ MAX_SLOTS →
    append_all n h w p p i countAdded 0 = OutOfFuel.
Proof.
  induction n as [| n IH]; intros h w p rb i countAdded Hp Hwf Hall Hi Hmax; [done |].
  destruct (append_all_self_step n h w p rb i countAdded Hp Hwf Hall Hi)
    as (rb' & w' & Hstep & Hwf' & Hall' & Hc' & _); [lia |].
  rewrite Hstep. apply (IH _ _ _ rb'); try done.
  - apply lookup_insert_eq.
  - lia.
  - lia.
Qed.

(** ** The overflow of the byte count *)

Lemma store_outside (mem : list ptr) (i : Z) (v : ptr) :
  Z.of_nat (length mem) ≤ i → store mem i v = Undefined.
Proof.
  intros H. unfold store.
  destruct (Z.ltb_spec i (Z.of_nat (length mem))); [lia |].
  by rewrite andb_false_r.
Qed.

Lemma memmove_outside (mem : list ptr) (dst src bytes : Z) :
  Z.of_nat (length mem) < dst + bytes / PTR_BYTES →
  memmove mem dst src bytes = Undefined.
Proof.
  intros H. unfold memmove.
  destruct (Z.leb_spec (dst + bytes / PTR_BYTES) (Z.of_nat (length mem))); [lia |].
  by rewrite andb_false_r.
Qed.

Lemma append_all_unfold (fuel : nat) (h : gmap loc ringbuffer_t) (w : world)
    (ringbuffer other : loc) (i countAdded error : Z) :
  append_all (S fuel) h w ringbuffer other i countAdded error =
  (src ← must (h !! other);
   if (i <? elementCount src) && (error =? 0) then
     v ← ringbuffer_get src i;
     dst ← must (h !! ringbuffer);
     '(r, dst', w') ← ringbuffer_append fuel dst v w;
     append_all fuel (<[ringbuffer := dst']> h) w' ringbuffer other
       (wrap (i + 1)) (wrap (countAdded + 1)) (Z.lor error r)
   else Done (countAdded, error, h, w)).
Proof. reflexivity. Qed.

(** An append to a buffer that has room. *)
Lemma append_room (fuel : nat) (rb : ringbuffer_t) (v : ptr) (w : world) :
  wf rb → elementCount rb < buffer_size rb →
  ∃ rb', ringbuffer_append fuel rb v w = Done (0, rb', w) ∧
         wf rb' ∧ elementCount rb' = elementCount rb + 1.
Proof.
  intros Hwf Hroom.
  pose proof SIZE_MODULUS_eq as HM. pose proof MAX_SLOTS_eq as HS.
  destruct (buffer rb) as [mem |] eqn:Hb.
  2:{ unfold wf in Hwf. rewrite Hb in Hwf. lia. }
  destruct (wf_Some _ _ Hwf Hb) as (Hlen & Hsz & Hst & Hc).
  destruct (insert_place_tail fuel rb mem v Hwf Hb Hroom)
    as (rb2 & Hpl & Hwf2 & Hsz2 & Hst2 & Hc2 & _).
  unfold ringbuffer_append, ringbuffer_insert.
  rewrite Z.gtb_ltb, Z.ltb_irrefl.
  destruct (Z.eqb_spec (elementCount rb) (buffer_size rb)); [lia |].
  rewrite bind_Done. simpl negb. cbv iota.
  rewrite Hpl, bind_Done.
  rewrite (wrap_small (elementCount rb2 + 1)) by lia.
  eexists. split; [reflexivity |]. split; [exact Hwf2 |]. simpl. lia.
Qed.

(** An append to a full buffer of [2^60] slots or more: the byte count of
    the doubled array does not fit [size_t] and wraps around, the allocator
    returns a block of fewer slots than the buffer had, and the relocation
    or the store of the new element leaves that block. *)
Lemma append_full_overflow (fuel : nat) (rb : ringbuffer_t) (v : ptr) (w : world) :
  wf rb → elementCount rb = buffer_size rb → MAX_SLOTS ≤ 2 * buffer_size rb →
  is_Some (allocator w (alloc_calls w)) →
  ringbuffer_append fuel rb v w = Undefined.
Proof.
  intros Hwf Hfull Hbig [junk Hj].
  pose proof SIZE_MODULUS_eq as HM. pose proof MAX_SLOTS_eq as HS.
  destruct (buffer rb) as [mem |] eqn:Hb.
  2:{ unfold wf in Hwf. rewrite Hb in Hwf. lia. }
  destruct (wf_Some _ _ Hwf Hb) as (Hlen & Hsz & Hst & Hc).
  unfold RINGBUFFER_MIN_BUFFER_SIZE in *.
  set (m := 2 * buffer_size rb - MAX_SLOTS).
  assert (Hm : 0 ≤ m < buffer_size rb) by (unfold m; lia).
  assert (Hbytes : wrap (buffer_size rb * 2 * PTR_BYTES) / PTR_BYTES = m).
  { unfold wrap, PTR_BYTES, m. rewrite HM, HS.
    replace (buffer_size rb * 2 * 8)
      with ((2 * buffer_size rb - 2305843009213693952) * 8 + 1 * 18446744073709551616)
      by lia.
    rewrite Z_mod_plus_full, Z.mod_small by lia. apply Z.div_mul. lia. }
  unfold ringbuffer_append, ringbuffer_insert.
  rewrite Z.gtb_ltb, Z.ltb_irrefl.
  destruct (Z.eqb_spec (elementCount rb) (buffer_size rb)); [| lia].
  unfold ringbuffer_resize. rewrite Hb.
  rewrite (wrap_small (buffer_size rb * 2)) by lia.
  unfold RINGBUFFER_MIN_BUFFER_SIZE.
  destruct (Z.ltb_spec (buffer_size rb * 2) 8); [lia |].
  destruct (Z.ltb_spec (buffer_size rb * 2) (elementCount rb)); [lia |].
  unfold jsonp_realloc. rewrite Hj, Hbytes.
  set (newBuffer := take (Z.to_nat m) mem ++ _).
  assert (Hnb : Z.of_nat (length newBuffer) = m).
  { unfold newBuffer. rewrite length_app, length_take, length_fresh_slots. lia. }
  rewrite Hfull, Z.sub_diag. change (wrap 0) with 0.
  rewrite Z.gtb_ltb.
  destruct (Z.ltb_spec 0 (start rb)) as [Hpos | Hzero].
  - (* a wrapped range: the relocation leaves the block *)
    rewrite (wrap_small (buffer_size rb - start rb)) by lia.
    rewrite (wrap_small (start rb + buffer_size rb)) by lia.
    rewrite umod_Done by lia. rewrite bind_Done.
    rewrite (mod_once (start rb + buffer_size rb)) by lia.
    destruct (Z.ltb_spec (start rb + buffer_size rb) (buffer_size rb)); [lia |].
    destruct (Z.ltb_spec (buffer_size rb - start rb)
                (start rb + buffer_size rb - buffer_size rb)).
    + rewrite memmove_outside; [done |].
      rewrite bytes_slots by lia. lia.
    + rewrite (wrap_small (buffer_size rb * 2 - buffer_size rb)) by lia.
      rewrite Z.gtb_ltb.
      destruct (Z.ltb_spec (buffer_size rb * 2 - buffer_size rb)
                  (start rb + buffer_size rb - buffer_size rb)); [lia |].
      rewrite memmove_outside; [done |].
      rewrite bytes_slots by lia. lia.
  - (* a range in one piece: the store leaves the block *)
    rewrite bind_Done. simpl negb. cbv iota.
    unfold insert_place. cbn [elementCount buffer_size start buffer].
    rewrite Z.eqb_refl. unfold slot_of.
    cbn [elementCount buffer_size start buffer].
    rewrite (wrap_small (start rb + buffer_size rb)) by lia.
    rewrite umod_Done by lia. rewrite bind_Done.
    rewrite Z.mod_small by lia.
    unfold put. cbn [buffer]. simpl must. rewrite bind_Done.
    rewrite store_outside; [done |]. lia.
Qed.

(** Under an allocator that grants every request an append to a
    well-formed buffer that returns has succeeded. *)
Lemma append_granted (fuel : nat) (rb rb' : ringbuffer_t) (v : ptr) (r : Z) (w w' : world) :
  wf rb → grants_all w →
  ringbuffer_append fuel rb v w = Done (r, rb', w') →
  r = 0 ∧ wf rb' ∧ elementCount rb' = elementCount rb + 1 ∧ allocator w' = allocator w.
Proof.
  intros Hwf Hall Happ.
  pose proof MAX_SLOTS_eq as HS.
  assert (Hc : 0 ≤ elementCount rb ≤ buffer_size rb ∧ 0 ≤ buffer_size rb < MAX_SLOTS).
  { revert Hwf. unfold wf, RINGBUFFER_MIN_BUFFER_SIZE. destruct (buffer rb); lia. }
  destruct (Z.lt_ge_cases (elementCount rb) (buffer_size rb)) as [Hroom | Hfull].
  - destruct (append_room fuel rb v w Hwf Hroom) as (rb1 & Hrun & Hwf1 & Hc1).
    rewrite Hrun in Happ. by injection Happ as <- <- <-.
  - destruct (Z.lt_ge_cases (2 * elementCount rb) MAX_SLOTS) as [Hfit | Hbig].
    + destruct (append_ok fuel rb v w Hwf Hfit)
        as (rb1 & w1 & Hrun & Hwf1 & _ & Hc1 & _ & _ & Ha1 & _); [intros; apply Hall |].
      rewrite Hrun in Happ. by injection Happ as <- <- <-.
    + rewrite append_full_overflow in Happ; [done | done | lia | lia | apply Hall].
Qed.

(** With the same non-empty structure as both arguments the first loop
    never comes to its end: whatever the number of turns it is given, it
    is still running, or it has left defined behaviour at the overflow of
    the byte count. *)
Lemma append_all_self_never_returns (fuel : nat) :
  ∀ (h : gmap loc ringbuffer_t) (w : world) (p : loc) (rb : ringbuffer_t) (i countAdded : Z)
    (x : Z * Z * gmap loc ringbuffer_t * world),
    h !! p = Some rb → wf rb → grants_all w → 0 ≤ i < elementCount rb →
    append_all fuel h w p p i countAdded 0 ≠ Done x.
Proof.
  pose proof SIZE_MODULUS_eq as HM. pose proof MAX_SLOTS_eq as HS.
  induction fuel as [| fuel IH]; intros h w p rb i countAdded x Hp Hwf Hall Hi; [done |].
  assert (Hc : elementCount rb < MAX_SLOTS).
  { revert Hwf. unfold wf. destruct (buffer rb); lia. }
  destruct (get_Done rb i Hwf Hi) as [v Hv].
  rewrite append_all_unfold, Hp. unfold must. rewrite bind_Done.
  destruct (Z.ltb_spec i (elementCount rb)); [| lia].
  rewrite Z.eqb_refl. cbv beta iota. unfold andb.
  rewrite Hv, !bind_Done.
  destruct (ringbuffer_append fuel rb v w) as [[[r rb'] w'] | |] eqn:Happ; [| done | done].
  destruct (append_granted _ _ _ _ _ _ _ Hwf Hall Happ) as (-> & Hwf' & Hc' & Ha').
  rewrite bind_Done. cbv beta iota.
  change (Z.lor 0 0) with 0. rewrite (wrap_small (i + 1)) by lia.
  apply (IH _ _ _ rb'); [apply lookup_insert_eq | done | | lia].
  intros k. rewrite Ha'. apply Hall.
Qed.

(** ** Calls that finish *)

Lemma finishes_bind {A B : Type} (m : outcome A) (f : A → outcome B) :
  finishes m → (∀ a, m = Done a → finishes (f a)) → finishes (m ≫= f).
Proof. unfold finishes. destruct m; simpl; intros Hm Hf; [by apply Hf | done | done]. Qed.

Lemma finishes_must {A : Type} (o : option A) : finishes (must o).
Proof. by destruct o. Qed.

Lemma finishes_umod (x size : Z) : finishes (umod x size).
Proof. unfold umod. by destruct (size =? 0). Qed.

Lemma finishes_store (mem : list ptr) (i : Z) (v : ptr) : finishes (store mem i v).
Proof. unfold store. by destruct (_ && _). Qed.

Lemma finishes_memmove (mem : list ptr) (dst src bytes : Z) :
  finishes (memmove mem dst src bytes).
Proof. unfold memmove. by destruct (_ && _). Qed.

Create HintDb finishes discriminated.
#[local] Hint Resolve finishes_must finishes_umod finishes_store finishes_memmove : finishes.

Lemma finishes_put (rb : ringbuffer_t) (p : Z) (v : ptr) : finishes (put rb p v).
Proof.
  unfold put. apply finishes_bind; [auto with finishes |]. intros mem _.
  apply finishes_bind; [auto with finishes | done].
Qed.

Lemma finishes_get (rb : ringbuffer_t) (i : Z) : finishes (ringbuffer_get rb i).
Proof.
  unfold ringbuffer_get. destruct (i >=? elementCount rb); [done |].
  apply finishes_bind; [apply finishes_must |]. intros mem _.
  apply finishes_bind; [apply finishes_umod |]. intros p _. apply finishes_must.
Qed.

Lemma finishes_resize (rb : ringbuffer_t) (newSize : Z) (w : world) :
  finishes (ringbuffer_resize rb newSize w).
Proof.
  unfold ringbuffer_resize. destruct (buffer rb).
  - destruct (_ <? elementCount rb); [done |].
    destruct (jsonp_realloc _ _ _ _) as [[newBuffer |] w1]; [| done].
    destruct (start rb >? _); [| done].
    apply finishes_bind; [apply finishes_umod |]. intros lower _.
    destruct (_ <? lower).
    { apply finishes_bind; [apply finishes_memmove | done]. }
    destruct (lower >? _).
    + apply finishes_bind; [apply finishes_memmove |]. intros m1 _.
      apply finishes_bind; [apply finishes_memmove | done].
    + apply finishes_bind; [apply finishes_memmove | done].
  - by destruct (jsonp_malloc _ _) as [[mem |] w1].
Qed.

(** An append never enters [ringbuffer_move]. *)
Lemma finishes_append (fuel : nat) (rb : ringbuffer_t) (v : ptr) (w : world) :
  finishes (ringbuffer_append fuel rb v w).
Proof.
  unfold ringbuffer_append, ringbuffer_insert.
  rewrite Z.gtb_ltb, Z.ltb_irrefl.
  apply finishes_bind.
  { destruct (_ =? _); [apply finishes_resize | done]. }
  intros [[failed rb1] w1] Hre.
  assert (Hc : failed = 0 → elementCount rb1 = elementCount rb).
  { intros ->. destruct (_ =? _).
    - destruct (resize_fields _ _ _ _ _ _ Hre) as [[? _] | (_ & _ & Hc & _)]; done.
    - by injection Hre as <- <-. }
  destruct (Z.eqb_spec failed 0) as [-> | Hne]; [| done]. simpl.
  apply finishes_bind; [| done].
  unfold insert_place. rewrite Hc by done. rewrite Z.eqb_refl.
  apply finishes_bind; [apply finishes_umod |]. intros p _. apply finishes_put.
Qed.

(** Neither does the deletion of the last element. *)
Lemma finishes_del_last (fuel : nat) (rb : ringbuffer_t) (w : world) :
  finishes (ringbuffer_del fuel rb (wrap (elementCount rb - 1)) w).
Proof.
  unfold ringbuffer_del. destruct (_ >=? _); [done |].
  apply finishes_bind; [apply finishes_must |]. intros mem _.
  apply finishes_bind; [apply finishes_umod |]. intros p _.
  apply finishes_bind; [apply finishes_must |]. intros victim _.
  apply finishes_bind.
  { unfold del_shift. by rewrite Z.eqb_refl. }
  intros rb1 _. cbv zeta.
  destruct (_ <? _); [| done].
  apply finishes_bind; [apply finishes_resize |]. by intros [[r rb2] w2] _.
Qed.

Lemma finishes_roll_back (todo : nat) :
  ∀ (fuel : nat) (h : gmap loc ringbuffer_t) (w : world) (p : loc),
    finishes (roll_back todo fuel h w p).
Proof.
  induction todo as [| todo IH]; intros fuel h w p; [done |]. simpl.
  apply finishes_bind; [apply finishes_must |]. intros dst _.
  apply finishes_bind; [apply finishes_del_last |]. intros [[r dst'] w'] _. apply IH.
Qed.

(** The first loop with two different structures: the bound stays what
    it is, so the loop is over after at most that many turns. *)
Lemma finishes_append_all_distinct (n : nat) :
  ∀ (fuel : nat) (h : gmap loc ringbuffer_t) (w : world) (p q : loc) (src : ringbuffer_t)
    (i countAdded error : Z),
    p ≠ q → h !! q = Some src → elementCount src < SIZE_MODULUS →
    0 ≤ i → elementCount src - i ≤ Z.of_nat n → (n < fuel)%nat →
    finishes (append_all fuel h w p q i countAdded error).
Proof.
  pose proof SIZE_MODULUS_eq as HM.
  induction n as [| n IH]; intros fuel h w p q src i countAdded error Hpq Hq Hsz Hi Hn Hfuel.
  - destruct fuel as [| fuel]; [lia |]. rewrite append_all_unfold, Hq. simpl.
    destruct (Z.ltb_spec i (elementCount src)); [lia | done].
  - destruct fuel as [| fuel]; [lia |]. rewrite append_all_unfold, Hq. simpl.
    destruct (Z.ltb_spec i (elementCount src)); [| done]. simpl.
    destruct (error =? 0); [| done].
    apply finishes_bind; [apply finishes_get |]. intros v _.
    apply finishes_bind; [apply finishes_must |]. intros dst _.
    apply finishes_bind; [apply finishes_append |]. intros [[r dst'] w'] _.
    rewrite (wrap_small (i + 1)) by lia.
    apply (IH _ _ _ _ _ src); try done; try lia.
    by rewrite lookup_insert_ne.
Qed.

Lemma finishes_append_ringbuffer_distinct (fuel : nat) (h : gmap loc ringbuffer_t)
    (w : world) (p q : loc) (src : ringbuffer_t) :
  p ≠ q → h !! q = Some src → elementCount src < SIZE_MODULUS →
  (Z.to_nat (elementCount src) < fuel)%nat →
  finishes (ringbuffer_append_ringbuffer fuel h w p q).
Proof.
  intros Hpq Hq Hsz Hfuel. unfold ringbuffer_append_ringbuffer.
  apply finishes_bind.
  { apply (finishes_append_all_distinct (Z.to_nat (elementCount src)) _ _ _ _ _ src);
      try done; lia. }
  intros [[[countAdded error] h'] w'] _.
  destruct (negb _); [| done].
  apply finishes_bind; [apply finishes_roll_back |]. by intros [h'' w''] _.
Qed.

(** With well-formed buffers, a granting allocator and counts that the
    arithmetic can hold, the first loop appends every element of the
    source and reports no error. *)
Lemma append_all_distinct (n : nat) :
  ∀ (fuel : nat) (h : gmap loc ringbuffer_t) (w : world) (p q : loc)
    (dst src : ringbuffer_t) (i countAdded : Z),
    p ≠ q → h !! p = Some dst → h !! q = Some src → wf dst → wf src → grants_all w →
    0 ≤ i → Z.of_nat n = elementCount src - i →
    2 * (elementCount dst + Z.of_nat n) ≤ MAX_SLOTS → (n < fuel)%nat →
    ∃ h' w' dst' countAdded',
      append_all fuel h w p q i countAdded 0 = Done (countAdded', 0, h', w') ∧
      h' !! p = Some dst' ∧ h' !! q = Some src ∧ wf dst' ∧
      elementCount dst' = elementCount dst + Z.of_nat n ∧
      (∀ j, 0 ≤ j < elementCount dst → ringbuffer_get dst' j = ringbuffer_get dst j) ∧
      (∀ j, 0 ≤ j < Z.of_nat n →
            ringbuffer_get dst' (elementCount dst + j) = ringbuffer_get src (i + j)).
Proof.
  pose proof SIZE_MODULUS_eq as HM. pose proof MAX_SLOTS_eq as HS.
  induction n as [| n IH];
    intros fuel h w p q dst src i countAdded Hpq Hp Hq Hwd Hws Hall Hi Hn Hmax Hfuel.
  - destruct fuel as [| fuel]; [lia |]. rewrite append_all_unfold, Hq. simpl.
    destruct (Z.ltb_spec i (elementCount src)); [lia |]. simpl.
    exists h, w, dst, countAdded. repeat split; try done; try lia.
  - destruct fuel as [| fuel]; [lia |]. rewrite append_all_unfold, Hq. simpl.
    destruct (Z.ltb_spec i (elementCount src)); [| lia]. simpl.
    destruct (get_Done src i Hws) as [v Hv]; [lia |].
    rewrite Hv, Hp. simpl.
    destruct (append_ok fuel dst v w Hwd) as
      (dst1 & w1 & Happ & Hwd1 & _ & Hc1 & _ & _ & Ha1 & _ & Hgv & Hgo);
      [lia | intros; apply Hall |].
    assert (Hcs : elementCount src < MAX_SLOTS).
    { revert Hws. unfold wf. destruct (buffer src); lia. }
    assert (Hcd : 0 ≤ elementCount dst).
    { revert Hwd. unfold wf. destruct (buffer dst); lia. }
    rewrite Happ. simpl. rewrite (wrap_small (i + 1)) by lia.
    destruct (IH fuel (<[p := dst1]> h) w1 p q dst1 src (i + 1) (wrap (countAdded + 1)))
      as (h' & w' & dst' & ca' & Hrun & Hp' & Hq' & Hwd' & Hc' & Hold & Hnew);
      try done; try lia.
    { apply lookup_insert_eq. }
    { by rewrite lookup_insert_ne. }
    { intros k. rewrite Ha1. apply Hall. }
    exists h', w', dst', ca'. change (Z.lor 0 0) with 0. rewrite Hrun.
    split; [done |]. split; [done |]. split; [done |]. split; [done |].
    split; [lia |]. split.
    + intros j Hj. rewrite Hold by lia. apply Hgo. lia.
    + intros j Hj. destruct (Z.eq_dec j 0) as [-> | Hj0].
      * rewrite !Z.add_0_r. rewrite Hold by lia. by rewrite Hgv, Hv.
      * replace (elementCount dst + j) with (elementCount dst1 + (j - 1)) by lia.
        rewrite Hnew by lia. f_equal. lia.
Qed.

(** ** The concrete buffers *)

Ltac wf_concrete :=
  unfold wf; simpl; unfold RINGBUFFER_MIN_BUFFER_SIZE; rewrite MAX_SLOTS_eq; lia.

Lemma single_by_append :
  ringbuffer_append 0 ringbuffer_init 7 granting_world = Done (0, single, tick granting_world).
Proof. reflexivity. Qed.

Lemma grants_all_granting (w : world) : allocator w = allocator granting_world → grants_all w.
Proof. intros H k. rewrite H. simpl. eauto. Qed.

Lemma full8_reachable :
  append_each 0 [1; 2; 3; 4; 5; 6; 7; 8] ringbuffer_init granting_world
  = Done (full8, tick granting_world).
Proof. reflexivity. Qed.

Lemma two_left_reachable :
  ('(rb, w) ← append_each 0 [1; 2; 3; 4; 5; 6; 7; 8; 9] ringbuffer_init marking_world;
   '(rb, w) ← del_front 0 7 rb w;
   Done rb) = Done two_left.
Proof. reflexivity. Qed.

Lemma seven_from_1_reachable :
  ('(rb, w) ← append_each 0 [1; 2; 3; 4; 5; 6; 7; 8] ringbuffer_init marking_world;
   '(rb, w) ← del_front 0 1 rb w;
   Done rb) = Done seven_from_1.
Proof. reflexivity. Qed.

Lemma five_reachable :
  ('(rb, w) ← append_each 0 [1; 2; 3; 4; 5] ringbuffer_init marking_world; Done rb)
  = Done five.
Proof. reflexivity. Qed.

Lemma four_reachable :
  ('(rb, w) ← append_each 0 [1; 2; 3; 4] ringbuffer_init marking_world; Done rb)
  = Done four.
Proof. reflexivity. Qed.

Lemma wrapped4_reachable :
  ('(rb, w) ← append_each 1 [1; 2; 3] ringbuffer_init marking_world;
   '(_, rb, w) ← ringbuffer_insert 1 rb 1 99 w;
   Done rb) = Done wrapped4.
Proof. reflexivity. Qed.

(** The backward loop of [ringbuffer_move] can spin: with [start = 1] a
    pointer that reaches the first slot is reset to the first slot. *)
Lemma move_down_spins (fuel : nat) :
  move_down fuel seven_from_1 [1; 2; 3; 4; 5; 6; 7; 8] 7 0 2 = OutOfFuel.
Proof. induction fuel as [| fuel IH]; [reflexivity | exact IH]. Qed.

Lemma insert_may_not_return (fuel : nat) (w : world) :
  ringbuffer_insert fuel seven_from_1 5 99 w = OutOfFuel.
Proof.
  unfold ringbuffer_insert. simpl. unfold insert_place. simpl.
  unfold ringbuffer_move. simpl. change (move_down fuel _ _ _ _ _)
    with (move_down fuel seven_from_1 [1; 2; 3; 4; 5; 6; 7; 8] 7 0 2).
  by rewrite move_down_spins.
Qed.

Lemma wf_data_model_invariant (rb : ringbuffer_t) : wf rb → data_model_invariant rb.
Proof.
  unfold wf, data_model_invariant, RINGBUFFER_MIN_BUFFER_SIZE.
  destruct (buffer rb); lia.
Qed.

Lemma wf_init : wf ringbuffer_init.
Proof. by unfold wf. Qed.

Lemma clear_loop_Done (todo : nat) :
  ∀ (rb : ringbuffer_t) (i : Z) (w : world),
    wf rb → 0 ≤ i → i + Z.of_nat todo ≤ elementCount rb →
    ∃ w', clear_loop todo rb i w = Done w' ∧ allocator w' = allocator w ∧
          alloc_calls w' = alloc_calls w ∧ freed w' = freed w ∧
          length (released w') = (todo + length (released w))%nat.
Proof.
  pose proof SIZE_MODULUS_eq as HM. pose proof MAX_SLOTS_eq as HS.
  induction todo as [| todo IH]; intros rb i w Hwf Hi Hn; [by exists w |].
  destruct (get_Done rb i Hwf) as [v Hv]; [lia |].
  assert (Hc : elementCount rb < MAX_SLOTS).
  { revert Hwf. unfold wf. destruct (buffer rb); lia. }
  simpl. rewrite Hv. simpl. rewrite wrap_small by lia.
  destruct (IH rb (i + 1) (json_decref v w) Hwf) as (w' & H & Ha & Hk & Hf & Hl);
    [lia | lia |].
  exists w'. split; [done |]. split; [done |]. split; [done |]. split; [done |].
  rewrite Hl. simpl. lia.
Qed.

(** Clearing a well-formed buffer releases every element, frees the
    storage and leaves the state of [ringbuffer_init]. *)
Lemma ringbuffer_clear_resets (rb : ringbuffer_t) (w : world) :
  wf rb →
  ∃ w', ringbuffer_clear rb w = Done (ringbuffer_init, w') ∧
        freed w' = buffer rb :: freed w ∧
        length (released w') = (Z.to_nat (elementCount rb) + length (released w))%nat.
Proof.
  intros Hwf.
  assert (Hc : 0 ≤ elementCount rb).
  { revert Hwf. unfold wf. destruct (buffer rb); lia. }
  destruct (clear_loop_Done (Z.to_nat (elementCount rb)) rb 0 w Hwf)
    as (w' & H & _ & _ & Hf & Hl); [lia | lia |].
  exists (jsonp_free (buffer rb) w'). unfold ringbuffer_clear. rewrite H.
  split; [done |]. split; [| done]. simpl. by rewrite Hf.
Qed.

(** ** The claims *)

(** C1. The claim: when an append fails inside
    [ringbuffer_append_ringbuffer], every element appended by the call is
    removed again, failure is returned and the destination has the count
    and the elements it had before. The code counts the failed append too
    ([countAdded++] runs in every turn), so the roll-back deletes one
    element more than the call appended. Here the destination is full with
    the elements 1 to 8, the source holds one element and the allocator
    refuses the growth: the call returns -1, and the destination is left
    with the seven elements 1 to 7, the element 8 released. *)
Theorem append_ringbuffer_rollback_one_too_many :
  contents full8 = [Done 1; Done 2; Done 3; Done 4; Done 5; Done 6; Done 7; Done 8] ∧
  ∃ h w',
    ringbuffer_append_ringbuffer 2 (<[1%nat := single]> {[0%nat := full8]})
      refusing_world 0%nat 1%nat = Done (-1, h, w') ∧
    contents <$> h !! 0%nat
    = Some [Done 1; Done 2; Done 3; Done 4; Done 5; Done 6; Done 7] ∧
    released w' = [8].
Proof.
  split; [reflexivity |]. eexists _, _.
  split; [vm_compute; reflexivity |]. split; reflexivity.
Qed.

(** C2. The claim: the invariant of the data model holds after every
    operation applied to a state that satisfies it. [two_left] satisfies it
    (capacity 16, start 7, count 2); deleting its first element moves
    [start] to 8 and the shrink that follows sets the capacity to 8 without
    moving anything: [start] equals the capacity, the invariant fails, the
    element 9 that lived in slot 8 is cut off, and [get(0)] reads slot 0,
    which holds the long deleted element 1. *)
Theorem del_shrink_breaks_invariant :
  wf two_left ∧ data_model_invariant two_left ∧
  ∃ rb' w',
    ringbuffer_del 0 two_left 0 marking_world = Done (0, rb', w') ∧
    buffer_size rb' = 8 ∧ start rb' = 8 ∧ elementCount rb' = 1 ∧
    ¬ data_model_invariant rb' ∧
    ringbuffer_get two_left 1 = Done 9 ∧ ringbuffer_get rb' 0 = Done 1.
Proof.
  split; [| split].
  - unfold wf. simpl. unfold RINGBUFFER_MIN_BUFFER_SIZE. rewrite MAX_SLOTS_eq. lia.
  - unfold data_model_invariant. simpl. unfold RINGBUFFER_MIN_BUFFER_SIZE. lia.
  - eexists _, _. split; [vm_compute; reflexivity |].
    split; [reflexivity |]. split; [reflexivity |]. split; [reflexivity |].
    split; [| split; reflexivity].
    unfold data_model_invariant. simpl. lia.
Qed.

(** C3. The claim: insertion and deletion give the same logical sequence
    as the naive shift of everything after the index. Three inputs on which
    [ringbuffer_move] does something else: an insertion into the back half
    that has to shift two elements (the backward loop copies upwards from
    the last element, so 4 is lost and 5 doubled); a deletion in the front
    half whose read pointer stands on slot 0 (the loop counts zero readable
    slots, resets the pointer to the last slot and copies what is there);
    and an insertion into the front half of a wrapped range (the read
    pointer is reset to [start] instead of slot 0 at the end of the
    block). *)
Theorem minimal_shift_differs_from_naive :
  (contents five = [Done 1; Done 2; Done 3; Done 4; Done 5] ∧
   naive_insert (contents five) 3 (Done 99)
   = [Done 1; Done 2; Done 3; Done 99; Done 4; Done 5] ∧
   ∃ rb', ringbuffer_insert 1 five 3 99 marking_world = Done (0, rb', marking_world) ∧
          contents rb' = [Done 1; Done 2; Done 3; Done 99; Done 5; Done 5]) ∧
  (contents four = [Done 1; Done 2; Done 3; Done 4] ∧
   naive_del (contents four) 1 = [Done 1; Done 3; Done 4] ∧
   ∃ rb' w', ringbuffer_del 2 four 1 marking_world = Done (0, rb', w') ∧
             contents rb' = [Done 1007; Done 3; Done 4]) ∧
  (contents wrapped4 = [Done 1; Done 99; Done 2; Done 3] ∧
   naive_insert (contents wrapped4) 2 (Done 55)
   = [Done 1; Done 99; Done 55; Done 2; Done 3] ∧
   ∃ rb', ringbuffer_insert 2 wrapped4 2 55 marking_world = Done (0, rb', marking_world) ∧
          contents rb' = [Done 1; Done 1; Done 55; Done 2; Done 3]).
Proof.
  split; [| split].
  - split; [reflexivity |]. split; [reflexivity |].
    eexists. split; [vm_compute; reflexivity | reflexivity].
  - split; [reflexivity |]. split; [reflexivity |].
    eexists _, _. split; [vm_compute; reflexivity | reflexivity].
  - split; [reflexivity |]. split; [reflexivity |].
    eexists. split; [vm_compute; reflexivity | reflexivity].
Qed.

(** C4. The claim: a successful resize followed by a successful resize
    back to the old capacity leaves every [get(i)] as it was. Shrinking
    [two_left] from 16 to 8 slots succeeds although the element 9 lives in
    slot 8: the block is cut, nothing is moved, and after growing back to 16
    the second element reads 1 instead of 9. *)
Theorem shrink_then_grow_loses_element :
  contents two_left = [Done 8; Done 9] ∧
  ∃ rb1 w1 rb2 w2,
    ringbuffer_resize two_left 8 marking_world = Done (0, rb1, w1) ∧
    ringbuffer_resize rb1 16 w1 = Done (0, rb2, w2) ∧
    buffer_size rb2 = buffer_size two_left ∧
    contents rb1 = [Done 8; Done 1] ∧
    contents rb2 = [Done 8; Done 1].
Proof.
  split; [reflexivity |]. eexists _, _, _, _.
  split; [vm_compute; reflexivity |]. split; [vm_compute; reflexivity |].
  split; reflexivity || (split; reflexivity).
Qed.

(** C5. [ringbuffer_insert(index, value)]: an index above the count is
    refused with -1 and the buffer is what it was; when the buffer is full
    and the allocator refuses the growth, the call returns -1, the buffer is
    what it was (no slot moved, no element lost) and nothing was released;
    a successful insertion into a full allocated buffer leaves twice the
    capacity; and every successful insertion raises the count by exactly
    one. *)
Theorem ringbuffer_insert_contract (fuel : nat) (rb : ringbuffer_t) (index : Z)
    (value : ptr) (w : world) :
  (elementCount rb < index → ringbuffer_insert fuel rb index value w = Done (-1, rb, w)) ∧
  (index ≤ elementCount rb → elementCount rb = buffer_size rb →
   allocator w (alloc_calls w) = None →
   ∃ w', ringbuffer_insert fuel rb index value w = Done (-1, rb, w') ∧
         released w' = released w) ∧
  (wf rb → index ≤ elementCount rb → elementCount rb = buffer_size rb →
   RINGBUFFER_MIN_BUFFER_SIZE ≤ buffer_size rb →
   ∀ rb' w', ringbuffer_insert fuel rb index value w = Done (0, rb', w') →
             buffer_size rb' = 2 * buffer_size rb) ∧
  (wf rb →
   ∀ rb' w', ringbuffer_insert fuel rb index value w = Done (0, rb', w') →
             elementCount rb' = elementCount rb + 1).
Proof.
  pose proof SIZE_MODULUS_eq as HM. pose proof MAX_SLOTS_eq as HS.
  assert (Hrange : wf rb →
            0 ≤ elementCount rb ≤ buffer_size rb ∧ 0 ≤ buffer_size rb < MAX_SLOTS).
  { unfold wf, RINGBUFFER_MIN_BUFFER_SIZE. destruct (buffer rb); lia. }
  split; [| split; [| split]].
  - intros Hgt. unfold ringbuffer_insert. rewrite Z.gtb_ltb.
    destruct (Z.ltb_spec (elementCount rb) index); [done | lia].
  - intros Hle Hfull Hfail. unfold ringbuffer_insert. rewrite Z.gtb_ltb.
    destruct (Z.ltb_spec (elementCount rb) index) as [Hx | Hx]; [lia |].
    rewrite Hfull, Z.eqb_refl. unfold ringbuffer_resize.
    destruct (buffer rb) as [mem |].
    + destruct (_ <? elementCount rb); [by exists w |].
      unfold jsonp_realloc. rewrite Hfail. simpl. by exists (tick w).
    + unfold jsonp_malloc. rewrite Hfail. simpl. by exists (tick w).
  - intros Hwf Hle Hfull Hmin rb' w' Hins. specialize (Hrange Hwf).
    revert Hins. unfold ringbuffer_insert. rewrite Z.gtb_ltb.
    destruct (Z.ltb_spec (elementCount rb) index) as [Hx | Hx]; [lia |].
    rewrite Hfull, Z.eqb_refl. intros Hins.
    apply bind_Done_inv in Hins as ([[failed rb1] w1] & Hre & Hins).
    destruct (resize_fields _ _ _ _ _ _ Hre) as [[-> ->] | (-> & Hsz & _)]; [done |].
    simpl in Hins. apply bind_Done_inv in Hins as (rb2 & Hpl & Hins).
    apply insert_place_fields in Hpl as [Hsz2 _].
    injection Hins as <- <-. simpl. rewrite Hsz2, Hsz.
    unfold RINGBUFFER_MIN_BUFFER_SIZE in *. rewrite wrap_small by lia. lia.
  - intros Hwf rb' w' Hins. specialize (Hrange Hwf).
    revert Hins. unfold ringbuffer_insert.
    destruct (index >? elementCount rb); [done |]. intros Hins.
    apply bind_Done_inv in Hins as ([[failed rb1] w1] & Hre & Hins).
    assert (Hc1 : elementCount rb1 = elementCount rb).
    { destruct (elementCount rb =? buffer_size rb).
      - destruct (resize_fields _ _ _ _ _ _ Hre) as [[-> ->] | (-> & _ & Hc & _)]; done.
      - by injection Hre as <- <- <-. }
    destruct (negb (failed =? 0)); [done |].
    apply bind_Done_inv in Hins as (rb2 & Hpl & Hins).
    apply insert_place_fields in Hpl as [_ Hc2].
    injection Hins as <- <-. simpl. rewrite Hc2, Hc1. apply wrap_small. lia.
Qed.

Lemma ringbuffer_insert_contract_witness :
  ringbuffer_insert 0 full8 9 42 granting_world = Done (-1, full8, granting_world) ∧
  (∃ w', ringbuffer_insert 0 full8 8 42 refusing_world = Done (-1, full8, w') ∧
         released w' = released refusing_world) ∧
  (∃ rb' w', ringbuffer_insert 0 full8 8 42 granting_world = Done (0, rb', w') ∧
             buffer_size rb' = 2 * buffer_size full8 ∧
             elementCount rb' = elementCount full8 + 1).
Proof.
  assert (Hwf : wf full8) by wf_concrete.
  split; [| split].
  - apply (ringbuffer_insert_contract 0 full8 9 42 granting_world). simpl. lia.
  - apply (ringbuffer_insert_contract 0 full8 8 42 refusing_world);
      [simpl; lia | reflexivity | reflexivity].
  - destruct (ringbuffer_insert_contract 0 full8 8 42 granting_world)
      as (_ & _ & Hdouble & Hcount).
    eexists _, _. split; [vm_compute; reflexivity |]. split.
    + apply (Hdouble Hwf) with (w' := tick granting_world);
        [simpl; lia | reflexivity | unfold RINGBUFFER_MIN_BUFFER_SIZE; simpl; lia |].
      vm_compute. reflexivity.
    + apply (Hcount Hwf) with (w' := tick granting_world). vm_compute. reflexivity.
Defined.

(** C6. The claim: in every reachable state whose live range wraps the
    end of the storage, a successful growth leaves the count and every
    [get(i)] as they were. [start9] is reached by public calls only: ten
    appends, ten deletions at the front, eight appends. The shrink from 16
    to 8 slots inside [ringbuffer_del] left [start] at 9 (the defect of C2),
    so the eight elements 21 to 28 live in slots 1 to 7 and 0.
    [ringbuffer_resize] takes the range for a wrapped one, computes
    [upperBlockSize = 8 - 9], which wraps around in [size_t], and copies
    slot 0 to slot 8; [start] stays 9. The growth to 16 slots returns 0 and
    the first seven elements are now read from the new slots 9 to 15, whose
    content is indeterminate. The ninth [ringbuffer_append] does the same
    through the public interface. *)
Theorem grow_of_shifted_range_loses_elements :
  ('(rb, w) ← append_each 0 [1; 2; 3; 4; 5; 6; 7; 8; 9; 10] ringbuffer_init marking_world;
   '(rb, w) ← del_front 0 10 rb w;
   '(rb, w) ← append_each 0 [21; 22; 23; 24; 25; 26; 27; 28] rb w;
   Done rb) = Done start9 ∧
  wraps start9 ∧
  contents start9
  = [Done 21; Done 22; Done 23; Done 24; Done 25; Done 26; Done 27; Done 28] ∧
  (∃ rb', ringbuffer_resize start9 16 marking_world = Done (0, rb', tick marking_world) ∧
          buffer_size rb' = 16 ∧ elementCount rb' = elementCount start9 ∧
          contents rb'
          = [Done 1009; Done 1010; Done 1011; Done 1012; Done 1013; Done 1014;
             Done 1015; Done 28]) ∧
  (∃ rb', ringbuffer_append 0 start9 29 marking_world = Done (0, rb', tick marking_world) ∧
          contents rb'
          = [Done 1009; Done 1010; Done 1011; Done 1012; Done 1013; Done 1014;
             Done 1015; Done 28; Done 29]).
Proof.
  split; [vm_compute; reflexivity |].
  split; [unfold wraps; simpl; lia |].
  split; [reflexivity |].
  split; eexists; (split; [vm_compute; reflexivity |]); repeat split.
Qed.

(** C7. The claim: a deletion that makes the count fall below an eighth
    of the capacity halves the capacity. [queue32] is a well-formed buffer
    reached by public calls only (seventeen appends, thirteen deletions at
    the front, then eighteen times an append and a deletion at the front):
    capacity 32, [start] 31, the elements 32 to 35 in slots 31, 0, 1, 2.
    Deleting the last one leaves 3 elements, less than 32 / 8, and
    [ringbuffer_del] calls [ringbuffer_resize] for 16 slots.
    [ringbuffer_resize] reallocates first and relocates afterwards: the
    block has 16 slots when [memmove(buffer + 15, buffer + 31, 8)] reads the
    upper part of the live range from slot 31. The deletion neither returns
    with capacity 16 nor runs on: its behaviour is undefined. The shrink
    loses the same slots without notice where the remaining range does not
    wrap (C2, C4). *)
Theorem shrink_of_wrapped_range_is_undefined (fuel : nat) :
  ('(rb, w) ← append_each 0 [1; 2; 3; 4; 5; 6; 7; 8; 9; 10; 11; 12; 13; 14; 15; 16; 17]
                ringbuffer_init marking_world;
   '(rb, w) ← del_front 0 13 rb w;
   '(rb, w) ← fifo_each 0 [18; 19; 20; 21; 22; 23; 24; 25; 26; 27; 28; 29; 30; 31; 32;
                            33; 34; 35] rb w;
   Done rb) = Done queue32 ∧
  wf queue32 ∧ data_model_invariant queue32 ∧
  contents queue32 = [Done 32; Done 33; Done 34; Done 35] ∧
  elementCount queue32 - 1 < buffer_size queue32 / 8 ∧
  Z.max RINGBUFFER_MIN_BUFFER_SIZE (buffer_size queue32 / 2) = 16 ∧
  ringbuffer_del fuel queue32 3 marking_world = Undefined.
Proof.
  split; [vm_compute; reflexivity |].
  split; [wf_concrete |].
  split; [apply wf_data_model_invariant; wf_concrete |].
  split; [reflexivity |].
  split; [reflexivity |].
  split; reflexivity.
Qed.

(** The parts of the capacity policy that do hold of a well-formed
    buffer when the allocator grants the one request the call makes. The
    first insertion into an uninitialized buffer allocates exactly the
    minimum, 8 slots. An insertion into a full buffer that returns, returns
    0 with twice the capacity, and an append to a full buffer does return.
    A deletion that brings the count below an eighth of the capacity and
    returns, leaves half the capacity but not less than 8, and the deletion
    of the last element of a live range in one piece does return. After any
    deletion that returns the capacity is 0 or at least 8. *)
Lemma capacity_lifecycle (fuel : nat) (rb : ringbuffer_t) (index : Z) (value : ptr)
    (w : world) (junk : nat → ptr) :
  wf rb → 0 ≤ index → allocator w (alloc_calls w) = Some junk →
  (∃ rb0, ringbuffer_insert fuel ringbuffer_init 0 value w = Done (0, rb0, tick w) ∧
          buffer_size rb0 = RINGBUFFER_MIN_BUFFER_SIZE) ∧
  (index ≤ elementCount rb → elementCount rb = buffer_size rb →
   RINGBUFFER_MIN_BUFFER_SIZE ≤ buffer_size rb →
   ∀ r rb' w', ringbuffer_insert fuel rb index value w = Done (r, rb', w') →
               r = 0 ∧ buffer_size rb' = 2 * buffer_size rb) ∧
  (elementCount rb = buffer_size rb → RINGBUFFER_MIN_BUFFER_SIZE ≤ buffer_size rb →
   2 * buffer_size rb < MAX_SLOTS →
   ∃ rb' w', ringbuffer_append fuel rb value w = Done (0, rb', w') ∧
             buffer_size rb' = 2 * buffer_size rb) ∧
  (index < elementCount rb → elementCount rb - 1 < buffer_size rb / 8 →
   ∀ r rb' w', ringbuffer_del fuel rb index w = Done (r, rb', w') →
               r = 0 ∧
               buffer_size rb' = Z.max RINGBUFFER_MIN_BUFFER_SIZE (buffer_size rb / 2)) ∧
  (index = elementCount rb - 1 → ¬ wraps rb → elementCount rb - 1 < buffer_size rb / 8 →
   ∃ rb' w', ringbuffer_del fuel rb index w = Done (0, rb', w') ∧
             buffer_size rb' = Z.max RINGBUFFER_MIN_BUFFER_SIZE (buffer_size rb / 2)) ∧
  (∀ r rb' w', ringbuffer_del fuel rb index w = Done (r, rb', w') →
               buffer_size rb' = 0 ∨ RINGBUFFER_MIN_BUFFER_SIZE ≤ buffer_size rb').
Proof.
  intros Hwf Hidx Hj.
  pose proof SIZE_MODULUS_eq as HM. pose proof MAX_SLOTS_eq as HS.
  split; [| split; [| split; [| split; [| split]]]].
  - (* the first insertion *)
    unfold ringbuffer_insert, ringbuffer_resize, jsonp_malloc. simpl.
    rewrite Hj. simpl. eexists. split; [reflexivity | done].
  - (* an insertion into a full buffer *)
    intros Hle Hfull Hmin r rb' w' H.
    destruct (wf_capacity rb Hwf) as [(_ & Hz & _) | (Hb & Hsz & Hst & Hc)].
    { unfold RINGBUFFER_MIN_BUFFER_SIZE in *. lia. }
    unfold RINGBUFFER_MIN_BUFFER_SIZE in *.
    revert H. unfold ringbuffer_insert. rewrite Z.gtb_ltb.
    destruct (Z.ltb_spec (elementCount rb) index) as [Hx | Hx]; [lia |].
    rewrite Hfull, Z.eqb_refl. intros H.
    apply bind_Done_inv in H as ([[failed rb1] w1] & Hre & H).
    assert (failed = 0) as ->.
    { eapply resize_granted; [exact Hb | eauto | | exact Hre].
      rewrite wrap_small by lia. unfold RINGBUFFER_MIN_BUFFER_SIZE. lia. }
    destruct (resize_fields _ _ _ _ _ _ Hre) as [[? _] | (_ & Hsz1 & _)]; [done |].
    simpl in H. apply bind_Done_inv in H as (rb2 & Hpl & H).
    apply insert_place_fields in Hpl as [Hsz2 _].
    injection H as <- <- <-. simpl. rewrite Hsz2, Hsz1.
    unfold RINGBUFFER_MIN_BUFFER_SIZE. rewrite wrap_small by lia. lia.
  - (* an append to a full buffer *)
    intros Hfull Hmin Hmax.
    destruct (append_ok fuel rb value w Hwf) as (rb' & w' & H & _ & _ & _ & Hsz & _).
    { lia. }
    { eauto. }
    exists rb', w'. split; [exact H |]. rewrite Hsz, Hfull, Z.eqb_refl.
    unfold RINGBUFFER_MIN_BUFFER_SIZE in *. lia.
  - (* a deletion that leaves less than an eighth *)
    intros Hlt Hlow r rb' w' H.
    destruct (wf_capacity rb Hwf) as [(_ & _ & Hz) | (Hb & Hsz & Hst & Hc)]; [lia |].
    unfold RINGBUFFER_MIN_BUFFER_SIZE in *.
    destruct (del_Done_inv _ _ _ _ _ _ _ Hlt H) as (victim & rb1 & _ & Hshift & -> & Hrest).
    apply del_shift_fields in Hshift as (Hsz1 & Hc1 & Hb1). specialize (Hb1 Hb).
    cbv zeta in Hrest. simpl in Hrest. rewrite Hsz1, Hc1 in Hrest.
    rewrite (wrap_small (elementCount rb - 1)) in Hrest by lia.
    destruct (Z.ltb_spec (elementCount rb - 1) (buffer_size rb / 8)); [| lia].
    destruct Hrest as [r' Hre]. split; [done |].
    assert (r' = 0) as ->.
    { eapply resize_granted; [| | | exact Hre]; simpl; eauto.
      unfold RINGBUFFER_MIN_BUFFER_SIZE.
      assert (buffer_size rb / 8 ≤ buffer_size rb / 2).
      { apply Z.div_le_compat_l; lia. }
      lia. }
    destruct (resize_fields _ _ _ _ _ _ Hre) as [[? _] | (_ & Hsz' & _)]; [done |].
    exact Hsz'.
  - (* deleting the last element of a live range in one piece *)
    intros -> Hnw Hlow.
    destruct (wf_capacity rb Hwf) as [(_ & _ & Hz) | ([mem Hb] & Hsz & Hst & Hc)]; [lia |].
    destruct (wf_Some _ _ Hwf Hb) as (Hlen & _).
    unfold RINGBUFFER_MIN_BUFFER_SIZE in *. unfold wraps in Hnw.
    assert (Hhalf : buffer_size rb / 8 ≤ buffer_size rb / 2).
    { apply Z.div_le_compat_l; lia. }
    unfold ringbuffer_del.
    destruct (Z.geb_spec (elementCount rb - 1) (elementCount rb)); [lia |].
    rewrite Hb. simpl. rewrite slot_of_Done by lia. rewrite bind_Done.
    rewrite mod_once by lia.
    destruct (Z.ltb_spec (start rb + (elementCount rb - 1)) (buffer_size rb)); [| lia].
    unfold load.
    destruct (slot_is_Some mem (start rb + (elementCount rb - 1))) as [victim Hv]; [lia |].
    rewrite Hv. simpl.
    unfold del_shift. rewrite (wrap_small (elementCount rb - 1)) by lia.
    rewrite Z.eqb_refl. simpl.
    rewrite (wrap_small (elementCount rb - 1)) by lia.
    destruct (Z.ltb_spec (elementCount rb - 1) (buffer_size rb / 8)); [| lia].
    unfold ringbuffer_resize. simpl. rewrite Hb.
    unfold RINGBUFFER_MIN_BUFFER_SIZE.
    assert (Hclamp : (if buffer_size rb / 2 <? 8 then 8 else buffer_size rb / 2)
                     = Z.max 8 (buffer_size rb / 2)).
    { destruct (Z.ltb_spec (buffer_size rb / 2) 8); lia. }
    rewrite Hclamp.
    destruct (Z.ltb_spec (Z.max 8 (buffer_size rb / 2)) (elementCount rb - 1)); [lia |].
    unfold jsonp_realloc. simpl. rewrite Hj.
    rewrite (wrap_small (buffer_size rb - (elementCount rb - 1))) by lia.
    rewrite Z.gtb_ltb.
    destruct (Z.ltb_spec (buffer_size rb - (elementCount rb - 1)) (start rb)); [lia |].
    simpl. eexists _, _. split; [reflexivity | done].
  - (* the capacity stays zero or at least the minimum *)
    intros r rb' w' H.
    assert (Hcap : buffer_size rb = 0 ∨ RINGBUFFER_MIN_BUFFER_SIZE ≤ buffer_size rb).
    { destruct (wf_capacity rb Hwf) as [(_ & ? & _) | (_ & ? & _)]; lia. }
    destruct (Z.lt_ge_cases index (elementCount rb)) as [Hlt | Hge].
    + destruct (del_Done_inv _ _ _ _ _ _ _ Hlt H) as (victim & rb1 & _ & Hshift & -> & Hrest).
      apply del_shift_fields in Hshift as (Hsz1 & Hc1 & _).
      cbv zeta in Hrest. simpl in Hrest.
      destruct (_ <? _).
      * destruct Hrest as [r' Hre].
        destruct (resize_fields _ _ _ _ _ _ Hre) as [[_ ->] | (_ & Hsz' & _)].
        -- simpl. by rewrite Hsz1.
        -- right. rewrite Hsz'. lia.
      * destruct Hrest as [-> _]. simpl. by rewrite Hsz1.
    + revert H. unfold ringbuffer_del.
      destruct (Z.geb_spec index (elementCount rb)); [| lia].
      by intros [= <- <- <-].
Qed.

Lemma capacity_lifecycle_witness :
  (∃ rb0, ringbuffer_insert 0 ringbuffer_init 0 42 granting_world
          = Done (0, rb0, tick granting_world) ∧
          buffer_size rb0 = RINGBUFFER_MIN_BUFFER_SIZE) ∧
  (∃ rb' w', ringbuffer_append 0 full8 42 granting_world = Done (0, rb', w') ∧
             buffer_size rb' = 2 * buffer_size full8) ∧
  (∃ rb' w', ringbuffer_del 0 two_left 1 marking_world = Done (0, rb', w') ∧
             buffer_size rb' = Z.max RINGBUFFER_MIN_BUFFER_SIZE (buffer_size two_left / 2)).
Proof.
  split; [| split].
  - destruct (capacity_lifecycle 0 full8 8 42 granting_world (λ _, NULL)) as [Hfirst _];
      [wf_concrete | lia | reflexivity |].
    exact Hfirst.
  - destruct (capacity_lifecycle 0 full8 8 42 granting_world (λ _, NULL))
      as (_ & _ & Hgrow & _); [wf_concrete | lia | reflexivity |].
    apply Hgrow; [reflexivity | unfold RINGBUFFER_MIN_BUFFER_SIZE; simpl; lia |].
    simpl. rewrite MAX_SLOTS_eq. lia.
  - destruct (capacity_lifecycle 0 two_left 1 42 marking_world (λ i, 1000 + Z.of_nat i))
      as (_ & _ & _ & _ & Hshrink & _); [wf_concrete | lia | reflexivity |].
    apply Hshrink; [reflexivity | unfold wraps; simpl; lia | simpl].
    change (16 / 8) with 2. lia.
Defined.

(** C8. Scenario A: from an empty buffer, with the first allocation
    granted, appending 1, 2, 3 and then inserting 99 at index 1 succeeds
    and leaves four elements, read back as 1, 99, 2, 3. *)
Theorem scenario_A (fuel : nat) (w : world) (junk : nat → ptr) :
  allocator w (alloc_calls w) = Some junk →
  ∃ rb w',
    ('(rb, w) ← append_each (S fuel) [1; 2; 3] ringbuffer_init w;
     ringbuffer_insert (S fuel) rb 1 99 w) = Done (0, rb, w') ∧
    elementCount rb = 4 ∧
    ringbuffer_get rb 0 = Done 1 ∧ ringbuffer_get rb 1 = Done 99 ∧
    ringbuffer_get rb 2 = Done 2 ∧ ringbuffer_get rb 3 = Done 3.
Proof.
  intros Hj.
  assert (H1 : ringbuffer_append (S fuel) ringbuffer_init 1 w
               = Done (0, mk_ringbuffer 8 0 1 (Some (1 :: fresh_slots junk 1 7)), tick w)).
  { unfold ringbuffer_append, ringbuffer_insert, ringbuffer_resize, jsonp_malloc.
    simpl. by rewrite Hj. }
  cbn [append_each]. rewrite H1.
  eexists _, _. split; [vm_compute; reflexivity |]. repeat split.
Qed.

Lemma scenario_A_witness :
  ∃ rb w',
    ('(rb, w) ← append_each 1 [1; 2; 3] ringbuffer_init granting_world;
     ringbuffer_insert 1 rb 1 99 w) = Done (0, rb, w') ∧
    elementCount rb = 4 ∧
    ringbuffer_get rb 0 = Done 1 ∧ ringbuffer_get rb 1 = Done 99 ∧
    ringbuffer_get rb 2 = Done 2 ∧ ringbuffer_get rb 3 = Done 3.
Proof. apply (scenario_A 0 granting_world (λ _, NULL)). reflexivity. Defined.

(** C9. [ringbuffer_set(index, value)] on a well-formed buffer: an index
    at or above the count is refused with -1 and neither the buffer nor the
    collaborators change; an index below the count succeeds, releases the
    one reference that was stored there (one [json_decref], of the prior
    occupant) and stores [value], and the capacity, the start, the count and
    every other element are what they were. *)
Theorem ringbuffer_set_frame (rb : ringbuffer_t) (index : Z) (value : ptr) (w : world) :
  wf rb → 0 ≤ index →
  (elementCount rb ≤ index → ringbuffer_set rb index value w = Done (-1, rb, w)) ∧
  (index < elementCount rb →
   ∃ old rb',
     ringbuffer_get rb index = Done old ∧
     ringbuffer_set rb index value w = Done (0, rb', json_decref old w) ∧
     released (json_decref old w) = old :: released w ∧
     buffer_size rb' = buffer_size rb ∧ start rb' = start rb ∧
     elementCount rb' = elementCount rb ∧
     ringbuffer_get rb' index = Done value ∧
     (∀ j, 0 ≤ j < elementCount rb → j ≠ index →
           ringbuffer_get rb' j = ringbuffer_get rb j)).
Proof.
  intros Hwf Hidx. split.
  - intros Hge. unfold ringbuffer_set.
    destruct (Z.geb_spec index (elementCount rb)); [done | lia].
  - intros Hlt.
    destruct (buffer rb) as [mem |] eqn:Hb.
    2:{ unfold wf in Hwf. rewrite Hb in Hwf. lia. }
    destruct (wf_Some _ _ Hwf Hb) as (Hlen & Hsz & Hst & Hc).
    pose proof SIZE_MODULUS_eq as HM. pose proof MAX_SLOTS_eq as HS.
    unfold RINGBUFFER_MIN_BUFFER_SIZE in *.
    set (j := (start rb + index) mod buffer_size rb).
    assert (Hj : 0 ≤ j < Z.of_nat (length mem)).
    { rewrite Hlen. apply Z.mod_pos_bound. lia. }
    destruct (slot_is_Some mem j Hj) as [old Hold].
    exists old, (set_buffer rb (Some (<[Z.to_nat j := value]> mem))).
    assert (Hwf' : wf (set_buffer rb (Some (<[Z.to_nat j := value]> mem)))).
    { unfold wf. simpl. rewrite length_insert. unfold RINGBUFFER_MIN_BUFFER_SIZE. lia. }
    split; [| split; [| split; [done | split; [done | split; [done | split; [done | split]]]]]].
    + rewrite (get_wf rb mem) by done. fold j. unfold load. by rewrite Hold.
    + unfold ringbuffer_set.
      destruct (Z.geb_spec index (elementCount rb)); [lia |].
      rewrite Hb. simpl. rewrite slot_of_Done by lia. rewrite bind_Done. fold j.
      unfold load. rewrite Hold. simpl. rewrite store_Done by done. done.
    + erewrite get_wf; [| exact Hwf' | simpl; reflexivity | simpl; lia].
      simpl. fold j. unfold load. rewrite slot_insert by done. by rewrite Z.eqb_refl.
    + intros k Hk Hne.
      erewrite get_wf; [| exact Hwf' | simpl; reflexivity | simpl; lia].
      rewrite (get_wf rb mem) by done.
      simpl. unfold load. rewrite slot_insert by done.
      destruct (Z.eqb_spec ((start rb + k) mod buffer_size rb) j) as [E | E]; [| done].
      exfalso. revert E. unfold j. rewrite !mod_once by lia. zcases; lia.
Qed.

Lemma ringbuffer_set_frame_witness :
  ringbuffer_set four 4 42 marking_world = Done (-1, four, marking_world) ∧
  ∃ old rb',
    ringbuffer_get four 1 = Done old ∧
    ringbuffer_set four 1 42 marking_world = Done (0, rb', json_decref old marking_world) ∧
    ringbuffer_get rb' 1 = Done 42 ∧
    ringbuffer_get rb' 0 = ringbuffer_get four 0.
Proof.
  assert (Hwf : wf four) by wf_concrete.
  split.
  - apply (ringbuffer_set_frame four 4 42 marking_world Hwf); [lia | simpl; lia].
  - destruct (ringbuffer_set_frame four 1 42 marking_world Hwf) as [_ Hin]; [lia |].
    destruct Hin as (old & rb' & Hold & Hset & _ & _ & _ & _ & Hnew & Hframe);
      [simpl; lia |].
    exists old, rb'. split; [exact Hold |]. split; [exact Hset |]. split; [exact Hnew |].
    apply Hframe; [simpl; lia | lia].
Defined.

(** C10. Under an allocator that grants every request
    [ringbuffer_append_ringbuffer] terminates for two different structures:
    it finishes within [other->elementCount + 1] turns of its first loop,
    whatever the allocator does, and with well-formed buffers, a granting
    allocator and at most [2^60] elements in total it returns 0, the
    destination holding its old elements followed by those of the source.
    With the same non-empty structure as both arguments the loop bound
    grows with the counter, one element with every append, and the call
    never terminates: the first loop is still running after any number
    [fuel] of turns for which the count plus [fuel] stays within [2^60],
    and for no number of turns at all does the call return. (Beyond [2^60]
    elements the byte count of the doubled storage wraps around in [size_t]
    and the run leaves defined behaviour, which is no return either.) *)
Theorem append_ringbuffer_termination (fuel : nat) (h : gmap loc ringbuffer_t) (w : world)
    (p q : loc) (dst src : ringbuffer_t) :
  h !! p = Some dst → h !! q = Some src →
  (p ≠ q → 0 ≤ elementCount src < SIZE_MODULUS →
   (Z.to_nat (elementCount src) < fuel)%nat →
   finishes (ringbuffer_append_ringbuffer fuel h w p q)) ∧
  (p ≠ q → wf dst → wf src → grants_all w →
   (Z.to_nat (elementCount src) < fuel)%nat →
   2 * (elementCount dst + elementCount src) ≤ MAX_SLOTS →
   ∃ h' w' dst',
     ringbuffer_append_ringbuffer fuel h w p q = Done (0, h', w') ∧
     h' !! p = Some dst' ∧ h' !! q = Some src ∧
     elementCount dst' = elementCount dst + elementCount src ∧
     (∀ j, 0 ≤ j < elementCount dst → ringbuffer_get dst' j = ringbuffer_get dst j) ∧
     (∀ j, 0 ≤ j < elementCount src →
           ringbuffer_get dst' (elementCount dst + j) = ringbuffer_get src j)) ∧
  (p = q → wf src → grants_all w → 0 < elementCount src →
   2 * (elementCount src + Z.of_nat fuel) ≤ MAX_SLOTS →
   ringbuffer_append_ringbuffer fuel h w p q = OutOfFuel) ∧
  (p = q → wf src → grants_all w → 0 < elementCount src →
   ∀ x, ringbuffer_append_ringbuffer fuel h w p q ≠ Done x).
Proof.
  intros Hp Hq.
  pose proof SIZE_MODULUS_eq as HM. pose proof MAX_SLOTS_eq as HS.
  split; [| split; [| split]].
  - intros Hpq Hrange Hfuel.
    apply (finishes_append_ringbuffer_distinct _ _ _ _ _ src); try done. lia.
  - intros Hpq Hwd Hws Hall Hfuel Hmax.
    assert (Hcs : 0 ≤ elementCount src < MAX_SLOTS).
    { revert Hws. unfold wf, RINGBUFFER_MIN_BUFFER_SIZE. destruct (buffer src); lia. }
    destruct (append_all_distinct (Z.to_nat (elementCount src)) fuel h w p q dst src 0 0)
      as (h' & w' & dst' & ca' & Hrun & Hp' & Hq' & _ & Hc' & Hold & Hnew);
      try done; try lia.
    exists h', w', dst'. unfold ringbuffer_append_ringbuffer. rewrite Hrun. simpl.
    split; [done |]. split; [done |]. split; [done |]. split; [lia |].
    split; [done |]. intros j Hj. rewrite Hnew by lia. f_equal.
  - intros <- Hws Hall Hne Hmax. unfold ringbuffer_append_ringbuffer.
    assert (src = dst) as -> by congruence.
    by rewrite (append_all_self_runs fuel h w p dst 0 0) by (try done; lia).
  - intros <- Hws Hall Hne x. unfold ringbuffer_append_ringbuffer.
    assert (src = dst) as -> by congruence.
    destruct (append_all fuel h w p p 0 0 0) as [y | |] eqn:Hrun; [| done | done].
    exfalso. apply (append_all_self_never_returns fuel h w p dst 0 0 y); try done; lia.
Qed.

Lemma append_ringbuffer_termination_witness :
  finishes (ringbuffer_append_ringbuffer 2
              (<[1%nat := single]> {[0%nat := single]}) refusing_world 0%nat 1%nat) ∧
  (∃ h' w' dst',
     ringbuffer_append_ringbuffer 2
       (<[1%nat := single]> {[0%nat := single]}) granting_world 0%nat 1%nat
     = Done (0, h', w') ∧
     h' !! 0%nat = Some dst' ∧ elementCount dst' = 2 ∧
     ringbuffer_get dst' 0 = Done 7 ∧ ringbuffer_get dst' 1 = Done 7) ∧
  ringbuffer_append_ringbuffer 5 {[0%nat := single]} granting_world 0%nat 0%nat = OutOfFuel ∧
  (∀ x, ringbuffer_append_ringbuffer 5 {[0%nat := single]} granting_world 0%nat 0%nat
        ≠ Done x).
Proof.
  assert (Hwf : wf single) by wf_concrete.
  assert (Hall : grants_all granting_world) by (by apply grants_all_granting).
  split; [| split; [| split]].
  - destruct (append_ringbuffer_termination 2 (<[1%nat := single]> {[0%nat := single]})
                refusing_world 0%nat 1%nat single single) as (Hfin & _ & _);
      [reflexivity | reflexivity |].
    apply Hfin; [discriminate | simpl; rewrite SIZE_MODULUS_eq; lia | simpl; lia].
  - destruct (append_ringbuffer_termination 2 (<[1%nat := single]> {[0%nat := single]})
                granting_world 0%nat 1%nat single single) as (_ & Hdone & _);
      [reflexivity | reflexivity |].
    destruct Hdone as (h' & w' & dst' & Hrun & Hp' & _ & Hc' & Hold & Hnew);
      [discriminate | exact Hwf | exact Hwf | exact Hall | simpl; lia
      | simpl; rewrite MAX_SLOTS_eq; lia |].
    exists h', w', dst'. split; [exact Hrun |]. split; [exact Hp' |].
    split; [exact Hc' |]. split.
    + rewrite Hold by (simpl; lia). reflexivity.
    + transitivity (ringbuffer_get single 0); [apply (Hnew 0); simpl; lia | reflexivity].
  - destruct (append_ringbuffer_termination 5 {[0%nat := single]}
                granting_world 0%nat 0%nat single single) as (_ & _ & Hself & _);
      [reflexivity | reflexivity |].
    apply Hself; [reflexivity | exact Hwf | exact Hall | simpl; lia
                 | simpl; rewrite MAX_SLOTS_eq; lia].
  - destruct (append_ringbuffer_termination 5 {[0%nat := single]}
                granting_world 0%nat 0%nat single single) as (_ & _ & _ & Hnever);
      [reflexivity | reflexivity |].
    apply Hnever; [reflexivity | exact Hwf | exact Hall | simpl; lia].
Defined.

(** * More of the code

    What the claims leave open about the functions of [ringbuffer.c]:
    the cases in which insertion and deletion do work, the invariants that
    are kept, and the error and edge behaviour. *)

(** ** Lengths of blocks *)

Lemma memmove_length (mem mem' : list ptr) (dst src bytes : Z) :
  memmove mem dst src bytes = Done mem' → length mem' = length mem.
Proof.
  unfold memmove. destruct (_ && _) eqn:Hc; [| done]. intros [= <-].
  repeat (apply andb_prop in Hc as [Hc ?]).
  rewrite !length_app, !length_take, !length_drop. lia.
Qed.

Lemma store_length (mem mem' : list ptr) (i : Z) (v : ptr) :
  store mem i v = Done mem' → length mem' = length mem.
Proof.
  unfold store. destruct (_ && _); [| done]. intros [= <-]. apply length_insert.
Qed.

Lemma move_up_length (fuel : nat) :
  ∀ (rb : ringbuffer_t) (mem mem' : list ptr) (posRead posWrite count : Z),
    move_up fuel rb mem posRead posWrite count = Done mem' → length mem' = length mem.
Proof.
  induction fuel as [| fuel IH]; intros rb mem mem' posRead posWrite count H; [done |].
  simpl in H.
  apply bind_Done_inv in H as (mem1 & Hmv & H).
  apply bind_Done_inv in H as (pw & _ & H).
  apply bind_Done_inv in H as (pr & _ & H).
  apply memmove_length in Hmv.
  destruct (_ =? 0).
  - injection H as <-. done.
  - apply IH in H. congruence.
Qed.

Lemma move_down_length (fuel : nat) :
  ∀ (rb : ringbuffer_t) (mem mem' : list ptr) (posRead posWrite count : Z),
    move_down fuel rb mem posRead posWrite count = Done mem' → length mem' = length mem.
Proof.
  induction fuel as [| fuel IH]; intros rb mem mem' posRead posWrite count H; [done |].
  simpl in H.
  apply bind_Done_inv in H as (mem1 & Hmv & H).
  apply bind_Done_inv in H as (pw & _ & H).
  apply bind_Done_inv in H as (pr & _ & H).
  apply memmove_length in Hmv.
  destruct (_ =? 0).
  - injection H as <-. done.
  - apply IH in H. congruence.
Qed.

Lemma move_block (fuel : nat) (rb rb' : ringbuffer_t) (dest src count : Z) :
  ringbuffer_move fuel rb dest src count = Done rb' →
  ∃ mem mem', buffer rb = Some mem ∧ rb' = set_buffer rb (Some mem') ∧
              length mem' = length mem.
Proof.
  unfold ringbuffer_move. intros H.
  apply bind_Done_inv in H as (mem & Hmem & H). apply must_Done_inv in Hmem.
  destruct (dest <? src);
    apply bind_Done_inv in H as (pr & _ & H);
    apply bind_Done_inv in H as (pw & _ & H);
    apply bind_Done_inv in H as (mem' & Hloop & H);
    injection H as <-; exists mem, mem'; split; [done | | done |]; split; try done.
  - by apply move_up_length in Hloop.
  - by apply move_down_length in Hloop.
Qed.

Lemma put_block (rb rb' : ringbuffer_t) (p : Z) (v : ptr) :
  put rb p v = Done rb' →
  ∃ mem mem', buffer rb = Some mem ∧ rb' = set_buffer rb (Some mem') ∧
              length mem' = length mem.
Proof.
  unfold put. intros H.
  apply bind_Done_inv in H as (mem & Hmem & H). apply must_Done_inv in Hmem.
  apply bind_Done_inv in H as (mem' & Hst & H). apply store_length in Hst.
  injection H as <-. eauto.
Qed.

(** ** More on [ringbuffer_resize] *)

Lemma clamp_max (n : Z) :
  (if n <? RINGBUFFER_MIN_BUFFER_SIZE then RINGBUFFER_MIN_BUFFER_SIZE else n)
  = Z.max RINGBUFFER_MIN_BUFFER_SIZE n.
Proof. destruct (Z.ltb_spec n RINGBUFFER_MIN_BUFFER_SIZE); lia. Qed.

(** A resize releases nothing and leaves the allocator's policy alone. *)
Lemma resize_world (rb rb' : ringbuffer_t) (newSize r : Z) (w w' : world) :
  ringbuffer_resize rb newSize w = Done (r, rb', w') →
  released w' = released w ∧ allocator w' = allocator w.
Proof.
  unfold ringbuffer_resize. intros H. destruct (buffer rb) as [mem |].
  - destruct (_ <? elementCount rb); [by injection H as _ _ <- |].
    unfold jsonp_realloc in H.
    destruct (allocator w (alloc_calls w)); [| by injection H as _ _ <-].
    destruct (start rb >? _); [| by injection H as _ _ <-].
    apply bind_Done_inv in H as (lower & _ & H).
    destruct (_ <? lower).
    { apply bind_Done_inv in H as (m1 & _ & H). by injection H as _ _ <-. }
    destruct (lower >? _).
    + apply bind_Done_inv in H as (m1 & _ & H).
      apply bind_Done_inv in H as (m2 & _ & H). by injection H as _ _ <-.
    + apply bind_Done_inv in H as (m1 & _ & H). by injection H as _ _ <-.
  - unfold jsonp_malloc in H.
    destruct (allocator w (alloc_calls w)); by injection H as _ _ <-.
Qed.

(** A refused allocation: the resize reports failure and the structure is
    what it was. *)
Lemma resize_refused (rb : ringbuffer_t) (newSize : Z) (w : world) :
  allocator w (alloc_calls w) = None →
  ∃ w', ringbuffer_resize rb newSize w = Done (-1, rb, w') ∧ released w' = released w.
Proof.
  intros Hfail. unfold ringbuffer_resize. destruct (buffer rb).
  - destruct (_ <? elementCount rb); [by exists w |].
    unfold jsonp_realloc. rewrite Hfail. by exists (tick w).
  - unfold jsonp_malloc. rewrite Hfail. by exists (tick w).
Qed.

Lemma slot_take (mem : list ptr) (n : nat) (k : Z) :
  k < Z.of_nat n → slot (take n mem) k = slot mem k.
Proof.
  intros H. unfold slot. destruct (Z.ltb_spec k 0); [done |].
  apply lookup_take_lt. lia.
Qed.

(** Shrinking a buffer whose live range lies below the new capacity. *)
Lemma resize_shrink_low (rb : ringbuffer_t) (mem : list ptr) (newSize : Z) (w : world) :
  wf rb → buffer rb = Some mem →
  Z.max RINGBUFFER_MIN_BUFFER_SIZE newSize ≤ buffer_size rb →
  start rb + elementCount rb ≤ Z.max RINGBUFFER_MIN_BUFFER_SIZE newSize →
  start rb < Z.max RINGBUFFER_MIN_BUFFER_SIZE newSize →
  ∃ r rb',
    ringbuffer_resize rb newSize w = Done (r, rb', tick w) ∧
    (match allocator w (alloc_calls w) with
     | Some _ => r = 0 ∧ buffer_size rb' = Z.max RINGBUFFER_MIN_BUFFER_SIZE newSize
     | None => r = -1 ∧ rb' = rb
     end) ∧
    wf rb' ∧ start rb' = start rb ∧ elementCount rb' = elementCount rb ∧
    (∀ i, 0 ≤ i < elementCount rb → ringbuffer_get rb' i = ringbuffer_get rb i).
Proof.
  intros Hwf Hb Hle Hlow Hst'.
  pose proof SIZE_MODULUS_eq as HM. pose proof MAX_SLOTS_eq as HS.
  destruct (wf_Some _ _ Hwf Hb) as (Hlen & Hsz & Hst & Hc).
  unfold ringbuffer_resize. rewrite clamp_max, Hb.
  set (n := Z.max RINGBUFFER_MIN_BUFFER_SIZE newSize) in *.
  assert (Hn : RINGBUFFER_MIN_BUFFER_SIZE ≤ n) by lia.
  unfold RINGBUFFER_MIN_BUFFER_SIZE in *.
  destruct (Z.ltb_spec n (elementCount rb)); [lia |].
  unfold jsonp_realloc. destruct (allocator w (alloc_calls w)) as [junk |].
  - rewrite bytes_slots by lia.
    replace (Z.to_nat n - length mem)%nat with 0%nat by lia.
    unfold fresh_slots. simpl (junk <$> seq _ 0). rewrite app_nil_r.
    rewrite (wrap_small (buffer_size rb - elementCount rb)) by lia.
    rewrite Z.gtb_ltb.
    destruct (Z.ltb_spec (buffer_size rb - elementCount rb) (start rb)); [lia |].
    eexists _, _. split; [reflexivity |]. split; [done |].
    assert (Hwf' : wf (mk_ringbuffer n (start rb) (elementCount rb)
                         (Some (take (Z.to_nat n) mem)))).
    { unfold wf. simpl. rewrite length_take. unfold RINGBUFFER_MIN_BUFFER_SIZE. lia. }
    split; [exact Hwf' |]. split; [done |]. split; [done |].
    intros i Hi.
    erewrite get_wf; [| exact Hwf' | simpl; reflexivity | simpl; lia].
    rewrite (get_wf rb mem) by done. simpl. unfold load. f_equal.
    rewrite !Z.mod_small by lia. apply slot_take. lia.
  - eexists _, _. split; [reflexivity |]. done.
Qed.

(** The growth that an insertion into a full buffer asks for. *)
Lemma resize_double_wf (rb rb1 : ringbuffer_t) (failed : Z) (w w1 : world) :
  wf rb → elementCount rb = buffer_size rb → 2 * buffer_size rb < MAX_SLOTS →
  ringbuffer_resize rb (wrap (buffer_size rb * 2)) w = Done (failed, rb1, w1) →
  wf rb1 ∧ elementCount rb1 = elementCount rb ∧
  (failed = 0 → elementCount rb1 < buffer_size rb1) ∧
  (failed ≠ 0 → rb1 = rb).
Proof.
  intros Hwf Hfull Hmax Hre.
  pose proof SIZE_MODULUS_eq as HM. pose proof MAX_SLOTS_eq as HS.
  destruct (buffer rb) as [mem |] eqn:Hb.
  - destruct (wf_Some _ _ Hwf Hb) as (Hlen & Hsz & Hst & Hc).
    unfold RINGBUFFER_MIN_BUFFER_SIZE in *.
    rewrite wrap_small in Hre by lia.
    destruct (allocator w (alloc_calls w)) as [junk |] eqn:Hj.
    + destruct (resize_grow rb mem (buffer_size rb * 2) w junk Hwf Hb)
        as (rb' & Hre' & Hwf' & Hsz' & Hc' & _); [lia | done |].
      rewrite Hre' in Hre. injection Hre as <- <- <-.
      split; [done |]. split; [done |]. split; [lia | done].
    + revert Hre. unfold ringbuffer_resize. rewrite Hb.
      destruct (_ <? elementCount rb); [by intros [= <- <- <-] |].
      unfold jsonp_realloc. rewrite Hj. by intros [= <- <- <-].
  - unfold wf in Hwf. rewrite Hb in Hwf. destruct Hwf as (Hsz & Hst & Hc).
    revert Hre. rewrite Hsz. simpl (wrap (0 * 2)).
    unfold ringbuffer_resize. rewrite Hb. simpl (if _ <? _ then _ else _).
    unfold jsonp_malloc. destruct (allocator w (alloc_calls w)) as [junk |].
    + intros [= <- <- <-]. split.
      { unfold wf. simpl. rewrite Hst, Hc. vm_compute. intuition congruence. }
      simpl. rewrite Hc. unfold RINGBUFFER_MIN_BUFFER_SIZE. split; [done |]. split; [lia | done].
    + intros [= <- <- <-]. split; [| done].
      unfold wf. rewrite Hb. done.
Qed.

(** ** The loops of [ringbuffer_move] *)

(** Every turn of the forward loop copies at least one slot and stays
    inside the block, so the loop is over after at most [count] turns. *)
Lemma move_up_returns (fuel : nat) :
  ∀ (rb : ringbuffer_t) (mem : list ptr) (posRead posWrite count : Z),
    Z.of_nat (length mem) = buffer_size rb → 0 ≤ start rb < buffer_size rb →
    0 ≤ posRead < buffer_size rb → 0 ≤ posWrite < buffer_size rb →
    0 ≤ count < MAX_SLOTS → count ≤ Z.of_nat fuel → (1 ≤ fuel)%nat →
    ∃ mem', move_up fuel rb mem posRead posWrite count = Done mem'.
Proof.
  pose proof SIZE_MODULUS_eq as HM. pose proof MAX_SLOTS_eq as HS.
  induction fuel as [| fuel IH];
    intros rb mem posRead posWrite count Hlen Hst Hr Hw Hc Hfuel Hpos; [lia |].
  simpl.
  set (rc := Z.min (Z.min (buffer_size rb - posRead) (buffer_size rb - posWrite)) count).
  assert (Hrc : 0 ≤ rc ≤ count ∧ rc ≤ buffer_size rb - posRead
                ∧ rc ≤ buffer_size rb - posWrite ∧ (1 ≤ count → 1 ≤ rc)) by lia.
  destruct (memmove_spec mem posWrite posRead rc) as (mem1 & Hmv & Hl1 & _); try lia.
  rewrite Hmv, bind_Done.
  rewrite umod_Done by lia. rewrite (Z.mod_small (start rb)) by lia.
  rewrite (wrap_small (count - rc)) by lia.
  destruct (Z.eqb_spec (count - rc) 0) as [Hz | Hnz].
  { destruct (_ =? _), (_ =? _); simpl; eauto. }
  assert (Hnext : ∀ pr pw, 0 ≤ pr < buffer_size rb → 0 ≤ pw < buffer_size rb →
            ∃ mem', move_up fuel rb mem1 pr pw (count - rc) = Done mem').
  { intros pr pw Hpr Hpw. apply IH; try done; try lia. }
  destruct (Z.eqb_spec (posWrite + rc) (buffer_size rb)),
           (Z.eqb_spec (posRead + rc) (buffer_size rb)); simpl; apply Hnext; lia.
Qed.

(** When neither range reaches the end of the block the loop is one
    [memmove]. *)
Lemma move_up_once (fuel : nat) (rb : ringbuffer_t) (mem : list ptr)
    (posRead posWrite count : Z) :
  Z.of_nat (length mem) = buffer_size rb → 0 ≤ start rb < buffer_size rb →
  0 ≤ posRead → 0 ≤ posWrite → 1 ≤ count < MAX_SLOTS →
  posRead + count ≤ buffer_size rb → posWrite + count ≤ buffer_size rb →
  ∃ mem', move_up (S fuel) rb mem posRead posWrite count = Done mem' ∧
          length mem' = length mem ∧
          ∀ k, slot mem' k =
               if (posWrite <=? k) && (k <? posWrite + count)
               then slot mem (posRead + (k - posWrite)) else slot mem k.
Proof.
  intros Hlen Hst Hr Hw Hc Hrc Hwc.
  pose proof SIZE_MODULUS_eq as HM. pose proof MAX_SLOTS_eq as HS.
  simpl.
  replace (Z.min (Z.min (buffer_size rb - posRead) (buffer_size rb - posWrite)) count)
    with count by lia.
  destruct (memmove_spec mem posWrite posRead count) as (mem1 & Hmv & Hl1 & Hslots);
    try lia.
  rewrite Hmv, bind_Done. rewrite umod_Done by lia.
  rewrite Z.sub_diag. change (wrap 0 =? 0) with true.
  exists mem1. split; [| done].
  destruct (_ =? _), (_ =? _); done.
Qed.

(** A [memmove] of no bytes between valid pointers changes nothing. *)
Lemma memmove_nothing (mem : list ptr) (dst src : Z) :
  0 ≤ dst ≤ Z.of_nat (length mem) → 0 ≤ src ≤ Z.of_nat (length mem) →
  memmove mem dst src (wrap (0 * PTR_BYTES)) = Done mem.
Proof.
  intros Hd Hs. unfold memmove. change (wrap (0 * PTR_BYTES) / PTR_BYTES) with 0.
  rewrite Z.add_0_r.
  destruct (Z.leb_spec 0 dst); [| lia]. destruct (Z.leb_spec 0 src); [| lia].
  destruct (Z.leb_spec dst (Z.of_nat (length mem))); [| lia].
  rewrite Z.add_0_r. destruct (Z.leb_spec src (Z.of_nat (length mem))); [| lia].
  simpl. by rewrite take_drop.
Qed.

(** With [start = 1] a write pointer on slot 0 is reset to slot 0: the
    loop copies nothing and its state does not change. *)
Lemma move_down_stuck (fuel : nat) :
  ∀ (rb : ringbuffer_t) (mem : list ptr) (posRead count : Z),
    start rb = 1 → 2 ≤ buffer_size rb < MAX_SLOTS →
    1 ≤ posRead ≤ Z.of_nat (length mem) → 1 ≤ count < SIZE_MODULUS →
    move_down fuel rb mem posRead 0 count = OutOfFuel.
Proof.
  pose proof SIZE_MODULUS_eq as HM. pose proof MAX_SLOTS_eq as HS.
  induction fuel as [| fuel IH]; intros rb mem posRead count Hst Hsz Hr Hc; [done |].
  simpl. rewrite !Z.sub_0_r.
  replace (Z.min (Z.min posRead 0) count) with 0 by lia.
  rewrite memmove_nothing by lia. rewrite bind_Done.
  rewrite !Z.sub_0_r. rewrite Z.eqb_refl.
  rewrite Hst. rewrite (wrap_small (1 + buffer_size rb)) by lia.
  rewrite (wrap_small (1 + buffer_size rb - 1)) by lia.
  rewrite umod_Done by lia. rewrite bind_Done.
  replace (1 + buffer_size rb - 1) with (buffer_size rb) by lia.
  rewrite Z_mod_same_full.
  destruct (Z.eqb_spec posRead 0); [lia |]. rewrite bind_Done.
  rewrite (wrap_small count) by lia.
  destruct (Z.eqb_spec count 0); [lia |].
  by apply IH.
Qed.

(** When one element is moved and neither pointer stands on slot 0 the
    backward loop is one [memmove] of that element. *)
Lemma move_down_one (fuel : nat) (rb : ringbuffer_t) (mem : list ptr)
    (posRead posWrite : Z) :
  buffer_size rb ≠ 0 →
  1 ≤ posRead < Z.of_nat (length mem) → 1 ≤ posWrite < Z.of_nat (length mem) →
  ∃ mem', move_down (S fuel) rb mem posRead posWrite 1 = Done mem' ∧
          length mem' = length mem ∧
          ∀ k, slot mem' k = if k =? posWrite then slot mem posRead else slot mem k.
Proof.
  intros Hsz Hr Hw.
  pose proof SIZE_MODULUS_eq as HM. pose proof MAX_SLOTS_eq as HS.
  simpl. rewrite !Z.sub_0_r.
  replace (Z.min (Z.min posRead posWrite) 1) with 1 by lia.
  destruct (memmove_spec mem posWrite posRead 1) as (mem1 & Hmv & Hl1 & Hslots);
    try lia.
  rewrite Hmv, bind_Done. rewrite umod_Done by done.
  change (wrap (1 - 1) =? 0) with true.
  exists mem1. split.
  { destruct (_ =? _), (_ =? _); done. }
  split; [done |]. intros k. rewrite Hslots.
  zcases; simpl; try lia; try done. f_equal. lia.
Qed.

(** ** Steps of insertion and deletion *)

(** Placing a value in a buffer that has room leaves a well-formed
    buffer behind, wherever the value goes. *)
Lemma insert_place_wf (fuel : nat) (rb rb' : ringbuffer_t) (index : Z) (value : ptr) :
  wf rb → elementCount rb < buffer_size rb →
  insert_place fuel rb index value = Done rb' →
  wf (set_elementCount rb' (elementCount rb + 1)) ∧ elementCount rb' = elementCount rb.
Proof.
  intros Hwf Hroom H.
  pose proof SIZE_MODULUS_eq as HM. pose proof MAX_SLOTS_eq as HS.
  destruct (buffer rb) as [mem |] eqn:Hb.
  2:{ unfold wf in Hwf. rewrite Hb in Hwf. lia. }
  destruct (wf_Some _ _ Hwf Hb) as (Hlen & Hsz & Hst & Hc).
  unfold RINGBUFFER_MIN_BUFFER_SIZE in *.
  assert (Hprev : 0 ≤ (wrap (wrap (start rb + buffer_size rb) - 1)) mod buffer_size rb
                  < buffer_size rb).
  { apply Z.mod_pos_bound. lia. }
  assert (Hgoal : ∀ s mem', 0 ≤ s < buffer_size rb → length mem' = length mem →
            wf (set_elementCount (set_buffer (set_start rb s) (Some mem'))
                  (elementCount rb + 1))).
  { intros s mem' Hs Hl. unfold wf. simpl. unfold RINGBUFFER_MIN_BUFFER_SIZE. lia. }
  revert H. unfold insert_place.
  destruct (index =? elementCount rb).
  { intros H. apply bind_Done_inv in H as (p & _ & H).
    apply put_block in H as (m & m' & Hm & -> & Hl).
    rewrite Hb in Hm. injection Hm as <-.
    split; [| done]. apply (Hgoal (start rb) m'); done. }
  destruct (index =? 0).
  { intros H. apply bind_Done_inv in H as (s & Hs & H).
    rewrite umod_Done in Hs by lia. injection Hs as <-.
    apply put_block in H as (m & m' & Hm & -> & Hl).
    simpl in Hm. rewrite Hb in Hm. injection Hm as <-.
    split; [| done]. apply (Hgoal _ m'); done. }
  destruct (index <=? elementCount rb / 2).
  { intros H. apply bind_Done_inv in H as (s & Hs & H).
    rewrite umod_Done in Hs by lia. injection Hs as <-.
    apply bind_Done_inv in H as (rb1 & Hmv & H).
    apply move_block in Hmv as (m & m1 & Hm & -> & Hl1).
    simpl in Hm. rewrite Hb in Hm. injection Hm as <-.
    apply bind_Done_inv in H as (p & _ & H).
    apply put_block in H as (m & m' & Hm & -> & Hl).
    simpl in Hm. injection Hm as <-.
    split; [| done]. apply (Hgoal _ m'); [done | congruence]. }
  intros H. apply bind_Done_inv in H as (rb1 & Hmv & H).
  apply move_block in Hmv as (m & m1 & Hm & -> & Hl1).
  rewrite Hb in Hm. injection Hm as <-.
  apply bind_Done_inv in H as (p & _ & H).
  apply put_block in H as (m & m' & Hm & -> & Hl).
  simpl in Hm. injection Hm as <-.
  split; [| done]. apply (Hgoal (start rb) m'); [done | congruence].
Qed.

Lemma insert_place_front (fuel : nat) (rb : ringbuffer_t) (mem : list ptr) (v : ptr) :
  wf rb → buffer rb = Some mem → 1 ≤ elementCount rb →
  elementCount rb < buffer_size rb →
  ∃ rb', insert_place fuel rb 0 v = Done rb' ∧
         wf (set_elementCount rb' (elementCount rb' + 1)) ∧
         elementCount rb' = elementCount rb ∧ buffer_size rb' = buffer_size rb ∧
         ringbuffer_get (set_elementCount rb' (elementCount rb' + 1)) 0 = Done v ∧
         (∀ i, 0 ≤ i < elementCount rb →
               ringbuffer_get (set_elementCount rb' (elementCount rb' + 1)) (i + 1)
               = ringbuffer_get rb i) ∧
         start rb' = (start rb + buffer_size rb - 1) mod buffer_size rb ∧
         buffer rb' = Some (<[Z.to_nat (start rb') := v]> mem).
Proof.
  intros Hwf Hb Hne Hroom.
  destruct (wf_Some _ _ Hwf Hb) as (Hlen & Hsz & Hst & Hc).
  pose proof SIZE_MODULUS_eq as HM. pose proof MAX_SLOTS_eq as HS.
  unfold RINGBUFFER_MIN_BUFFER_SIZE in *.
  unfold insert_place.
  destruct (Z.eqb_spec 0 (elementCount rb)); [lia |]. rewrite Z.eqb_refl.
  rewrite (wrap_small (start rb + buffer_size rb)) by lia.
  rewrite (wrap_small (start rb + buffer_size rb - 1)) by lia.
  rewrite umod_Done by lia. rewrite bind_Done.
  set (s := (start rb + buffer_size rb - 1) mod buffer_size rb).
  assert (Hs : 0 ≤ s < buffer_size rb) by (apply Z.mod_pos_bound; lia).
  unfold put. cbn [buffer set_start start]. rewrite Hb. simpl must. rewrite bind_Done.
  rewrite store_Done by lia. rewrite bind_Done.
  eexists. split; [reflexivity |].
  set (rb' := set_elementCount _ _).
  assert (Hwf' : wf rb').
  { unfold wf, rb'. simpl. rewrite length_insert. unfold RINGBUFFER_MIN_BUFFER_SIZE. lia. }
  split; [exact Hwf' |]. split; [done |]. split; [done |].
  split; [| split; [| done]].
  - erewrite get_wf; [| exact Hwf' | simpl; reflexivity | simpl; lia].
    simpl. unfold load. rewrite slot_insert by lia.
    rewrite Z.add_0_r, Z.mod_small by lia. by rewrite Z.eqb_refl.
  - intros i Hi.
    erewrite get_wf; [| exact Hwf' | simpl; reflexivity | simpl; lia].
    rewrite (get_wf rb mem) by done. simpl. unfold load. rewrite slot_insert by lia.
    assert (Hsval : s = if start rb =? 0 then buffer_size rb - 1 else start rb - 1).
    { unfold s. rewrite mod_once by lia. zcases; lia. }
    assert (Hslot : (s + (i + 1)) mod buffer_size rb = (start rb + i) mod buffer_size rb).
    { rewrite Hsval. rewrite !mod_once by (zcases; lia). zcases; lia. }
    rewrite Hslot.
    destruct (Z.eqb_spec ((start rb + i) mod buffer_size rb) s) as [E | E]; [| done].
    exfalso. revert E. rewrite Hsval. rewrite !mod_once by lia. zcases; lia.
Qed.

(** The end of [ringbuffer_del]: the shrink, when the live range that is
    left lies below the new capacity. *)
Lemma del_shrink_low (rb : ringbuffer_t) (w : world) :
  wf rb → is_Some (buffer rb) →
  (elementCount rb < buffer_size rb / 8 →
   start rb + elementCount rb ≤ Z.max RINGBUFFER_MIN_BUFFER_SIZE (buffer_size rb / 2) ∧
   start rb < Z.max RINGBUFFER_MIN_BUFFER_SIZE (buffer_size rb / 2)) →
  ∃ rb' w',
    (if elementCount rb <? buffer_size rb / 8
     then '(_, rb, w) ← ringbuffer_resize rb (buffer_size rb / 2) w; Done (0, rb, w)
     else Done (0, rb, w)) = Done (0, rb', w') ∧
    wf rb' ∧ elementCount rb' = elementCount rb ∧ start rb' = start rb ∧
    released w' = released w ∧
    (∀ i, 0 ≤ i < elementCount rb → ringbuffer_get rb' i = ringbuffer_get rb i).
Proof.
  intros Hwf [mem Hb] Hlow.
  destruct (wf_Some _ _ Hwf Hb) as (Hlen & Hsz & Hst & Hc).
  destruct (Z.ltb_spec (elementCount rb) (buffer_size rb / 8)) as [Hshrink | Hkeep].
  - destruct (Hlow Hshrink) as [Hrange Hstart].
    destruct (resize_shrink_low rb mem (buffer_size rb / 2) w Hwf Hb)
      as (r & rb' & Hre & _ & Hwf' & Hs & Hc' & Hget); try done.
    { unfold RINGBUFFER_MIN_BUFFER_SIZE in *.
      assert (buffer_size rb / 2 ≤ buffer_size rb) by (apply Z.div_le_upper_bound; lia).
      lia. }
    exists rb', (tick w). rewrite Hre. done.
  - exists rb, w. done.
Qed.

(** What the closing of the gap leaves behind. *)
Lemma del_shift_wf (fuel : nat) (rb rb' : ringbuffer_t) (index : Z) :
  wf rb → 1 ≤ elementCount rb →
  del_shift fuel rb index = Done rb' →
  wf (set_elementCount rb' (elementCount rb - 1)) ∧ is_Some (buffer rb').
Proof.
  intros Hwf Hne H.
  pose proof SIZE_MODULUS_eq as HM. pose proof MAX_SLOTS_eq as HS.
  destruct (buffer rb) as [mem |] eqn:Hb.
  2:{ unfold wf in Hwf. rewrite Hb in Hwf. lia. }
  destruct (wf_Some _ _ Hwf Hb) as (Hlen & Hsz & Hst & Hc).
  unfold RINGBUFFER_MIN_BUFFER_SIZE in *.
  assert (Hnext : 0 ≤ wrap (start rb + 1) mod buffer_size rb < buffer_size rb).
  { apply Z.mod_pos_bound. lia. }
  assert (Hgoal : ∀ s mem', 0 ≤ s < buffer_size rb → length mem' = length mem →
            wf (set_elementCount (set_start (set_buffer rb (Some mem')) s)
                  (elementCount rb - 1))).
  { intros s mem' Hs Hl. unfold wf. simpl. unfold RINGBUFFER_MIN_BUFFER_SIZE. lia. }
  revert H. unfold del_shift.
  destruct (index =? wrap (elementCount rb - 1)).
  { intros [= <-]. split; [| rewrite Hb; eauto].
    unfold wf. simpl. rewrite Hb. unfold RINGBUFFER_MIN_BUFFER_SIZE. lia. }
  destruct (index =? 0).
  { intros H. apply bind_Done_inv in H as (s & Hs & H).
    rewrite umod_Done in Hs by lia. injection Hs as <-. injection H as <-.
    split; [| simpl; rewrite Hb; eauto].
    unfold wf. simpl. rewrite Hb. unfold RINGBUFFER_MIN_BUFFER_SIZE. lia. }
  destruct (index <? elementCount rb / 2).
  { intros H. apply bind_Done_inv in H as (rb1 & Hmv & H).
    apply move_block in Hmv as (m & m1 & Hm & -> & Hl1).
    rewrite Hb in Hm. injection Hm as <-.
    apply bind_Done_inv in H as (s & Hs & H).
    cbn [start buffer_size set_buffer] in Hs.
    rewrite umod_Done in Hs by lia. injection Hs as <-. injection H as <-.
    split; [| simpl; eauto]. by apply Hgoal. }
  intros H. apply move_block in H as (m & m1 & Hm & -> & Hl1).
  rewrite Hb in Hm. injection Hm as <-.
  split; [| simpl; eauto].
  unfold wf. simpl. unfold RINGBUFFER_MIN_BUFFER_SIZE. lia.
Qed.

(** Appending a list of values to a well-formed buffer. *)
Lemma append_each_spec (fuel : nat) (vs : list ptr) :
  ∀ (rb : ringbuffer_t) (w : world),
    wf rb → grants_all w → 2 * (elementCount rb + Z.of_nat (length vs)) ≤ MAX_SLOTS →
    ∃ rb' w',
      append_each fuel vs rb w = Done (rb', w') ∧
      wf rb' ∧ elementCount rb' = elementCount rb + Z.of_nat (length vs) ∧
      released w' = released w ∧
      (start rb = 0 → start rb' = 0) ∧
      buffer_size rb'
        ≤ Z.max (Z.max RINGBUFFER_MIN_BUFFER_SIZE (buffer_size rb))
                (2 * elementCount rb' - 2) ∧
      (∀ i, 0 ≤ i < elementCount rb → ringbuffer_get rb' i = ringbuffer_get rb i) ∧
      (∀ (k : nat) (v : ptr), vs !! k = Some v →
          ringbuffer_get rb' (elementCount rb + Z.of_nat k) = Done v).
Proof.
  induction vs as [| v vs IH]; intros rb w Hwf Hall Hmax.
  { exists rb, w. simpl. repeat split; try done; lia. }
  simpl length in Hmax.
  assert (Hrange : 0 ≤ elementCount rb ≤ buffer_size rb).
  { revert Hwf. unfold wf, RINGBUFFER_MIN_BUFFER_SIZE. destruct (buffer rb); lia. }
  destruct (append_ok fuel rb v w Hwf) as
    (rb1 & w1 & Happ & Hwf1 & _ & Hc1 & Hsz1 & Hst1 & Ha1 & Hrel1 & Hnew1 & Hold1);
    [lia | intros; apply Hall |].
  destruct (IH rb1 w1 Hwf1) as
    (rb' & w' & Hrun & Hwf' & Hc' & Hrel' & Hst' & Hcap' & Hold' & Hnew').
  { intros k. rewrite Ha1. apply Hall. }
  { lia. }
  exists rb', w'. simpl. rewrite Happ. simpl. rewrite Hrun.
  split; [done |]. split; [done |]. split; [simpl length; lia |].
  split; [congruence |]. split.
  { intros Hs0. apply Hst'. rewrite Hst1; [done |]. unfold wraps. lia. }
  split.
  { revert Hcap'. rewrite Hsz1.
    destruct (Z.eqb_spec (elementCount rb) (buffer_size rb));
      unfold RINGBUFFER_MIN_BUFFER_SIZE; lia. }
  split.
  - intros i Hi. rewrite Hold' by lia. apply Hold1. done.
  - intros [| k] v' Hk.
    + injection Hk as <-. rewrite Z.add_0_r. rewrite Hold' by lia. done.
    + simpl in Hk. rewrite <- (Hnew' k v' Hk). f_equal. lia.
Qed.

Lemma clear_loop_releases (todo : nat) :
  ∀ (rb : ringbuffer_t) (i : Z) (w : world),
    wf rb → 0 ≤ i → i + Z.of_nat todo ≤ elementCount rb →
    ∃ vs w',
      (λ k : nat, ringbuffer_get rb (i + Z.of_nat k)) <$> seq 0 todo = Done <$> vs ∧
      clear_loop todo rb i w = Done w' ∧
      released w' = reverse vs ++ released w ∧
      allocator w' = allocator w ∧ alloc_calls w' = alloc_calls w ∧
      freed w' = freed w.
Proof.
  pose proof SIZE_MODULUS_eq as HM. pose proof MAX_SLOTS_eq as HS.
  induction todo as [| todo IH]; intros rb i w Hwf Hi Hn.
  { by exists [], w. }
  destruct (get_Done rb i Hwf) as [v Hv]; [lia |].
  assert (Hc : elementCount rb < MAX_SLOTS).
  { revert Hwf. unfold wf. destruct (buffer rb); lia. }
  destruct (IH rb (i + 1) (json_decref v w) Hwf)
    as (vs & w' & Hvs & Hrun & Hrel & Ha & Hk & Hf); [lia | lia |].
  exists (v :: vs), w'. split; [| split; [| split; [| done]]].
  - cbn [seq fmap list_fmap]. rewrite Z.add_0_r, Hv. f_equal.
    rewrite <- fmap_S_seq, <- list_fmap_compose, <- Hvs.
    apply list_fmap_ext. intros _ k _. simpl. f_equal. lia.
  - simpl. rewrite Hv. simpl. rewrite wrap_small by lia. exact Hrun.
  - rewrite Hrel, reverse_cons, <- app_assoc. done.
Qed.

Lemma sparse16_reachable :
  ('(rb, w) ← append_each 0 [1; 2; 3; 4; 5; 6; 7; 8; 9] ringbuffer_init marking_world;
   '(rb, w) ← del_front 0 2 rb w;
   '(_, rb, w) ← ringbuffer_del 0 rb 6 w;
   '(_, rb, w) ← ringbuffer_del 0 rb 5 w;
   '(_, rb, w) ← ringbuffer_del 0 rb 4 w;
   '(_, rb, w) ← ringbuffer_del 0 rb 3 w;
   '(_, rb, w) ← ringbuffer_del 0 rb 2 w;
   Done rb) = Done sparse16.
Proof. reflexivity. Qed.

(** ** Insertion *)

(** X1. [ringbuffer_append] on a well-formed buffer, the growth granted
    when the buffer is full: it returns 0, the result is well-formed with
    one element more, the new value is the last element, every element
    that was there is where it was, and nothing is released. *)
Theorem append_keeps_elements (fuel : nat) (rb : ringbuffer_t) (value : ptr) (w : world) :
  wf rb → 2 * elementCount rb < MAX_SLOTS →
  (elementCount rb = buffer_size rb → is_Some (allocator w (alloc_calls w))) →
  ∃ rb' w',
    ringbuffer_append fuel rb value w = Done (0, rb', w') ∧
    wf rb' ∧ elementCount rb' = elementCount rb + 1 ∧
    released w' = released w ∧
    ringbuffer_get rb' (elementCount rb) = Done value ∧
    (∀ i, 0 ≤ i < elementCount rb → ringbuffer_get rb' i = ringbuffer_get rb i).
Proof.
  intros Hwf Hmax Halloc.
  destruct (append_ok fuel rb value w Hwf Hmax Halloc)
    as (rb' & w' & H & Hwf' & _ & Hc & _ & _ & _ & Hrel & Hnew & Hold).
  exists rb', w'. done.
Qed.

Lemma append_keeps_elements_witness :
  ∃ rb' w',
    ringbuffer_append 0 full8 9 granting_world = Done (0, rb', w') ∧
    wf rb' ∧ elementCount rb' = elementCount full8 + 1 ∧
    released w' = released granting_world ∧
    ringbuffer_get rb' (elementCount full8) = Done 9 ∧
    (∀ i, 0 ≤ i < elementCount full8 → ringbuffer_get rb' i = ringbuffer_get full8 i).
Proof.
  apply (append_keeps_elements 0 full8 9 granting_world).
  - wf_concrete.
  - simpl. rewrite MAX_SLOTS_eq. lia.
  - intros _. simpl. eauto.
Defined.

(** X2. Round trip: appending the values of a list to an empty buffer,
    with a granting allocator, succeeds, and reading the buffer back from
    index 0 gives the list. The live range starts at slot 0 and the
    capacity stays within [max(8, 2n - 2)] for [n] values. *)
Theorem append_then_read_back (fuel : nat) (vs : list ptr) (w : world) :
  grants_all w → 2 * Z.of_nat (length vs) ≤ MAX_SLOTS →
  ∃ rb w',
    append_each fuel vs ringbuffer_init w = Done (rb, w') ∧
    wf rb ∧ elementCount rb = Z.of_nat (length vs) ∧
    contents rb = Done <$> vs ∧
    start rb = 0 ∧
    buffer_size rb ≤ Z.max RINGBUFFER_MIN_BUFFER_SIZE (2 * Z.of_nat (length vs) - 2) ∧
    released w' = released w.
Proof.
  intros Hall Hmax.
  destruct (append_each_spec fuel vs ringbuffer_init w)
    as (rb & w' & Hrun & Hwf & Hc & Hrel & Hst & Hcap & _ & Hnew);
    [by unfold wf | done | simpl; lia |].
  cbn [elementCount buffer_size ringbuffer_init] in Hc, Hcap, Hnew.
  rewrite Z.add_0_l in Hc.
  assert (Hnew0 : ∀ (k : nat) (v : ptr),
            vs !! k = Some v → ringbuffer_get rb (Z.of_nat k) = Done v).
  { intros k v Hk. rewrite <- (Hnew k v Hk). f_equal. }
  exists rb, w'. split; [done |]. split; [done |]. split; [done |].
  split; [| split; [by apply Hst | split; [| done]]].
  - unfold contents. rewrite Hc, Nat2Z.id. apply list_eq. intros k.
    rewrite !list_lookup_fmap.
    destruct (vs !! k) as [v |] eqn:Hk.
    + rewrite lookup_seq_lt by (by eapply lookup_lt_Some). simpl.
      by rewrite (Hnew0 k v Hk).
    + rewrite lookup_seq_ge; [done |]. by apply lookup_ge_None.
  - rewrite Hc in Hcap. unfold RINGBUFFER_MIN_BUFFER_SIZE in *. lia.
Qed.

Lemma append_then_read_back_witness :
  ∃ rb w',
    append_each 0 [1; 2; 3; 4; 5; 6; 7; 8; 9] ringbuffer_init granting_world
    = Done (rb, w') ∧
    wf rb ∧ elementCount rb = 9 ∧
    contents rb = Done <$> [1; 2; 3; 4; 5; 6; 7; 8; 9] ∧
    start rb = 0 ∧
    buffer_size rb ≤ 16 ∧
    released w' = released granting_world.
Proof.
  apply (append_then_read_back 0 [1; 2; 3; 4; 5; 6; 7; 8; 9] granting_world).
  - by apply grants_all_granting.
  - simpl. rewrite MAX_SLOTS_eq. lia.
Defined.

(** X3. [ringbuffer_insert(rb, 0, value)] on a non-empty well-formed
    buffer, the growth granted when the buffer is full: it returns 0, the
    value is element 0 and every old element [i] is element [i + 1]. When
    the buffer has room nothing is copied and the allocator is not called:
    [start] steps back by one slot, around the block end if need be, and
    the storage is the old one with the value written to that slot. (A full
    buffer is grown first, which may relocate elements.) *)
Theorem prepend_goes_first (fuel : nat) (rb : ringbuffer_t) (value : ptr) (w : world) :
  wf rb → 1 ≤ elementCount rb → 2 * elementCount rb < MAX_SLOTS →
  (elementCount rb = buffer_size rb → is_Some (allocator w (alloc_calls w))) →
  ∃ rb' w',
    ringbuffer_insert fuel rb 0 value w = Done (0, rb', w') ∧
    wf rb' ∧ elementCount rb' = elementCount rb + 1 ∧
    released w' = released w ∧
    ringbuffer_get rb' 0 = Done value ∧
    (∀ i, 0 ≤ i < elementCount rb → ringbuffer_get rb' (i + 1) = ringbuffer_get rb i) ∧
    (elementCount rb < buffer_size rb →
     w' = w ∧ buffer_size rb' = buffer_size rb ∧
     start rb' = (start rb + buffer_size rb - 1) mod buffer_size rb ∧
     ∀ mem, buffer rb = Some mem →
            buffer rb' = Some (<[Z.to_nat (start rb') := value]> mem)).
Proof.
  intros Hwf Hne Hmax Halloc.
  pose proof SIZE_MODULUS_eq as HM. pose proof MAX_SLOTS_eq as HS.
  destruct (buffer rb) as [mem |] eqn:Hb.
  2:{ unfold wf in Hwf. rewrite Hb in Hwf. lia. }
  destruct (wf_Some _ _ Hwf Hb) as (Hlen & Hsz & Hst & Hc).
  unfold RINGBUFFER_MIN_BUFFER_SIZE in *.
  assert (Hgrown : ∃ rb1 w1 mem1,
            (if elementCount rb =? buffer_size rb
             then ringbuffer_resize rb (wrap (buffer_size rb * 2)) w
             else Done (0, rb, w)) = Done (0, rb1, w1) ∧
            wf rb1 ∧ buffer rb1 = Some mem1 ∧ elementCount rb1 = elementCount rb ∧
            elementCount rb1 < buffer_size rb1 ∧ released w1 = released w ∧
            (∀ i, 0 ≤ i < elementCount rb → ringbuffer_get rb1 i = ringbuffer_get rb i) ∧
            (elementCount rb < buffer_size rb → rb1 = rb ∧ w1 = w)).
  { destruct (Z.eqb_spec (elementCount rb) (buffer_size rb)) as [Hfull | Hroom].
    - destruct (Halloc Hfull) as [junk Hj].
      rewrite (wrap_small (buffer_size rb * 2)) by lia.
      destruct (resize_grow rb mem (buffer_size rb * 2) w junk Hwf Hb)
        as (rb1 & Hre & Hwf1 & Hsz1 & Hc1 & _ & Hget1); [lia | done |].
      assert (is_Some (buffer rb1)) as [mem1 Hb1].
      { revert Hwf1. unfold wf. destruct (buffer rb1); [eauto | lia]. }
      exists rb1, (tick w), mem1. repeat split; try done; lia.
    - exists rb, w, mem. repeat split; try done; lia. }
  destruct Hgrown
    as (rb1 & w1 & mem1 & Hre & Hwf1 & Hb1 & Hc1 & Hroom1 & Hrel & Hget1 & Hsame).
  destruct (insert_place_front fuel rb1 mem1 value Hwf1 Hb1)
    as (rb2 & Hpl & Hwf2 & Hc2 & Hsz2 & Hg0 & Hgs & Hst2 & Hb2); [lia | lia |].
  unfold ringbuffer_insert. rewrite Z.gtb_ltb.
  destruct (Z.ltb_spec (elementCount rb) 0); [lia |].
  rewrite Hre, bind_Done. simpl negb. cbv iota.
  rewrite Hpl, bind_Done.
  rewrite (wrap_small (elementCount rb2 + 1)) by lia.
  eexists _, _. split; [reflexivity |].
  split; [done |]. split; [simpl; lia |]. split; [done |]. split; [done |].
  split.
  - intros i Hi. rewrite Hgs by lia. apply Hget1. lia.
  - intros Hroom. destruct (Hsame Hroom) as [-> ->]. simpl.
    split; [done |]. split; [done |]. split; [done |].
    intros mem0 Hmem0. rewrite Hb2. congruence.
Qed.

Lemma prepend_goes_first_witness :
  (∃ rb' w',
     ringbuffer_insert 0 full8 0 42 granting_world = Done (0, rb', w') ∧
     wf rb' ∧ elementCount rb' = elementCount full8 + 1 ∧
     ringbuffer_get rb' 0 = Done 42 ∧
     (∀ i, 0 ≤ i < elementCount full8 →
           ringbuffer_get rb' (i + 1) = ringbuffer_get full8 i)) ∧
  (∃ rb',
     ringbuffer_insert 0 five 0 42 marking_world = Done (0, rb', marking_world) ∧
     start rb' = 7 ∧
     buffer rb' = Some [1; 2; 3; 4; 5; 1005; 1006; 42]).
Proof.
  split.
  - destruct (prepend_goes_first 0 full8 42 granting_world)
      as (rb' & w' & Hrun & Hwf & Hc & _ & Hg0 & Hgs & _).
    + wf_concrete.
    + simpl. lia.
    + simpl. rewrite MAX_SLOTS_eq. lia.
    + intros _. simpl. eauto.
    + exists rb', w'. split; [exact Hrun |]. split; [exact Hwf |].
      split; [exact Hc |]. split; [exact Hg0 | exact Hgs].
  - destruct (prepend_goes_first 0 five 42 marking_world)
      as (rb' & w' & Hrun & _ & _ & _ & _ & _ & Hroom).
    + wf_concrete.
    + simpl. lia.
    + simpl. rewrite MAX_SLOTS_eq. lia.
    + simpl. lia.
    + destruct Hroom as (Hw & _ & Hst & Hmem); [simpl; lia |].
      exists rb'. split; [rewrite Hw in Hrun; exact Hrun |].
      split; [rewrite Hst; reflexivity |].
      rewrite (Hmem _ eq_refl), Hst. reflexivity.
Defined.

(** X4. An insertion into the front half, [0 < index <= count / 2], of a
    buffer with room whose [start] is not slot 0 and whose first [index]
    elements do not cross the block end: the forward loop of
    [ringbuffer_move] is a single [memmove] and the result is the naive
    insertion. *)
Theorem insert_front_half_shifts_left (fuel : nat) (rb : ringbuffer_t) (index : Z)
    (value : ptr) (w : world) :
  wf rb → elementCount rb < buffer_size rb →
  0 < index → index ≤ elementCount rb / 2 → index < elementCount rb →
  1 ≤ start rb → start rb + index ≤ buffer_size rb →
  ∃ rb',
    ringbuffer_insert (S fuel) rb index value w = Done (0, rb', w) ∧
    wf rb' ∧ elementCount rb' = elementCount rb + 1 ∧
    (∀ i, 0 ≤ i < index → ringbuffer_get rb' i = ringbuffer_get rb i) ∧
    ringbuffer_get rb' index = Done value ∧
    (∀ i, index < i ≤ elementCount rb → ringbuffer_get rb' i = ringbuffer_get rb (i - 1)).
Proof.
  intros Hwf Hroom Hi0 Hhalf Hi1 Hs1 Hflat.
  pose proof SIZE_MODULUS_eq as HM. pose proof MAX_SLOTS_eq as HS.
  destruct (buffer rb) as [mem |] eqn:Hb.
  2:{ unfold wf in Hwf. rewrite Hb in Hwf. lia. }
  destruct (wf_Some _ _ Hwf Hb) as (Hlen & Hsz & Hst & Hcnt).
  unfold RINGBUFFER_MIN_BUFFER_SIZE in *.
  set (rb0 := set_start rb (start rb - 1)).
  destruct (move_up_once fuel rb0 mem (start rb) (start rb - 1) index)
    as (mem1 & Hmv & Hl1 & Hslots); try (simpl; lia).
  set (mem2 := <[Z.to_nat (start rb - 1 + index) := value]> mem1).
  exists (set_elementCount (set_buffer rb0 (Some mem2)) (elementCount rb + 1)).
  assert (Hwf' : wf (set_elementCount (set_buffer rb0 (Some mem2)) (elementCount rb + 1))).
  { unfold wf. simpl. unfold mem2. rewrite length_insert.
    unfold RINGBUFFER_MIN_BUFFER_SIZE. lia. }
  split.
  { unfold ringbuffer_insert. rewrite Z.gtb_ltb.
    destruct (Z.ltb_spec (elementCount rb) index); [lia |].
    destruct (Z.eqb_spec (elementCount rb) (buffer_size rb)); [lia |].
    rewrite bind_Done. simpl negb. cbv iota.
    unfold insert_place.
    destruct (Z.eqb_spec index (elementCount rb)); [lia |].
    destruct (Z.eqb_spec index 0); [lia |].
    destruct (Z.leb_spec index (elementCount rb / 2)); [| lia].
    rewrite (wrap_small (start rb + buffer_size rb)) by lia.
    rewrite (wrap_small (start rb + buffer_size rb - 1)) by lia.
    rewrite umod_Done by lia. rewrite bind_Done.
    rewrite (mod_once (start rb + buffer_size rb - 1)) by lia.
    destruct (Z.ltb_spec (start rb + buffer_size rb - 1) (buffer_size rb)); [lia |].
    replace (start rb + buffer_size rb - 1 - buffer_size rb) with (start rb - 1) by lia.
    fold rb0. unfold ringbuffer_move.
    assert (Hb0 : buffer rb0 = Some mem) by done. rewrite Hb0.
    simpl must. rewrite bind_Done.
    destruct (Z.ltb_spec 0 1); [| lia].
    rewrite !slot_of_Done by (simpl; lia). rewrite !bind_Done.
    cbn [start buffer_size rb0 set_start].
    rewrite !Z.mod_small by lia.
    replace (start rb - 1 + 1) with (start rb) by lia.
    replace (start rb - 1 + 0) with (start rb - 1) by lia.
    rewrite Hmv, !bind_Done.
    rewrite slot_of_Done by (simpl; lia). rewrite bind_Done.
    cbn [start buffer_size rb0 set_start set_buffer].
    rewrite Z.mod_small by lia.
    unfold put. cbn [buffer set_buffer]. simpl must. rewrite bind_Done.
    rewrite store_Done by lia. rewrite !bind_Done.
    cbn [elementCount set_buffer set_start].
    change (elementCount rb0) with (elementCount rb).
    rewrite (wrap_small (elementCount rb + 1)) by lia. done. }
  split; [exact Hwf' |]. split; [done |].
  assert (Hput : 0 ≤ start rb - 1 + index < Z.of_nat (length mem1)) by lia.
  split; [| split].
  - intros i Hi.
    erewrite get_wf; [| exact Hwf' | simpl; reflexivity | simpl; lia].
    rewrite (get_wf rb mem) by (done || lia). simpl. unfold load. f_equal.
    unfold mem2. rewrite slot_insert by done. rewrite Hslots.
    rewrite !Z.mod_small by lia. zcases; simpl; try lia. f_equal. lia.
  - erewrite get_wf; [| exact Hwf' | simpl; reflexivity | simpl; lia].
    simpl. unfold load. unfold mem2. rewrite slot_insert by done.
    rewrite Z.mod_small by lia. by rewrite Z.eqb_refl.
  - intros i Hi.
    erewrite get_wf; [| exact Hwf' | simpl; reflexivity | simpl; lia].
    rewrite (get_wf rb mem) by (done || lia). simpl. unfold load. f_equal.
    unfold mem2. rewrite slot_insert by done. rewrite Hslots.
    rewrite !mod_once by lia. zcases; simpl; try lia; f_equal; lia.
Qed.

Lemma insert_front_half_shifts_left_witness :
  ∃ rb',
    ringbuffer_insert 1 seven_from_1 2 42 marking_world = Done (0, rb', marking_world) ∧
    wf rb' ∧ elementCount rb' = elementCount seven_from_1 + 1 ∧
    (∀ i, 0 ≤ i < 2 → ringbuffer_get rb' i = ringbuffer_get seven_from_1 i) ∧
    ringbuffer_get rb' 2 = Done 42 ∧
    (∀ i, 2 < i ≤ elementCount seven_from_1 →
          ringbuffer_get rb' i = ringbuffer_get seven_from_1 (i - 1)).
Proof.
  apply (insert_front_half_shifts_left 0 seven_from_1 2 42 marking_world).
  - wf_concrete.
  - simpl. lia.
  - lia.
  - simpl. change (7 / 2) with 3. lia.
  - simpl. lia.
  - simpl. lia.
  - simpl. lia.
Defined.

(** X5. An insertion in front of the last element of a buffer with room
    and at least three elements moves one element with the backward loop of
    [ringbuffer_move]. When neither the slot of the last element nor the
    slot behind it is slot 0, the result is the naive insertion. *)
Theorem insert_before_last_shifts_one (fuel : nat) (rb : ringbuffer_t) (value : ptr)
    (w : world) :
  wf rb → 3 ≤ elementCount rb → elementCount rb < buffer_size rb →
  (start rb + (elementCount rb - 1)) mod buffer_size rb ≠ 0 →
  (start rb + elementCount rb) mod buffer_size rb ≠ 0 →
  ∃ rb',
    ringbuffer_insert (S fuel) rb (elementCount rb - 1) value w = Done (0, rb', w) ∧
    wf rb' ∧ elementCount rb' = elementCount rb + 1 ∧
    (∀ i, 0 ≤ i < elementCount rb - 1 → ringbuffer_get rb' i = ringbuffer_get rb i) ∧
    ringbuffer_get rb' (elementCount rb - 1) = Done value ∧
    ringbuffer_get rb' (elementCount rb) = ringbuffer_get rb (elementCount rb - 1).
Proof.
  intros Hwf Hcnt Hroom Hr0 Hw0.
  pose proof SIZE_MODULUS_eq as HM. pose proof MAX_SLOTS_eq as HS.
  destruct (buffer rb) as [mem |] eqn:Hb.
  2:{ unfold wf in Hwf. rewrite Hb in Hwf. lia. }
  destruct (wf_Some _ _ Hwf Hb) as (Hlen & Hsz & Hst & Hc).
  unfold RINGBUFFER_MIN_BUFFER_SIZE in *.
  set (pr := (start rb + (elementCount rb - 1)) mod buffer_size rb) in *.
  set (pw := (start rb + elementCount rb) mod buffer_size rb) in *.
  assert (Hpr : 0 ≤ pr < buffer_size rb) by (apply Z.mod_pos_bound; lia).
  assert (Hpw : 0 ≤ pw < buffer_size rb) by (apply Z.mod_pos_bound; lia).
  destruct (move_down_one fuel rb mem pr pw) as (mem1 & Hmv & Hl1 & Hslots); try lia.
  set (mem2 := <[Z.to_nat pr := value]> mem1).
  exists (set_elementCount (set_buffer rb (Some mem2)) (elementCount rb + 1)).
  assert (Hwf' : wf (set_elementCount (set_buffer rb (Some mem2)) (elementCount rb + 1))).
  { unfold wf. simpl. unfold mem2. rewrite length_insert.
    unfold RINGBUFFER_MIN_BUFFER_SIZE. lia. }
  assert (Hhalf : elementCount rb / 2 < elementCount rb - 1).
  { apply Z.div_lt_upper_bound; lia. }
  split.
  { unfold ringbuffer_insert. rewrite Z.gtb_ltb.
    destruct (Z.ltb_spec (elementCount rb) (elementCount rb - 1)); [lia |].
    destruct (Z.eqb_spec (elementCount rb) (buffer_size rb)); [lia |].
    rewrite bind_Done. simpl negb. cbv iota.
    unfold insert_place.
    destruct (Z.eqb_spec (elementCount rb - 1) (elementCount rb)); [lia |].
    destruct (Z.eqb_spec (elementCount rb - 1) 0); [lia |].
    destruct (Z.leb_spec (elementCount rb - 1) (elementCount rb / 2)); [lia |].
    unfold ringbuffer_move. rewrite Hb. simpl must. rewrite bind_Done.
    replace (elementCount rb - (elementCount rb - 1)) with 1 by lia.
    change (wrap 1) with 1. change (wrap (1 - 1)) with 0.
    rewrite !Z.add_0_r.
    rewrite !(wrap_small (elementCount rb - 1 + 1)) by lia.
    rewrite !(wrap_small (elementCount rb - 1)) by lia.
    destruct (Z.ltb_spec (elementCount rb - 1 + 1) (elementCount rb - 1)); [lia |].
    rewrite !slot_of_Done by lia. rewrite !bind_Done.
    replace (start rb + (elementCount rb - 1 + 1)) with (start rb + elementCount rb) by lia.
    fold pr pw. rewrite Hmv, !bind_Done.
    rewrite slot_of_Done by (simpl; lia). rewrite bind_Done.
    cbn [start buffer_size set_buffer]. fold pr.
    unfold put. cbn [buffer set_buffer]. simpl must. rewrite bind_Done.
    rewrite store_Done by lia. rewrite !bind_Done.
    cbn [elementCount set_buffer].
    rewrite (wrap_small (elementCount rb + 1)) by lia. done. }
  split; [exact Hwf' |]. split; [done |].
  assert (Hput : 0 ≤ pr < Z.of_nat (length mem1)) by lia.
  split; [| split].
  - intros i Hi.
    erewrite get_wf; [| exact Hwf' | simpl; reflexivity | simpl; lia].
    rewrite (get_wf rb mem) by (done || lia). simpl. unfold load. f_equal.
    unfold mem2. rewrite slot_insert by done. rewrite Hslots.
    assert ((start rb + i) mod buffer_size rb ≠ pr ∧ (start rb + i) mod buffer_size rb ≠ pw).
    { unfold pr, pw. rewrite !mod_once by lia. zcases; lia. }
    zcases; try lia; done.
  - erewrite get_wf; [| exact Hwf' | simpl; reflexivity | simpl; lia].
    simpl. unfold load. unfold mem2. rewrite slot_insert by done.
    fold pr. by rewrite Z.eqb_refl.
  - erewrite get_wf; [| exact Hwf' | simpl; reflexivity | simpl; lia].
    rewrite (get_wf rb mem) by (done || lia). simpl. unfold load. f_equal.
    unfold mem2. rewrite slot_insert by done. rewrite Hslots. fold pr pw.
    assert (pw ≠ pr).
    { unfold pr, pw. rewrite !mod_once by lia. zcases; lia. }
    zcases; try lia; done.
Qed.

Lemma insert_before_last_shifts_one_witness :
  ∃ rb',
    ringbuffer_insert 1 five (elementCount five - 1) 42 marking_world
    = Done (0, rb', marking_world) ∧
    wf rb' ∧ elementCount rb' = elementCount five + 1 ∧
    (∀ i, 0 ≤ i < elementCount five - 1 → ringbuffer_get rb' i = ringbuffer_get five i) ∧
    ringbuffer_get rb' (elementCount five - 1) = Done 42 ∧
    ringbuffer_get rb' (elementCount five) = ringbuffer_get five (elementCount five - 1).
Proof.
  apply (insert_before_last_shifts_one 0 five 42 marking_world).
  - wf_concrete.
  - simpl. lia.
  - simpl. lia.
  - discriminate.
  - discriminate.
Defined.

(** X6. With [start = 1] and one free slot, [count = buffer_size - 1],
    every insertion into the back half, [count / 2 < index < count], spins
    in the backward loop of [ringbuffer_move]: the write pointer stands on
    slot 0, nothing can be copied, and the pointer is reset to
    [(start + buffer_size - 1) % buffer_size], which is slot 0 again. The
    call does not return, whatever the fuel. *)
Theorem insert_behind_wrap_point_never_returns (fuel : nat) (rb : ringbuffer_t)
    (index : Z) (value : ptr) (w : world) :
  wf rb → start rb = 1 → elementCount rb = buffer_size rb - 1 →
  elementCount rb / 2 < index → index < elementCount rb →
  ringbuffer_insert fuel rb index value w = OutOfFuel.
Proof.
  intros Hwf Hst Hcnt Hhalf Hlt.
  pose proof SIZE_MODULUS_eq as HM. pose proof MAX_SLOTS_eq as HS.
  destruct (buffer rb) as [mem |] eqn:Hb.
  2:{ unfold wf in Hwf. rewrite Hb in Hwf. lia. }
  destruct (wf_Some _ _ Hwf Hb) as (Hlen & Hsz & _ & Hc).
  unfold RINGBUFFER_MIN_BUFFER_SIZE in *.
  assert (Hidx : 0 < index).
  { assert (0 ≤ elementCount rb / 2) by (apply Z.div_pos; lia). lia. }
  unfold ringbuffer_insert. rewrite Z.gtb_ltb.
  destruct (Z.ltb_spec (elementCount rb) index); [lia |].
  destruct (Z.eqb_spec (elementCount rb) (buffer_size rb)); [lia |].
  rewrite bind_Done. simpl negb. cbv iota.
  unfold insert_place.
  destruct (Z.eqb_spec index (elementCount rb)); [lia |].
  destruct (Z.eqb_spec index 0); [lia |].
  destruct (Z.leb_spec index (elementCount rb / 2)); [lia |].
  unfold ringbuffer_move. rewrite Hb. simpl must. rewrite bind_Done.
  rewrite (wrap_small (index + 1)) by lia.
  destruct (Z.ltb_spec (index + 1) index); [lia |].
  rewrite (wrap_small (elementCount rb - index)) by lia.
  rewrite (wrap_small (elementCount rb - index - 1)) by lia.
  rewrite (wrap_small (index + (elementCount rb - index - 1))) by lia.
  rewrite (wrap_small (index + 1 + (elementCount rb - index - 1))) by lia.
  rewrite !slot_of_Done by lia. rewrite !bind_Done.
  replace (start rb + (index + 1 + (elementCount rb - index - 1)))
    with (buffer_size rb) by lia.
  replace (start rb + (index + (elementCount rb - index - 1)))
    with (buffer_size rb - 1) by lia.
  rewrite Z_mod_same_full. rewrite Z.mod_small by lia.
  rewrite move_down_stuck; [done | done | lia | lia | lia].
Qed.

Lemma insert_behind_wrap_point_never_returns_witness :
  ringbuffer_insert 1000 seven_from_1 4 42 marking_world = OutOfFuel.
Proof.
  apply (insert_behind_wrap_point_never_returns 1000 seven_from_1 4 42 marking_world).
  - wf_concrete.
  - reflexivity.
  - reflexivity.
  - simpl. change (7 / 2) with 3. lia.
  - simpl. lia.
Defined.

(** X7. Whatever the index and whatever the allocator does, an insertion
    that returns leaves a well-formed buffer that satisfies the invariant of
    the data model, releases nothing, and returns 0 or returns -1 with the
    buffer unchanged. *)
Theorem insert_keeps_well_formed (fuel : nat) (rb rb' : ringbuffer_t) (index r : Z)
    (value : ptr) (w w' : world) :
  wf rb → 2 * buffer_size rb < MAX_SLOTS →
  ringbuffer_insert fuel rb index value w = Done (r, rb', w') →
  wf rb' ∧ data_model_invariant rb' ∧ released w' = released w ∧
  (r = 0 ∨ (r = -1 ∧ rb' = rb)).
Proof.
  intros Hwf Hmax H.
  pose proof SIZE_MODULUS_eq as HM. pose proof MAX_SLOTS_eq as HS.
  assert (Hrange : 0 ≤ elementCount rb ≤ buffer_size rb).
  { revert Hwf. unfold wf, RINGBUFFER_MIN_BUFFER_SIZE. destruct (buffer rb); lia. }
  cut (wf rb' ∧ released w' = released w ∧ (r = 0 ∨ (r = -1 ∧ rb' = rb))).
  { intros (? & ? & ?). split; [done |]. split; [by apply wf_data_model_invariant | done]. }
  revert H. unfold ringbuffer_insert.
  destruct (index >? elementCount rb); [intros [= <- <- <-]; auto |].
  intros H. apply bind_Done_inv in H as ([[failed rb1] w1] & Hre & H).
  assert (Hrb1 : wf rb1 ∧ elementCount rb1 = elementCount rb ∧
                 (failed = 0 → elementCount rb1 < buffer_size rb1) ∧
                 (failed ≠ 0 → rb1 = rb) ∧ released w1 = released w ∧
                 (failed = 0 ∨ failed = -1)).
  { destruct (Z.eqb_spec (elementCount rb) (buffer_size rb)) as [Hfull | Hroom].
    - destruct (resize_double_wf _ _ _ _ _ Hwf Hfull Hmax Hre) as (? & ? & ? & ?).
      destruct (resize_world _ _ _ _ _ _ Hre) as [? _].
      repeat (split; [done |]).
      destruct (resize_fields _ _ _ _ _ _ Hre) as [[-> _] | (-> & _)]; auto.
    - injection Hre as <- <- <-. repeat split; auto; lia. }
  destruct Hrb1 as (Hwf1 & Hc1 & Hroom1 & Hsame & Hrel & Hcode).
  destruct (Z.eqb_spec failed 0) as [-> | Hne]; simpl in H.
  - apply bind_Done_inv in H as (rb2 & Hpl & H).
    destruct (insert_place_wf _ _ _ _ _ Hwf1 (Hroom1 eq_refl) Hpl) as [Hwf2 Hc2].
    injection H as <- <- <-.
    rewrite wrap_small by (rewrite Hc2, Hc1; lia). rewrite Hc2.
    split; [done |]. split; [done |]. by left.
  - injection H as <- <- <-. split; [done |]. split; [done |]. right.
    split; [done |]. by apply Hsame.
Qed.

Lemma insert_keeps_well_formed_witness :
  ∃ rb' w',
    ringbuffer_insert 2 wrapped4 2 55 marking_world = Done (0, rb', w') ∧
    wf rb' ∧ data_model_invariant rb' ∧ released w' = released marking_world.
Proof.
  eexists _, _. split; [vm_compute; reflexivity |].
  match goal with
  | |- wf ?rb' ∧ _ ∧ released ?w' = _ =>
      destruct (insert_keeps_well_formed 2 wrapped4 rb' 2 0 55 marking_world w')
        as (Hwf & Hinv & Hrel & _)
  end; [wf_concrete | simpl; rewrite MAX_SLOTS_eq; lia | |].
  - vm_compute. reflexivity.
  - split; [exact Hwf |]. split; [exact Hinv | exact Hrel].
Defined.

(** X8. An insertion into a buffer that is not full does not call the
    allocator and releases nothing: the collaborators' state and the
    capacity are what they were. *)
Theorem insert_with_room_leaves_world (fuel : nat) (rb rb' : ringbuffer_t) (index r : Z)
    (value : ptr) (w w' : world) :
  elementCount rb ≠ buffer_size rb →
  ringbuffer_insert fuel rb index value w = Done (r, rb', w') →
  w' = w ∧ buffer_size rb' = buffer_size rb.
Proof.
  intros Hroom. unfold ringbuffer_insert.
  destruct (index >? elementCount rb); [by intros [= <- <- <-] |].
  destruct (Z.eqb_spec (elementCount rb) (buffer_size rb)); [done |].
  rewrite bind_Done. simpl negb. cbv iota. intros H.
  apply bind_Done_inv in H as (rb2 & Hpl & H).
  apply insert_place_fields in Hpl as [Hsz _].
  injection H as <- <- <-. done.
Qed.

Lemma insert_with_room_leaves_world_witness :
  ∃ rb' w',
    ringbuffer_insert 2 wrapped4 0 55 refusing_world = Done (0, rb', w') ∧
    w' = refusing_world ∧ buffer_size rb' = buffer_size wrapped4.
Proof.
  eexists _, _. split; [vm_compute; reflexivity |].
  eapply (insert_with_room_leaves_world 2 wrapped4 _ 0 0 55 refusing_world _).
  - discriminate.
  - vm_compute. reflexivity.
Defined.

(** ** Deletion *)

(** X9. [ringbuffer_del]: an index at or above the count is refused with
    -1, buffer and collaborators unchanged. A deletion at an index below
    the count that returns, returns 0, lowers the count by one and releases
    exactly one reference, the one [get(index)] returned before the
    call. *)
Theorem del_releases_the_victim (fuel : nat) (rb : ringbuffer_t) (index : Z) (w : world) :
  (elementCount rb ≤ index → ringbuffer_del fuel rb index w = Done (-1, rb, w)) ∧
  (index < elementCount rb →
   ∀ r rb' w', ringbuffer_del fuel rb index w = Done (r, rb', w') →
     r = 0 ∧ elementCount rb' = wrap (elementCount rb - 1) ∧
     ∃ victim, ringbuffer_get rb index = Done victim ∧
               released w' = victim :: released w).
Proof.
  split.
  - intros Hge. unfold ringbuffer_del.
    destruct (Z.geb_spec index (elementCount rb)); [done | lia].
  - intros Hlt r rb' w' H. revert H. unfold ringbuffer_del, ringbuffer_get.
    destruct (Z.geb_spec index (elementCount rb)) as [Hx | Hx]; [lia |]. intros H.
    apply bind_Done_inv in H as (mem & -> & H).
    apply bind_Done_inv in H as (p & -> & H).
    apply bind_Done_inv in H as (victim & Hv & H). rewrite !bind_Done.
    apply bind_Done_inv in H as (rb1 & Hshift & H).
    apply del_shift_fields in Hshift as (Hsz1 & Hc1 & _).
    cbv zeta in H. cbn [elementCount buffer_size set_elementCount] in H.
    destruct (_ <? _).
    + apply bind_Done_inv in H as ([[r' rb2] w2] & Hre & H).
      injection H as <- <- <-.
      destruct (resize_world _ _ _ _ _ _ Hre) as [Hrel _].
      split; [done |]. split.
      * destruct (resize_fields _ _ _ _ _ _ Hre) as [[_ ->] | (_ & _ & -> & _)];
          simpl; by rewrite Hc1.
      * exists victim. split; [done |]. by rewrite Hrel.
    + injection H as <- <- <-. split; [done |]. split; [simpl; by rewrite Hc1 |].
      exists victim. done.
Qed.

Lemma del_releases_the_victim_witness :
  ringbuffer_del 0 four 4 marking_world = Done (-1, four, marking_world) ∧
  ∃ rb' w',
    ringbuffer_del 2 four 1 marking_world = Done (0, rb', w') ∧
    elementCount rb' = 3 ∧
    ∃ victim, ringbuffer_get four 1 = Done victim ∧
              released w' = victim :: released marking_world.
Proof.
  split.
  - apply (del_releases_the_victim 0 four 4 marking_world). simpl. lia.
  - eexists _, _. split; [vm_compute; reflexivity |].
    destruct (del_releases_the_victim 2 four 1 marking_world) as [_ Hin].
    match goal with
    | |- elementCount ?rb' = _ ∧ (∃ victim, _ ∧ released ?w' = _) =>
        destruct (Hin ltac:(simpl; lia) 0 rb' w' ltac:(vm_compute; reflexivity))
          as (_ & Hc & Hvictim)
    end.
    split; [exact Hc | exact Hvictim].
Defined.

(** X10. Deleting the last element of a well-formed buffer returns 0 and
    keeps [start] and every other element, also through the shrink that
    may follow, provided the remaining live range lies below the new
    capacity when the buffer shrinks. *)
Theorem del_last_keeps_the_rest (fuel : nat) (rb : ringbuffer_t) (w : world) :
  wf rb → 1 ≤ elementCount rb →
  (elementCount rb - 1 < buffer_size rb / 8 →
   start rb + (elementCount rb - 1)
     ≤ Z.max RINGBUFFER_MIN_BUFFER_SIZE (buffer_size rb / 2) ∧
   start rb < Z.max RINGBUFFER_MIN_BUFFER_SIZE (buffer_size rb / 2)) →
  ∃ rb' w',
    ringbuffer_del fuel rb (elementCount rb - 1) w = Done (0, rb', w') ∧
    wf rb' ∧ elementCount rb' = elementCount rb - 1 ∧ start rb' = start rb ∧
    (∀ i, 0 ≤ i < elementCount rb - 1 → ringbuffer_get rb' i = ringbuffer_get rb i).
Proof.
  intros Hwf Hne Hlow.
  pose proof SIZE_MODULUS_eq as HM. pose proof MAX_SLOTS_eq as HS.
  destruct (buffer rb) as [mem |] eqn:Hb.
  2:{ unfold wf in Hwf. rewrite Hb in Hwf. lia. }
  destruct (wf_Some _ _ Hwf Hb) as (Hlen & Hsz & Hst & Hc).
  unfold RINGBUFFER_MIN_BUFFER_SIZE in *.
  destruct (get_Done rb (elementCount rb - 1) Hwf) as [victim Hv]; [lia |].
  rewrite (get_wf rb mem) in Hv by (done || lia).
  set (rb2 := set_elementCount rb (elementCount rb - 1)).
  assert (Hwf2 : wf rb2).
  { unfold wf, rb2. simpl. rewrite Hb. unfold RINGBUFFER_MIN_BUFFER_SIZE. lia. }
  destruct (del_shrink_low rb2 (json_decref victim w) Hwf2)
    as (rb' & w' & Hend & Hwf' & Hc' & Hs' & _ & Hget); [by exists mem | done |].
  exists rb', w'. split.
  { unfold ringbuffer_del.
    destruct (Z.geb_spec (elementCount rb - 1) (elementCount rb)); [lia |].
    rewrite Hb. simpl must. rewrite bind_Done.
    rewrite slot_of_Done by lia. rewrite bind_Done. rewrite Hv, bind_Done.
    unfold del_shift. rewrite (wrap_small (elementCount rb - 1)) by lia.
    rewrite Z.eqb_refl, bind_Done. cbv zeta.
    rewrite (wrap_small (elementCount rb - 1)) by lia. fold rb2. exact Hend. }
  split; [done |]. split; [done |]. split; [done |].
  intros i Hi. rewrite Hget by (simpl; lia).
  rewrite (get_wf rb2 mem) by (done || simpl; lia).
  rewrite (get_wf rb mem) by (done || lia). done.
Qed.

Lemma del_last_keeps_the_rest_witness :
  ∃ rb' w',
    ringbuffer_del 0 sparse16 (elementCount sparse16 - 1) marking_world
    = Done (0, rb', w') ∧
    wf rb' ∧ elementCount rb' = elementCount sparse16 - 1 ∧
    start rb' = start sparse16 ∧
    (∀ i, 0 ≤ i < elementCount sparse16 - 1 →
          ringbuffer_get rb' i = ringbuffer_get sparse16 i).
Proof.
  apply (del_last_keeps_the_rest 0 sparse16 marking_world).
  - wf_concrete.
  - simpl. lia.
  - intros _. simpl. unfold RINGBUFFER_MIN_BUFFER_SIZE. change (16 / 2) with 8. lia.
Defined.

(** X11. Deleting the first of at least two elements moves no element:
    [start] advances by one slot, around the block end if need be, and old
    element [i + 1] is element [i]; also through the shrink that may
    follow, provided the remaining live range lies below the new
    capacity. *)
Theorem del_first_advances_start (fuel : nat) (rb : ringbuffer_t) (w : world) :
  wf rb → 2 ≤ elementCount rb →
  (elementCount rb - 1 < buffer_size rb / 8 →
   (start rb + 1) mod buffer_size rb + (elementCount rb - 1)
     ≤ Z.max RINGBUFFER_MIN_BUFFER_SIZE (buffer_size rb / 2)) →
  ∃ rb' w',
    ringbuffer_del fuel rb 0 w = Done (0, rb', w') ∧
    wf rb' ∧ elementCount rb' = elementCount rb - 1 ∧
    start rb' = (start rb + 1) mod buffer_size rb ∧
    (∀ i, 0 ≤ i < elementCount rb - 1 →
          ringbuffer_get rb' i = ringbuffer_get rb (i + 1)).
Proof.
  intros Hwf Hne Hlow.
  pose proof SIZE_MODULUS_eq as HM. pose proof MAX_SLOTS_eq as HS.
  destruct (buffer rb) as [mem |] eqn:Hb.
  2:{ unfold wf in Hwf. rewrite Hb in Hwf. lia. }
  destruct (wf_Some _ _ Hwf Hb) as (Hlen & Hsz & Hst & Hc).
  unfold RINGBUFFER_MIN_BUFFER_SIZE in *.
  destruct (get_Done rb 0 Hwf) as [victim Hv]; [lia |].
  rewrite (get_wf rb mem) in Hv by (done || lia).
  set (s := (start rb + 1) mod buffer_size rb) in *.
  assert (Hs : 0 ≤ s < buffer_size rb) by (apply Z.mod_pos_bound; lia).
  set (rb2 := set_elementCount (set_start rb s) (elementCount rb - 1)).
  assert (Hwf2 : wf rb2).
  { unfold wf, rb2. simpl. rewrite Hb. unfold RINGBUFFER_MIN_BUFFER_SIZE. lia. }
  destruct (del_shrink_low rb2 (json_decref victim w) Hwf2)
    as (rb' & w' & Hend & Hwf' & Hc' & Hs' & _ & Hget); [by exists mem | |].
  { intros Hshrink. specialize (Hlow Hshrink).
    cbn [start elementCount buffer_size rb2 set_elementCount set_start] in *.
    unfold RINGBUFFER_MIN_BUFFER_SIZE. lia. }
  exists rb', w'. split.
  { unfold ringbuffer_del.
    destruct (Z.geb_spec 0 (elementCount rb)); [lia |].
    rewrite Hb. simpl must. rewrite bind_Done.
    rewrite slot_of_Done by lia. rewrite bind_Done. rewrite Hv, bind_Done.
    unfold del_shift. rewrite (wrap_small (elementCount rb - 1)) by lia.
    destruct (Z.eqb_spec 0 (elementCount rb - 1)); [lia |].
    rewrite Z.eqb_refl. rewrite (wrap_small (start rb + 1)) by lia.
    rewrite umod_Done by lia. rewrite !bind_Done. cbv zeta.
    cbn [elementCount set_start].
    rewrite (wrap_small (elementCount rb - 1)) by lia. fold s. fold rb2. exact Hend. }
  split; [done |]. split; [done |]. split; [done |].
  intros i Hi. rewrite Hget by (simpl; lia).
  rewrite (get_wf rb2 mem) by (done || simpl; lia).
  rewrite (get_wf rb mem) by (done || lia). simpl. f_equal.
  unfold s. rewrite !mod_once by lia. zcases; try lia.
  all: rewrite ?mod_once by lia; zcases; lia.
Qed.

Lemma del_first_advances_start_witness :
  ∃ rb' w',
    ringbuffer_del 0 sparse16 0 marking_world = Done (0, rb', w') ∧
    wf rb' ∧ elementCount rb' = elementCount sparse16 - 1 ∧
    start rb' = (start sparse16 + 1) mod buffer_size sparse16 ∧
    (∀ i, 0 ≤ i < elementCount sparse16 - 1 →
          ringbuffer_get rb' i = ringbuffer_get sparse16 (i + 1)).
Proof.
  apply (del_first_advances_start 0 sparse16 marking_world).
  - wf_concrete.
  - simpl. lia.
  - intros _. simpl. unfold RINGBUFFER_MIN_BUFFER_SIZE.
    change ((2 + 1) mod 16) with 3. change (16 / 2) with 8. lia.
Defined.

(** X21. Deleting the second element, index 1 of at least four, moves the
    first element one slot up and advances [start]: the backward loop of
    [ringbuffer_move] copies one element, which it does correctly when
    neither of its two pointers stands on slot 0 ([1 <= start] and
    [start + 1 < buffer_size]). The element is released once, the first
    element stays and the later ones come one index forward. *)
Theorem del_second_shifts_one (fuel : nat) (rb : ringbuffer_t) (w : world) :
  wf rb → 4 ≤ elementCount rb → 1 ≤ start rb → start rb + 1 < buffer_size rb →
  buffer_size rb / 8 ≤ elementCount rb - 1 →
  ∃ victim rb',
    ringbuffer_get rb 1 = Done victim ∧
    ringbuffer_del (S fuel) rb 1 w = Done (0, rb', json_decref victim w) ∧
    wf rb' ∧ elementCount rb' = elementCount rb - 1 ∧
    ringbuffer_get rb' 0 = ringbuffer_get rb 0 ∧
    (∀ i, 1 ≤ i < elementCount rb - 1 → ringbuffer_get rb' i = ringbuffer_get rb (i + 1)).
Proof.
  intros Hwf Hcnt Hs1 Hs2 Hkeep.
  pose proof SIZE_MODULUS_eq as HM. pose proof MAX_SLOTS_eq as HS.
  destruct (buffer rb) as [mem |] eqn:Hb.
  2:{ unfold wf in Hwf. rewrite Hb in Hwf. lia. }
  destruct (wf_Some _ _ Hwf Hb) as (Hlen & Hsz & Hst & Hc).
  unfold RINGBUFFER_MIN_BUFFER_SIZE in *.
  destruct (get_Done rb 1 Hwf) as [victim Hv]; [lia |].
  exists victim.
  assert (Hload : load mem (start rb + 1) = Done victim).
  { rewrite (get_wf rb mem) in Hv by (done || lia).
    rewrite Z.mod_small in Hv by lia. done. }
  destruct (move_down_one fuel rb mem (start rb) (start rb + 1))
    as (mem' & Hmv & Hl & Hslots); try lia.
  assert (Hhalf : 1 < elementCount rb / 2).
  { apply Z.div_le_lower_bound with (b := 2) (q := 2) in Hcnt; lia. }
  set (rb' := set_elementCount (set_start (set_buffer rb (Some mem')) (start rb + 1))
                (elementCount rb - 1)).
  exists rb'. split; [done |].
  assert (Hdel : ringbuffer_del (S fuel) rb 1 w = Done (0, rb', json_decref victim w)).
  { unfold ringbuffer_del.
    destruct (Z.geb_spec 1 (elementCount rb)); [lia |].
    rewrite Hb. simpl must. rewrite bind_Done.
    rewrite slot_of_Done by lia. rewrite bind_Done.
    rewrite Z.mod_small by lia. rewrite Hload, bind_Done.
    unfold del_shift. rewrite (wrap_small (elementCount rb - 1)) by lia.
    destruct (Z.eqb_spec 1 (elementCount rb - 1)); [lia |].
    destruct (Z.eqb_spec 1 0); [lia |].
    destruct (Z.ltb_spec 1 (elementCount rb / 2)); [| lia].
    unfold ringbuffer_move. rewrite Hb. simpl must. rewrite bind_Done.
    destruct (Z.ltb_spec 1 0); [lia |].
    change (wrap (1 - 1)) with 0. change (wrap (1 + 0)) with 1. change (wrap (0 + 0)) with 0.
    rewrite !slot_of_Done by lia. rewrite !bind_Done.
    rewrite Z.add_0_r. rewrite !Z.mod_small by lia.
    rewrite Hmv, !bind_Done.
    cbn [start buffer_size set_buffer].
    rewrite (wrap_small (start rb + 1)) by lia.
    rewrite umod_Done by lia. rewrite bind_Done. rewrite Z.mod_small by lia.
    cbv zeta. cbn [elementCount buffer_size set_elementCount set_buffer set_start].
    rewrite bind_Done. cbn [elementCount buffer_size set_elementCount set_buffer set_start].
    rewrite (wrap_small (elementCount rb - 1)) by lia.
    destruct (Z.ltb_spec (elementCount rb - 1) (buffer_size rb / 8)); [lia | done]. }
  split; [exact Hdel |].
  assert (Hwf' : wf rb').
  { unfold wf, rb'. simpl. unfold RINGBUFFER_MIN_BUFFER_SIZE. lia. }
  split; [exact Hwf' |]. split; [done |]. split.
  - erewrite get_wf; [| exact Hwf' | simpl; reflexivity | simpl; lia].
    rewrite (get_wf rb mem) by (done || lia). simpl. unfold load. f_equal.
    rewrite Hslots. rewrite !Z.add_0_r, !Z.mod_small by lia.
    by rewrite Z.eqb_refl.
  - intros i Hi.
    erewrite get_wf; [| exact Hwf' | simpl; reflexivity | simpl; lia].
    rewrite (get_wf rb mem) by (done || lia). simpl. unfold load. f_equal.
    rewrite Hslots.
    replace (start rb + 1 + i) with (start rb + (i + 1)) by lia.
    destruct (Z.eqb_spec ((start rb + (i + 1)) mod buffer_size rb) (start rb + 1)) as [E | E];
      [| done].
    exfalso. revert E. rewrite mod_once by lia. zcases; lia.
Qed.

Lemma del_second_shifts_one_witness :
  ∃ victim rb',
    ringbuffer_get seven_from_1 1 = Done victim ∧
    ringbuffer_del 1 seven_from_1 1 marking_world
    = Done (0, rb', json_decref victim marking_world) ∧
    wf rb' ∧ elementCount rb' = elementCount seven_from_1 - 1 ∧
    ringbuffer_get rb' 0 = ringbuffer_get seven_from_1 0 ∧
    (∀ i, 1 ≤ i < elementCount seven_from_1 - 1 →
          ringbuffer_get rb' i = ringbuffer_get seven_from_1 (i + 1)).
Proof.
  apply (del_second_shifts_one 0 seven_from_1 marking_world).
  - wf_concrete.
  - simpl. lia.
  - simpl. lia.
  - simpl. lia.
  - discriminate.
Defined.

(** X12. A deletion in the back half, [count / 2 <= index < count - 1],
    of a buffer whose live range ends before the last slot of the block and
    that does not shrink: the forward loop of [ringbuffer_move] is a single
    [memmove] and the result is the naive deletion. *)
Theorem del_back_half_shifts_left (fuel : nat) (rb : ringbuffer_t) (index : Z) (w : world) :
  wf rb → 0 < index → index < elementCount rb - 1 → elementCount rb / 2 ≤ index →
  start rb + elementCount rb < buffer_size rb →
  buffer_size rb / 8 ≤ elementCount rb - 1 →
  ∃ victim rb',
    ringbuffer_get rb index = Done victim ∧
    ringbuffer_del (S fuel) rb index w = Done (0, rb', json_decref victim w) ∧
    wf rb' ∧ elementCount rb' = elementCount rb - 1 ∧
    (∀ i, 0 ≤ i < index → ringbuffer_get rb' i = ringbuffer_get rb i) ∧
    (∀ i, index ≤ i < elementCount rb - 1 →
          ringbuffer_get rb' i = ringbuffer_get rb (i + 1)).
Proof.
  intros Hwf Hi0 Hi1 Hhalf Hflat Hkeep.
  pose proof SIZE_MODULUS_eq as HM. pose proof MAX_SLOTS_eq as HS.
  destruct (buffer rb) as [mem |] eqn:Hb.
  2:{ unfold wf in Hwf. rewrite Hb in Hwf. lia. }
  destruct (wf_Some _ _ Hwf Hb) as (Hlen & Hsz & Hst & Hcnt).
  unfold RINGBUFFER_MIN_BUFFER_SIZE in *.
  destruct (get_Done rb index Hwf) as [victim Hv]; [lia |].
  exists victim.
  assert (Hload : load mem (start rb + index) = Done victim).
  { rewrite (get_wf rb mem) in Hv by (done || lia).
    rewrite Z.mod_small in Hv by lia. done. }
  destruct (move_up_once fuel rb mem (start rb + (index + 1)) (start rb + index)
              (elementCount rb - index)) as (mem' & Hmv & Hl & Hslots); try lia.
  eexists. split; [done |].
  assert (Hdel : ringbuffer_del (S fuel) rb index w
                 = Done (0, set_elementCount (set_buffer rb (Some mem'))
                              (elementCount rb - 1), json_decref victim w)).
  { unfold ringbuffer_del.
    destruct (Z.geb_spec index (elementCount rb)); [lia |].
    rewrite Hb. simpl must. rewrite bind_Done.
    rewrite slot_of_Done by lia. rewrite bind_Done.
    rewrite Z.mod_small by lia. rewrite Hload, bind_Done.
    unfold del_shift. rewrite (wrap_small (elementCount rb - 1)) by lia.
    destruct (Z.eqb_spec index (elementCount rb - 1)); [lia |].
    destruct (Z.eqb_spec index 0); [lia |].
    destruct (Z.ltb_spec index (elementCount rb / 2)); [lia |].
    unfold ringbuffer_move. rewrite Hb. simpl must. rewrite bind_Done.
    rewrite (wrap_small (index + 1)) by lia.
    rewrite (wrap_small (elementCount rb - index)) by lia.
    destruct (Z.ltb_spec index (index + 1)); [| lia].
    rewrite !slot_of_Done by lia. rewrite !bind_Done.
    rewrite !Z.mod_small by lia.
    rewrite Hmv, !bind_Done. cbv zeta.
    cbn [elementCount buffer_size set_elementCount set_buffer].
    rewrite (wrap_small (elementCount rb - 1)) by lia.
    destruct (Z.ltb_spec (elementCount rb - 1) (buffer_size rb / 8)); [lia | done]. }
  split; [exact Hdel |].
  assert (Hwf' : wf (set_elementCount (set_buffer rb (Some mem')) (elementCount rb - 1))).
  { unfold wf. simpl. unfold RINGBUFFER_MIN_BUFFER_SIZE. lia. }
  split; [exact Hwf' |]. split; [done |]. split.
  - intros i Hi.
    erewrite get_wf; [| exact Hwf' | simpl; reflexivity | simpl; lia].
    rewrite (get_wf rb mem) by (done || lia). simpl. unfold load. f_equal.
    rewrite Hslots. rewrite !Z.mod_small by lia. zcases; simpl; try lia; done.
  - intros i Hi.
    erewrite get_wf; [| exact Hwf' | simpl; reflexivity | simpl; lia].
    rewrite (get_wf rb mem) by (done || lia). simpl. unfold load. f_equal.
    rewrite Hslots. rewrite !Z.mod_small by lia. zcases; simpl; try lia. f_equal. lia.
Qed.

Lemma del_back_half_shifts_left_witness :
  ∃ victim rb',
    ringbuffer_get five 2 = Done victim ∧
    ringbuffer_del 1 five 2 marking_world = Done (0, rb', json_decref victim marking_world) ∧
    wf rb' ∧ elementCount rb' = elementCount five - 1 ∧
    (∀ i, 0 ≤ i < 2 → ringbuffer_get rb' i = ringbuffer_get five i) ∧
    (∀ i, 2 ≤ i < elementCount five - 1 →
          ringbuffer_get rb' i = ringbuffer_get five (i + 1)).
Proof.
  apply (del_back_half_shifts_left 0 five 2 marking_world).
  - wf_concrete.
  - lia.
  - simpl. lia.
  - simpl. change (5 / 2) with 2. lia.
  - simpl. lia.
  - simpl. change (8 / 8) with 1. lia.
Defined.

(** X13. A deletion that returns and does not shrink the buffer (at
    least an eighth of the capacity is still used, or the allocator refuses
    the shrink) leaves a well-formed buffer of the same capacity that
    satisfies the invariant of the data model, whatever the index. *)
Theorem del_without_shrink_keeps_well_formed (fuel : nat) (rb rb' : ringbuffer_t)
    (index r : Z) (w w' : world) :
  wf rb → 0 ≤ index →
  buffer_size rb / 8 ≤ elementCount rb - 1 ∨ allocator w (alloc_calls w) = None →
  ringbuffer_del fuel rb index w = Done (r, rb', w') →
  wf rb' ∧ data_model_invariant rb' ∧ buffer_size rb' = buffer_size rb.
Proof.
  intros Hwf Hidx Hkeep H.
  pose proof SIZE_MODULUS_eq as HM. pose proof MAX_SLOTS_eq as HS.
  cut (wf rb' ∧ buffer_size rb' = buffer_size rb).
  { intros [? ?]. split; [done |]. split; [by apply wf_data_model_invariant | done]. }
  revert H. unfold ringbuffer_del.
  destruct (Z.geb_spec index (elementCount rb)) as [Hx | Hx]; [by intros [= <- <- <-] |].
  assert (Hrange : elementCount rb ≤ buffer_size rb < MAX_SLOTS).
  { revert Hwf. unfold wf, RINGBUFFER_MIN_BUFFER_SIZE. destruct (buffer rb); lia. }
  intros H.
  apply bind_Done_inv in H as (mem & _ & H).
  apply bind_Done_inv in H as (p & _ & H).
  apply bind_Done_inv in H as (victim & _ & H).
  apply bind_Done_inv in H as (rb1 & Hshift & H).
  destruct (del_shift_wf _ _ _ _ Hwf ltac:(lia) Hshift) as [Hwf1 Hb1].
  apply del_shift_fields in Hshift as (Hsz1 & Hc1 & _).
  cbv zeta in H. cbn [elementCount buffer_size set_elementCount] in H.
  rewrite Hc1, Hsz1 in H. rewrite (wrap_small (elementCount rb - 1)) in H by lia.
  destruct (Z.ltb_spec (elementCount rb - 1) (buffer_size rb / 8)) as [Hshrink | Hno].
  - destruct Hkeep as [Hkeep | Hfail]; [lia |].
    apply bind_Done_inv in H as ([[r' rb2] w2] & Hre & H). injection H as <- <- <-.
    destruct (resize_refused (set_elementCount rb1 (elementCount rb - 1))
                (buffer_size rb / 2) (json_decref victim w) Hfail) as (w3 & Hre' & _).
    rewrite Hre' in Hre. injection Hre as <- <- <-. done.
  - injection H as <- <- <-. done.
Qed.

Lemma del_without_shrink_keeps_well_formed_witness :
  ∃ rb' w',
    ringbuffer_del 2 four 1 marking_world = Done (0, rb', w') ∧
    wf rb' ∧ data_model_invariant rb' ∧ buffer_size rb' = buffer_size four.
Proof.
  eexists _, _. split; [vm_compute; reflexivity |].
  eapply (del_without_shrink_keeps_well_formed 2 four _ 1 0 marking_world _).
  - wf_concrete.
  - lia.
  - left. simpl. change (8 / 8) with 1. lia.
  - vm_compute. reflexivity.
Defined.

(** ** Moving, resizing, clearing *)

(** X14. The forward branch of [ringbuffer_move], [dest < src], on a
    well-formed buffer always returns within [count] turns (one turn for
    [count = 0]) and never reads or writes outside the block: every turn
    copies at least one slot. *)
Theorem ringbuffer_move_forward_returns (fuel : nat) (rb : ringbuffer_t)
    (dest src count : Z) :
  wf rb → is_Some (buffer rb) → 0 ≤ dest → dest < src → src < MAX_SLOTS →
  0 ≤ count < MAX_SLOTS → count ≤ Z.of_nat fuel → (1 ≤ fuel)%nat →
  ∃ rb', ringbuffer_move fuel rb dest src count = Done rb' ∧ wf rb' ∧
         buffer_size rb' = buffer_size rb ∧ start rb' = start rb ∧
         elementCount rb' = elementCount rb.
Proof.
  intros Hwf [mem Hb] Hd Hlt Hs Hc Hfuel Hpos.
  pose proof SIZE_MODULUS_eq as HM. pose proof MAX_SLOTS_eq as HS.
  destruct (wf_Some _ _ Hwf Hb) as (Hlen & Hsz & Hst & Hcnt).
  unfold RINGBUFFER_MIN_BUFFER_SIZE in *.
  unfold ringbuffer_move. rewrite Hb. simpl.
  destruct (Z.ltb_spec dest src); [| lia].
  rewrite !slot_of_Done by lia. rewrite !bind_Done.
  destruct (move_up_returns fuel rb mem ((start rb + src) mod buffer_size rb)
              ((start rb + dest) mod buffer_size rb) count) as [mem' Hmv];
    try done; try (apply Z.mod_pos_bound; lia).
  rewrite Hmv, bind_Done. eexists. split; [reflexivity |].
  apply move_up_length in Hmv.
  split; [| done]. unfold wf. simpl. unfold RINGBUFFER_MIN_BUFFER_SIZE. lia.
Qed.

Lemma ringbuffer_move_forward_returns_witness :
  ∃ rb', ringbuffer_move 3 wrapped4 0 1 3 = Done rb' ∧ wf rb' ∧
         buffer_size rb' = buffer_size wrapped4 ∧ start rb' = start wrapped4 ∧
         elementCount rb' = elementCount wrapped4.
Proof.
  apply (ringbuffer_move_forward_returns 3 wrapped4 0 1 3).
  - wf_concrete.
  - simpl. eauto.
  - lia.
  - lia.
  - rewrite MAX_SLOTS_eq. lia.
  - rewrite MAX_SLOTS_eq. lia.
  - simpl. lia.
  - lia.
Defined.

(** X15. [ringbuffer_resize] refuses a capacity below the count of an
    allocated buffer without calling the allocator; a refused allocation
    makes it return -1; and whenever it returns -1 the structure is what it
    was. *)
Theorem resize_failure_is_clean (rb : ringbuffer_t) (newSize : Z) (w : world) :
  (is_Some (buffer rb) →
   Z.max RINGBUFFER_MIN_BUFFER_SIZE newSize < elementCount rb →
   ringbuffer_resize rb newSize w = Done (-1, rb, w)) ∧
  (allocator w (alloc_calls w) = None →
   ∃ w', ringbuffer_resize rb newSize w = Done (-1, rb, w') ∧
         released w' = released w) ∧
  (∀ r rb' w', ringbuffer_resize rb newSize w = Done (r, rb', w') →
               r = -1 → rb' = rb).
Proof.
  split; [| split].
  - intros [mem Hb] Hsmall. unfold ringbuffer_resize. rewrite clamp_max, Hb.
    destruct (Z.ltb_spec (Z.max RINGBUFFER_MIN_BUFFER_SIZE newSize) (elementCount rb));
      [done | lia].
  - apply resize_refused.
  - intros r rb' w' H ->.
    by destruct (resize_fields _ _ _ _ _ _ H) as [[_ ->] | [? _]].
Qed.

Lemma resize_failure_is_clean_witness :
  ringbuffer_resize (set_elementCount sparse16 9) 8 marking_world
  = Done (-1, set_elementCount sparse16 9, marking_world) ∧
  ∃ w', ringbuffer_resize full8 16 refusing_world = Done (-1, full8, w') ∧
        released w' = released refusing_world.
Proof.
  split.
  - apply (resize_failure_is_clean (set_elementCount sparse16 9) 8 marking_world).
    + simpl. eauto.
    + simpl. unfold RINGBUFFER_MIN_BUFFER_SIZE. lia.
  - apply (resize_failure_is_clean full8 16 refusing_world). reflexivity.
Defined.

(** X16. Shrinking a well-formed buffer whose live range lies below the
    new capacity, the reallocation granted: the resize returns 0, the
    result is well-formed with the new capacity (clamped to 8), and
    [start], the count and every element are what they were. *)
Theorem resize_shrink_keeps_low_range (rb : ringbuffer_t) (newSize : Z) (w : world)
    (junk : nat → ptr) :
  wf rb → is_Some (buffer rb) →
  Z.max RINGBUFFER_MIN_BUFFER_SIZE newSize ≤ buffer_size rb →
  start rb + elementCount rb ≤ Z.max RINGBUFFER_MIN_BUFFER_SIZE newSize →
  start rb < Z.max RINGBUFFER_MIN_BUFFER_SIZE newSize →
  allocator w (alloc_calls w) = Some junk →
  ∃ rb',
    ringbuffer_resize rb newSize w = Done (0, rb', tick w) ∧
    wf rb' ∧ buffer_size rb' = Z.max RINGBUFFER_MIN_BUFFER_SIZE newSize ∧
    start rb' = start rb ∧ elementCount rb' = elementCount rb ∧
    (∀ i, 0 ≤ i < elementCount rb → ringbuffer_get rb' i = ringbuffer_get rb i).
Proof.
  intros Hwf [mem Hb] Hle Hlow Hst Hj.
  destruct (resize_shrink_low rb mem newSize w Hwf Hb Hle Hlow Hst)
    as (r & rb' & Hre & Hcase & Hwf' & Hs & Hc & Hget).
  rewrite Hj in Hcase. destruct Hcase as [-> Hsz].
  exists rb'. split; [done |]. split; [done |]. split; [done |]. done.
Qed.

Lemma resize_shrink_keeps_low_range_witness :
  ∃ rb',
    ringbuffer_resize sparse16 8 marking_world = Done (0, rb', tick marking_world) ∧
    wf rb' ∧ buffer_size rb' = Z.max RINGBUFFER_MIN_BUFFER_SIZE 8 ∧
    start rb' = start sparse16 ∧ elementCount rb' = elementCount sparse16 ∧
    (∀ i, 0 ≤ i < elementCount sparse16 →
          ringbuffer_get rb' i = ringbuffer_get sparse16 i).
Proof.
  apply (resize_shrink_keeps_low_range sparse16 8 marking_world (λ i, 1000 + Z.of_nat i)).
  - wf_concrete.
  - simpl. eauto.
  - simpl. unfold RINGBUFFER_MIN_BUFFER_SIZE. lia.
  - simpl. unfold RINGBUFFER_MIN_BUFFER_SIZE. lia.
  - simpl. unfold RINGBUFFER_MIN_BUFFER_SIZE. lia.
  - reflexivity.
Defined.

(** X17. Growing any well-formed allocated buffer, wrapped or not, the
    reallocation granted: the resize returns 0 and leaves a well-formed
    buffer of the new capacity with the same count and elements; a live
    range in one piece is not moved. *)
Theorem resize_grow_well_formed (rb : ringbuffer_t) (newSize : Z) (w : world)
    (junk : nat → ptr) :
  wf rb → is_Some (buffer rb) → buffer_size rb ≤ newSize < MAX_SLOTS →
  allocator w (alloc_calls w) = Some junk →
  ∃ rb',
    ringbuffer_resize rb newSize w = Done (0, rb', tick w) ∧
    wf rb' ∧ buffer_size rb' = newSize ∧ elementCount rb' = elementCount rb ∧
    (¬ wraps rb → start rb' = start rb) ∧
    (∀ i, 0 ≤ i < elementCount rb → ringbuffer_get rb' i = ringbuffer_get rb i).
Proof.
  intros Hwf [mem Hb] Hnew Hj. by apply (resize_grow rb mem newSize w junk).
Qed.

Lemma resize_grow_well_formed_witness :
  ∃ rb',
    ringbuffer_resize five 12 marking_world = Done (0, rb', tick marking_world) ∧
    wf rb' ∧ buffer_size rb' = 12 ∧ elementCount rb' = elementCount five ∧
    (¬ wraps five → start rb' = start five) ∧
    (∀ i, 0 ≤ i < elementCount five → ringbuffer_get rb' i = ringbuffer_get five i).
Proof.
  apply (resize_grow_well_formed five 12 marking_world (λ i, 1000 + Z.of_nat i)).
  - wf_concrete.
  - simpl. eauto.
  - simpl. rewrite MAX_SLOTS_eq. lia.
  - reflexivity.
Defined.

(** X18. [ringbuffer_clear] and [ringbuffer_close] on a well-formed
    buffer release every live element exactly once, in the order of the
    indices, hand the storage to [jsonp_free] in one call, request no
    memory, and leave the state of [ringbuffer_init]. *)
Theorem close_releases_every_element (rb : ringbuffer_t) (w : world) :
  wf rb →
  ∃ vs w',
    contents rb = Done <$> vs ∧
    ringbuffer_close rb w = Done (ringbuffer_init, w') ∧
    ringbuffer_clear rb w = Done (ringbuffer_init, w') ∧
    released w' = reverse vs ++ released w ∧
    freed w' = buffer rb :: freed w ∧
    allocator w' = allocator w ∧ alloc_calls w' = alloc_calls w.
Proof.
  intros Hwf.
  assert (Hc : 0 ≤ elementCount rb).
  { revert Hwf. unfold wf. destruct (buffer rb); lia. }
  destruct (clear_loop_releases (Z.to_nat (elementCount rb)) rb 0 w Hwf)
    as (vs & w' & Hvs & Hrun & Hrel & Ha & Hk & Hf); [lia | lia |].
  exists vs, (jsonp_free (buffer rb) w'). split; [exact Hvs |].
  unfold ringbuffer_close, ringbuffer_clear. rewrite Hrun.
  split; [done |]. split; [done |]. split; [done |].
  split; [| done]. simpl. by rewrite Hf.
Qed.

Lemma close_releases_every_element_witness :
  ∃ vs w',
    contents wrapped4 = Done <$> vs ∧
    ringbuffer_close wrapped4 marking_world = Done (ringbuffer_init, w') ∧
    ringbuffer_clear wrapped4 marking_world = Done (ringbuffer_init, w') ∧
    released w' = reverse vs ++ released marking_world ∧
    freed w' = buffer wrapped4 :: freed marking_world ∧
    allocator w' = allocator marking_world ∧ alloc_calls w' = alloc_calls marking_world.
Proof. apply (close_releases_every_element wrapped4 marking_world). wf_concrete. Defined.

(** X19. [ringbuffer_append_ringbuffer] with an empty source returns 0
    and changes nothing, also when destination and source are the same
    structure. *)
Theorem append_ringbuffer_empty_source (fuel : nat) (h : gmap loc ringbuffer_t) (w : world)
    (ringbuffer other : loc) (src : ringbuffer_t) :
  h !! other = Some src → elementCount src ≤ 0 →
  ringbuffer_append_ringbuffer (S fuel) h w ringbuffer other = Done (0, h, w).
Proof.
  intros Hq Hempty. unfold ringbuffer_append_ringbuffer.
  rewrite append_all_unfold, Hq. simpl.
  destruct (Z.ltb_spec 0 (elementCount src)); [lia | done].
Qed.

Lemma append_ringbuffer_empty_source_witness :
  ringbuffer_append_ringbuffer 1 (<[1%nat := ringbuffer_init]> {[0%nat := full8]})
    refusing_world 0%nat 1%nat
  = Done (0, <[1%nat := ringbuffer_init]> {[0%nat := full8]}, refusing_world) ∧
  ringbuffer_append_ringbuffer 1 {[0%nat := ringbuffer_init]} refusing_world 0%nat 0%nat
  = Done (0, {[0%nat := ringbuffer_init]}, refusing_world).
Proof.
  split.
  - apply (append_ringbuffer_empty_source 0 _ refusing_world 0%nat 1%nat ringbuffer_init);
      [reflexivity | simpl; lia].
  - apply (append_ringbuffer_empty_source 0 _ refusing_world 0%nat 0%nat ringbuffer_init);
      [reflexivity | simpl; lia].
Defined.

(** X20. On an empty buffer, allocated or not, every index is out of
    range: [ringbuffer_get] returns [NULL], [ringbuffer_set] and
    [ringbuffer_del] return -1, an insertion at an index above 0 returns
    -1, and none of them touches the storage (which may be the null
    pointer), the structure or the collaborators. *)
Theorem empty_buffer_refuses_every_index (fuel : nat) (rb : ringbuffer_t) (index : Z)
    (value : ptr) (w : world) :
  elementCount rb = 0 → 0 ≤ index →
  ringbuffer_get rb index = Done NULL ∧
  ringbuffer_set rb index value w = Done (-1, rb, w) ∧
  ringbuffer_del fuel rb index w = Done (-1, rb, w) ∧
  (0 < index → ringbuffer_insert fuel rb index value w = Done (-1, rb, w)).
Proof.
  intros Hempty Hidx.
  unfold ringbuffer_get, ringbuffer_set, ringbuffer_del, ringbuffer_insert.
  rewrite Hempty, Z.gtb_ltb.
  destruct (Z.geb_spec index 0); [| lia].
  split; [done |]. split; [done |]. split; [done |].
  intros Hpos. destruct (Z.ltb_spec 0 index); [done | lia].
Qed.

Lemma empty_buffer_refuses_every_index_witness :
  ringbuffer_get ringbuffer_init 1 = Done NULL ∧
  ringbuffer_set ringbuffer_init 1 42 refusing_world = Done (-1, ringbuffer_init, refusing_world) ∧
  ringbuffer_del 0 ringbuffer_init 1 refusing_world = Done (-1, ringbuffer_init, refusing_world) ∧
  ringbuffer_insert 0 ringbuffer_init 1 42 refusing_world
  = Done (-1, ringbuffer_init, refusing_world).
Proof.
  destruct (empty_buffer_refuses_every_index 0 ringbuffer_init 1 42 refusing_world)
    as (Hget & Hset & Hdel & Hins); [reflexivity | lia |].
  split; [exact Hget |]. split; [exact Hset |]. split; [exact Hdel |].
  apply Hins. lia.
Defined.
